(** * Anonymous communication protocols over a peer-to-peer network

    A model of [p2p_network/participant_node.py] and [p2p_network/amdc_for_p2p.py]:
    the AMDC codec over GF(2), the participant's state and property setters, and
    the parity, veto, collision detection, notification and message transmission
    protocols run by a fully connected group of participants. *)

From Stdlib Require Import ZArith NArith List String Ascii Bool Lia Permutation.
From Stdlib Require Import DecimalString.
Import ListNotations.
Local Open Scope Z_scope.
Local Open Scope bool_scope.

Set Implicit Arguments.

(** ** Python values and exceptions *)

Inductive exception : Type :=
| ValueError
| NameError
| IndexError
| LookupError
| ZeroDivisionError.

(** The result of running a piece of code from a state [S]: it returns a value,
    raises, waits for ever in [wait_while_receiving], or asks [randbits] for more
    bits than the tape of the run holds. The state reached is kept in every case. *)
Inductive outcome (S A : Type) : Type :=
| Done (a : A) (s : S)
| Raised (e : exception) (s : S)
| Blocked (s : S)
| Starved (s : S).

Arguments Done {S A} a s.
Arguments Raised {S A} e s.
Arguments Blocked {S A} s.
Arguments Starved {S A} s.

Definition M (S A : Type) : Type := S -> outcome S A.

Definition ret {S A : Type} (a : A) : M S A := fun s => Done a s.

Definition bind {S A B : Type} (m : M S A) (k : A -> M S B) : M S B :=
  fun s =>
    match m s with
    | Done a s' => k a s'
    | Raised e s' => Raised e s'
    | Blocked s' => Blocked s'
    | Starved s' => Starved s'
    end.

Definition raise {S A : Type} (e : exception) : M S A := fun s => Raised e s.
Definition get {S : Type} : M S S := fun s => Done s s.
Definition gets {S A : Type} (f : S -> A) : M S A := fun s => Done (f s) s.
Definition modify {S : Type} (f : S -> S) : M S unit := fun s => Done tt (f s).

Declare Scope py_scope.
Delimit Scope py_scope with py.
Notation "x <- m ;; k" := (bind m (fun x => k))
  (at level 61, m at next level, right associativity) : py_scope.
Notation "m ;; k" := (bind m (fun _ => k))
  (at level 61, right associativity) : py_scope.
Local Open Scope py_scope.

(** [for x in l: body x] *)
Fixpoint for_each {S A : Type} (l : list A) (body : A -> M S unit) : M S unit :=
  match l with
  | [] => ret tt
  | x :: l' => body x ;; for_each l' body
  end.

(** [range(lo, hi)] *)
Definition range (lo hi : Z) : list Z :=
  map (fun k => lo + Z.of_nat k) (seq 0 (Z.to_nat (hi - lo))).

(** [np.bitwise_xor.reduce(l)]: the xor of the entries, 0 for the empty list. *)
Definition bitwise_xor_reduce (l : list Z) : Z := fold_left Z.lxor l 0.

(** [l.count(v)] *)
Definition count (v : Z) (l : list Z) : Z :=
  Z.of_nat (List.length (filter (Z.eqb v) l)).

(** [[v] * k]: empty when [k <= 0]. *)
Definition replicate (v : Z) (k : Z) : list Z := repeat v (Z.to_nat k).

(** A slice bound, as Python resolves it against a list of length [len]. *)
Definition slice_index (len : Z) (i : Z) : Z :=
  if i <? 0 then Z.max (len + i) 0 else Z.min i len.

(** [l[start:stop]]; [None] stands for an omitted bound. *)
Definition slice (l : list Z) (start stop : option Z) : list Z :=
  let len := Z.of_nat (List.length l) in
  let lo := match start with Some i => slice_index len i | None => 0 end in
  let hi := match stop with Some i => slice_index len i | None => len end in
  firstn (Z.to_nat (hi - lo)) (skipn (Z.to_nat lo) l).

Fixpoint list_eqb (l1 l2 : list Z) : bool :=
  match l1, l2 with
  | [], [] => true
  | x :: l1', y :: l2' => (x =? y) && list_eqb l1' l2'
  | _, _ => false
  end.


(** ** The participant *)

(** The attributes of a [ParticipantNode]. [all_nodes] holds the
    [connected_node_id] of every connection of the underlying [Node], in the
    order in which the connections are iterated. The attributes behind a
    property keep the underscore they have in the source. *)
Record ParticipantNode : Type := Build_ParticipantNode {
  node_id : string;
  all_nodes : list string;
  all_node_ids : list string;
  _parity_input : Z;
  parity_shared_keys : list Z;
  parity_broadcasts_last : bool;
  parity_received_broadcast_values : list Z;
  parity_result : Z;
  parity_finished : list bool;
  _veto_input : Z;
  veto_result : Z;
  veto_finished : list bool;
  _collision_detection_input : Z;
  collision_detection_result : Z;
  collision_detection_finished : list bool;
  _notification_input : string;
  notification_is_spectator : bool;
  notification_result : Z;
  notification_finished : list bool;
  message_length : Z;
  encoded_message_length : Z;
  _message_input : list Z;
  message_amdc_encoded_input : list Z;
  is_message_sender : bool;
  is_message_receiver : bool;
  message_amdc_encoded_received_message : list Z;
  message_amdc_decoded_received_message : list Z;
  message_received_str : string;
  one_time_pad : list Z;
  fixed_message_finished : list bool;
  message_finished : list bool
}.
Definition with_fields {A : Type} (p : ParticipantNode)
    (k : string -> list string -> list string -> Z -> list Z -> bool -> list Z -> Z -> list
         bool -> Z -> Z -> list bool -> Z -> Z -> list bool -> string -> bool -> Z -> list
         bool -> Z -> Z -> list Z -> list Z -> bool -> bool -> list Z -> list Z -> string ->
         list Z -> list bool -> list bool -> A) : A :=
  k (node_id p) (all_nodes p) (all_node_ids p) (_parity_input p) (parity_shared_keys p)
    (parity_broadcasts_last p) (parity_received_broadcast_values p) (parity_result p)
    (parity_finished p) (_veto_input p) (veto_result p) (veto_finished p)
    (_collision_detection_input p) (collision_detection_result p)
    (collision_detection_finished p) (_notification_input p) (notification_is_spectator p)
    (notification_result p) (notification_finished p) (message_length p)
    (encoded_message_length p) (_message_input p) (message_amdc_encoded_input p)
    (is_message_sender p) (is_message_receiver p) (message_amdc_encoded_received_message
    p) (message_amdc_decoded_received_message p) (message_received_str p) (one_time_pad p)
    (fixed_message_finished p) (message_finished p).

Definition upd_all_nodes (v : list string) (p : ParticipantNode) : ParticipantNode :=
  with_fields p (fun a00 _ a02 a03 a04 a05 a06 a07 a08 a09 a10 a11 a12 a13 a14 a15 a16 a17 a18 a19
      a20 a21 a22 a23 a24 a25 a26 a27 a28 a29 a30 =>
    Build_ParticipantNode a00 v a02 a03 a04 a05 a06 a07 a08 a09 a10 a11 a12 a13 a14 a15 a16 a17 a18 a19
      a20 a21 a22 a23 a24 a25 a26 a27 a28 a29 a30).

Definition upd_all_node_ids (v : list string) (p : ParticipantNode) : ParticipantNode :=
  with_fields p (fun a00 a01 _ a03 a04 a05 a06 a07 a08 a09 a10 a11 a12 a13 a14 a15 a16 a17 a18 a19
      a20 a21 a22 a23 a24 a25 a26 a27 a28 a29 a30 =>
    Build_ParticipantNode a00 a01 v a03 a04 a05 a06 a07 a08 a09 a10 a11 a12 a13 a14 a15 a16 a17 a18 a19
      a20 a21 a22 a23 a24 a25 a26 a27 a28 a29 a30).

Definition upd_parity_input (v : Z) (p : ParticipantNode) : ParticipantNode :=
  with_fields p (fun a00 a01 a02 _ a04 a05 a06 a07 a08 a09 a10 a11 a12 a13 a14 a15 a16 a17 a18 a19
      a20 a21 a22 a23 a24 a25 a26 a27 a28 a29 a30 =>
    Build_ParticipantNode a00 a01 a02 v a04 a05 a06 a07 a08 a09 a10 a11 a12 a13 a14 a15 a16 a17 a18 a19
      a20 a21 a22 a23 a24 a25 a26 a27 a28 a29 a30).

Definition upd_parity_shared_keys (v : list Z) (p : ParticipantNode) : ParticipantNode :=
  with_fields p (fun a00 a01 a02 a03 _ a05 a06 a07 a08 a09 a10 a11 a12 a13 a14 a15 a16 a17 a18 a19
      a20 a21 a22 a23 a24 a25 a26 a27 a28 a29 a30 =>
    Build_ParticipantNode a00 a01 a02 a03 v a05 a06 a07 a08 a09 a10 a11 a12 a13 a14 a15 a16 a17 a18 a19
      a20 a21 a22 a23 a24 a25 a26 a27 a28 a29 a30).

Definition upd_parity_broadcasts_last (v : bool) (p : ParticipantNode) : ParticipantNode :=
  with_fields p (fun a00 a01 a02 a03 a04 _ a06 a07 a08 a09 a10 a11 a12 a13 a14 a15 a16 a17 a18 a19
      a20 a21 a22 a23 a24 a25 a26 a27 a28 a29 a30 =>
    Build_ParticipantNode a00 a01 a02 a03 a04 v a06 a07 a08 a09 a10 a11 a12 a13 a14 a15 a16 a17 a18 a19
      a20 a21 a22 a23 a24 a25 a26 a27 a28 a29 a30).

Definition upd_parity_received_broadcast_values (v : list Z) (p : ParticipantNode) : ParticipantNode :=
  with_fields p (fun a00 a01 a02 a03 a04 a05 _ a07 a08 a09 a10 a11 a12 a13 a14 a15 a16 a17 a18 a19
      a20 a21 a22 a23 a24 a25 a26 a27 a28 a29 a30 =>
    Build_ParticipantNode a00 a01 a02 a03 a04 a05 v a07 a08 a09 a10 a11 a12 a13 a14 a15 a16 a17 a18 a19
      a20 a21 a22 a23 a24 a25 a26 a27 a28 a29 a30).

Definition upd_parity_result (v : Z) (p : ParticipantNode) : ParticipantNode :=
  with_fields p (fun a00 a01 a02 a03 a04 a05 a06 _ a08 a09 a10 a11 a12 a13 a14 a15 a16 a17 a18 a19
      a20 a21 a22 a23 a24 a25 a26 a27 a28 a29 a30 =>
    Build_ParticipantNode a00 a01 a02 a03 a04 a05 a06 v a08 a09 a10 a11 a12 a13 a14 a15 a16 a17 a18 a19
      a20 a21 a22 a23 a24 a25 a26 a27 a28 a29 a30).

Definition upd_parity_finished (v : list bool) (p : ParticipantNode) : ParticipantNode :=
  with_fields p (fun a00 a01 a02 a03 a04 a05 a06 a07 _ a09 a10 a11 a12 a13 a14 a15 a16 a17 a18 a19
      a20 a21 a22 a23 a24 a25 a26 a27 a28 a29 a30 =>
    Build_ParticipantNode a00 a01 a02 a03 a04 a05 a06 a07 v a09 a10 a11 a12 a13 a14 a15 a16 a17 a18 a19
      a20 a21 a22 a23 a24 a25 a26 a27 a28 a29 a30).

Definition upd_veto_input (v : Z) (p : ParticipantNode) : ParticipantNode :=
  with_fields p (fun a00 a01 a02 a03 a04 a05 a06 a07 a08 _ a10 a11 a12 a13 a14 a15 a16 a17 a18 a19
      a20 a21 a22 a23 a24 a25 a26 a27 a28 a29 a30 =>
    Build_ParticipantNode a00 a01 a02 a03 a04 a05 a06 a07 a08 v a10 a11 a12 a13 a14 a15 a16 a17 a18 a19
      a20 a21 a22 a23 a24 a25 a26 a27 a28 a29 a30).

Definition upd_veto_result (v : Z) (p : ParticipantNode) : ParticipantNode :=
  with_fields p (fun a00 a01 a02 a03 a04 a05 a06 a07 a08 a09 _ a11 a12 a13 a14 a15 a16 a17 a18 a19
      a20 a21 a22 a23 a24 a25 a26 a27 a28 a29 a30 =>
    Build_ParticipantNode a00 a01 a02 a03 a04 a05 a06 a07 a08 a09 v a11 a12 a13 a14 a15 a16 a17 a18 a19
      a20 a21 a22 a23 a24 a25 a26 a27 a28 a29 a30).

Definition upd_veto_finished (v : list bool) (p : ParticipantNode) : ParticipantNode :=
  with_fields p (fun a00 a01 a02 a03 a04 a05 a06 a07 a08 a09 a10 _ a12 a13 a14 a15 a16 a17 a18 a19
      a20 a21 a22 a23 a24 a25 a26 a27 a28 a29 a30 =>
    Build_ParticipantNode a00 a01 a02 a03 a04 a05 a06 a07 a08 a09 a10 v a12 a13 a14 a15 a16 a17 a18 a19
      a20 a21 a22 a23 a24 a25 a26 a27 a28 a29 a30).

Definition upd_collision_detection_input (v : Z) (p : ParticipantNode) : ParticipantNode :=
  with_fields p (fun a00 a01 a02 a03 a04 a05 a06 a07 a08 a09 a10 a11 _ a13 a14 a15 a16 a17 a18 a19
      a20 a21 a22 a23 a24 a25 a26 a27 a28 a29 a30 =>
    Build_ParticipantNode a00 a01 a02 a03 a04 a05 a06 a07 a08 a09 a10 a11 v a13 a14 a15 a16 a17 a18 a19
      a20 a21 a22 a23 a24 a25 a26 a27 a28 a29 a30).

Definition upd_collision_detection_result (v : Z) (p : ParticipantNode) : ParticipantNode :=
  with_fields p (fun a00 a01 a02 a03 a04 a05 a06 a07 a08 a09 a10 a11 a12 _ a14 a15 a16 a17 a18 a19
      a20 a21 a22 a23 a24 a25 a26 a27 a28 a29 a30 =>
    Build_ParticipantNode a00 a01 a02 a03 a04 a05 a06 a07 a08 a09 a10 a11 a12 v a14 a15 a16 a17 a18 a19
      a20 a21 a22 a23 a24 a25 a26 a27 a28 a29 a30).

Definition upd_collision_detection_finished (v : list bool) (p : ParticipantNode) : ParticipantNode :=
  with_fields p (fun a00 a01 a02 a03 a04 a05 a06 a07 a08 a09 a10 a11 a12 a13 _ a15 a16 a17 a18 a19
      a20 a21 a22 a23 a24 a25 a26 a27 a28 a29 a30 =>
    Build_ParticipantNode a00 a01 a02 a03 a04 a05 a06 a07 a08 a09 a10 a11 a12 a13 v a15 a16 a17 a18 a19
      a20 a21 a22 a23 a24 a25 a26 a27 a28 a29 a30).

Definition upd_notification_input (v : string) (p : ParticipantNode) : ParticipantNode :=
  with_fields p (fun a00 a01 a02 a03 a04 a05 a06 a07 a08 a09 a10 a11 a12 a13 a14 _ a16 a17 a18 a19
      a20 a21 a22 a23 a24 a25 a26 a27 a28 a29 a30 =>
    Build_ParticipantNode a00 a01 a02 a03 a04 a05 a06 a07 a08 a09 a10 a11 a12 a13 a14 v a16 a17 a18 a19
      a20 a21 a22 a23 a24 a25 a26 a27 a28 a29 a30).

Definition upd_notification_is_spectator (v : bool) (p : ParticipantNode) : ParticipantNode :=
  with_fields p (fun a00 a01 a02 a03 a04 a05 a06 a07 a08 a09 a10 a11 a12 a13 a14 a15 _ a17 a18 a19
      a20 a21 a22 a23 a24 a25 a26 a27 a28 a29 a30 =>
    Build_ParticipantNode a00 a01 a02 a03 a04 a05 a06 a07 a08 a09 a10 a11 a12 a13 a14 a15 v a17 a18 a19
      a20 a21 a22 a23 a24 a25 a26 a27 a28 a29 a30).

Definition upd_notification_result (v : Z) (p : ParticipantNode) : ParticipantNode :=
  with_fields p (fun a00 a01 a02 a03 a04 a05 a06 a07 a08 a09 a10 a11 a12 a13 a14 a15 a16 _ a18 a19
      a20 a21 a22 a23 a24 a25 a26 a27 a28 a29 a30 =>
    Build_ParticipantNode a00 a01 a02 a03 a04 a05 a06 a07 a08 a09 a10 a11 a12 a13 a14 a15 a16 v a18 a19
      a20 a21 a22 a23 a24 a25 a26 a27 a28 a29 a30).

Definition upd_notification_finished (v : list bool) (p : ParticipantNode) : ParticipantNode :=
  with_fields p (fun a00 a01 a02 a03 a04 a05 a06 a07 a08 a09 a10 a11 a12 a13 a14 a15 a16 a17 _ a19
      a20 a21 a22 a23 a24 a25 a26 a27 a28 a29 a30 =>
    Build_ParticipantNode a00 a01 a02 a03 a04 a05 a06 a07 a08 a09 a10 a11 a12 a13 a14 a15 a16 a17 v a19
      a20 a21 a22 a23 a24 a25 a26 a27 a28 a29 a30).

Definition upd_message_input (v : list Z) (p : ParticipantNode) : ParticipantNode :=
  with_fields p (fun a00 a01 a02 a03 a04 a05 a06 a07 a08 a09 a10 a11 a12 a13 a14 a15 a16 a17 a18 a19
      a20 _ a22 a23 a24 a25 a26 a27 a28 a29 a30 =>
    Build_ParticipantNode a00 a01 a02 a03 a04 a05 a06 a07 a08 a09 a10 a11 a12 a13 a14 a15 a16 a17 a18 a19
      a20 v a22 a23 a24 a25 a26 a27 a28 a29 a30).

Definition upd_message_amdc_encoded_input (v : list Z) (p : ParticipantNode) : ParticipantNode :=
  with_fields p (fun a00 a01 a02 a03 a04 a05 a06 a07 a08 a09 a10 a11 a12 a13 a14 a15 a16 a17 a18 a19
      a20 a21 _ a23 a24 a25 a26 a27 a28 a29 a30 =>
    Build_ParticipantNode a00 a01 a02 a03 a04 a05 a06 a07 a08 a09 a10 a11 a12 a13 a14 a15 a16 a17 a18 a19
      a20 a21 v a23 a24 a25 a26 a27 a28 a29 a30).

Definition upd_is_message_sender (v : bool) (p : ParticipantNode) : ParticipantNode :=
  with_fields p (fun a00 a01 a02 a03 a04 a05 a06 a07 a08 a09 a10 a11 a12 a13 a14 a15 a16 a17 a18 a19
      a20 a21 a22 _ a24 a25 a26 a27 a28 a29 a30 =>
    Build_ParticipantNode a00 a01 a02 a03 a04 a05 a06 a07 a08 a09 a10 a11 a12 a13 a14 a15 a16 a17 a18 a19
      a20 a21 a22 v a24 a25 a26 a27 a28 a29 a30).

Definition upd_is_message_receiver (v : bool) (p : ParticipantNode) : ParticipantNode :=
  with_fields p (fun a00 a01 a02 a03 a04 a05 a06 a07 a08 a09 a10 a11 a12 a13 a14 a15 a16 a17 a18 a19
      a20 a21 a22 a23 _ a25 a26 a27 a28 a29 a30 =>
    Build_ParticipantNode a00 a01 a02 a03 a04 a05 a06 a07 a08 a09 a10 a11 a12 a13 a14 a15 a16 a17 a18 a19
      a20 a21 a22 a23 v a25 a26 a27 a28 a29 a30).

Definition upd_message_amdc_encoded_received_message (v : list Z) (p : ParticipantNode) : ParticipantNode :=
  with_fields p (fun a00 a01 a02 a03 a04 a05 a06 a07 a08 a09 a10 a11 a12 a13 a14 a15 a16 a17 a18 a19
      a20 a21 a22 a23 a24 _ a26 a27 a28 a29 a30 =>
    Build_ParticipantNode a00 a01 a02 a03 a04 a05 a06 a07 a08 a09 a10 a11 a12 a13 a14 a15 a16 a17 a18 a19
      a20 a21 a22 a23 a24 v a26 a27 a28 a29 a30).

Definition upd_message_amdc_decoded_received_message (v : list Z) (p : ParticipantNode) : ParticipantNode :=
  with_fields p (fun a00 a01 a02 a03 a04 a05 a06 a07 a08 a09 a10 a11 a12 a13 a14 a15 a16 a17 a18 a19
      a20 a21 a22 a23 a24 a25 _ a27 a28 a29 a30 =>
    Build_ParticipantNode a00 a01 a02 a03 a04 a05 a06 a07 a08 a09 a10 a11 a12 a13 a14 a15 a16 a17 a18 a19
      a20 a21 a22 a23 a24 a25 v a27 a28 a29 a30).

Definition upd_message_received_str (v : string) (p : ParticipantNode) : ParticipantNode :=
  with_fields p (fun a00 a01 a02 a03 a04 a05 a06 a07 a08 a09 a10 a11 a12 a13 a14 a15 a16 a17 a18 a19
      a20 a21 a22 a23 a24 a25 a26 _ a28 a29 a30 =>
    Build_ParticipantNode a00 a01 a02 a03 a04 a05 a06 a07 a08 a09 a10 a11 a12 a13 a14 a15 a16 a17 a18 a19
      a20 a21 a22 a23 a24 a25 a26 v a28 a29 a30).

Definition upd_one_time_pad (v : list Z) (p : ParticipantNode) : ParticipantNode :=
  with_fields p (fun a00 a01 a02 a03 a04 a05 a06 a07 a08 a09 a10 a11 a12 a13 a14 a15 a16 a17 a18 a19
      a20 a21 a22 a23 a24 a25 a26 a27 _ a29 a30 =>
    Build_ParticipantNode a00 a01 a02 a03 a04 a05 a06 a07 a08 a09 a10 a11 a12 a13 a14 a15 a16 a17 a18 a19
      a20 a21 a22 a23 a24 a25 a26 a27 v a29 a30).

Definition upd_fixed_message_finished (v : list bool) (p : ParticipantNode) : ParticipantNode :=
  with_fields p (fun a00 a01 a02 a03 a04 a05 a06 a07 a08 a09 a10 a11 a12 a13 a14 a15 a16 a17 a18 a19
      a20 a21 a22 a23 a24 a25 a26 a27 a28 _ a30 =>
    Build_ParticipantNode a00 a01 a02 a03 a04 a05 a06 a07 a08 a09 a10 a11 a12 a13 a14 a15 a16 a17 a18 a19
      a20 a21 a22 a23 a24 a25 a26 a27 a28 v a30).

Definition upd_message_finished (v : list bool) (p : ParticipantNode) : ParticipantNode :=
  with_fields p (fun a00 a01 a02 a03 a04 a05 a06 a07 a08 a09 a10 a11 a12 a13 a14 a15 a16 a17 a18 a19
      a20 a21 a22 a23 a24 a25 a26 a27 a28 a29 _ =>
    Build_ParticipantNode a00 a01 a02 a03 a04 a05 a06 a07 a08 a09 a10 a11 a12 a13 a14 a15 a16 a17 a18 a19
      a20 a21 a22 a23 a24 a25 a26 a27 a28 a29 v).

(** *** Properties *)

Definition parity_input (p : ParticipantNode) : Z := _parity_input p.
Definition veto_input (p : ParticipantNode) : Z := _veto_input p.
Definition collision_detection_input (p : ParticipantNode) : Z :=
  _collision_detection_input p.
Definition notification_input (p : ParticipantNode) : string := _notification_input p.
Definition message_input (p : ParticipantNode) : list Z := _message_input p.

Definition parity_input_setter (bit : Z) : M ParticipantNode unit :=
  if negb (bit =? 1) && negb (bit =? 0)
  then raise ValueError
  else modify (upd_parity_input bit).

Definition veto_input_setter (bit : Z) : M ParticipantNode unit :=
  if negb (bit =? 1) && negb (bit =? 0)
  then raise ValueError
  else modify (upd_veto_input bit).

Definition collision_detection_input_setter (bit : Z) : M ParticipantNode unit :=
  if negb (bit =? 1) && negb (bit =? 0)
  then raise ValueError
  else modify (upd_collision_detection_input bit).

Definition notification_input_setter (receiver_id : string) : M ParticipantNode unit :=
  self <- get ;;
  if String.eqb receiver_id (node_id self)
  then raise NameError
  else modify (upd_notification_input receiver_id).

(** [format(ord(c), '08b')], as a list of bits. *)
Definition format_08b (c : ascii) : list Z :=
  let n := Z.of_N (N_of_ascii c) in
  map (fun k => Z.b2z (Z.testbit n k)) [7; 6; 5; 4; 3; 2; 1; 0].

(** [s.ljust(width)] *)
Definition ljust (s : string) (width : Z) : string :=
  (s ++ string_of_list_ascii
          (repeat " "%char (Z.to_nat (width - Z.of_nat (String.length s)))))%string.

(** The setter of [message_input]. The argument is a Python [str]; the empty
    list that [__init__] and [clear_all] assign is falsy like the empty string
    and takes the same branch. [message_length / 8] is a true division, so the
    length test is [8 * len > message_length], and [int] truncates. *)
Definition message_input_setter (message : string) : M ParticipantNode unit :=
  self <- get ;;
  if String.eqb message ""
  then modify (upd_message_input [])
  else if 8 * Z.of_nat (String.length message) >? message_length self
  then raise IndexError
  else
    let padded_message := ljust message (Z.quot (message_length self) 8) in
    modify (upd_message_input
              (flat_map format_08b (list_ascii_of_string padded_message))).

(** *** Messages and mailboxes *)

(** A message is a dictionary with one key, the protocol, and its value. *)
Inductive message : Type :=
| msg_node_id (value : string)
| msg_parity_shared_key (value : Z)
| msg_parity_key_xor_result (value : Z)
| msg_parity_finished (value : bool)
| msg_veto_finished (value : bool)
| msg_collision_detection_finished (value : bool)
| msg_notification_finished (value : bool)
| msg_fixed_message_finished (value : bool)
| msg_message_finished (value : bool)
| msg_other (protocol : string).

Definition sort_incoming_messages (m : message) : M ParticipantNode unit :=
  self <- get ;;
  match m with
  | msg_node_id value =>
      modify (upd_all_node_ids (all_node_ids self ++ [value]))
  | msg_parity_shared_key value =>
      modify (upd_parity_shared_keys (parity_shared_keys self ++ [value]))
  | msg_parity_key_xor_result value =>
      modify (upd_parity_received_broadcast_values
                (parity_received_broadcast_values self ++ [value]))
  | msg_parity_finished value =>
      modify (upd_parity_finished (parity_finished self ++ [value]))
  | msg_veto_finished value =>
      modify (upd_veto_finished (veto_finished self ++ [value]))
  | msg_collision_detection_finished value =>
      modify (upd_collision_detection_finished
                (collision_detection_finished self ++ [value]))
  | msg_notification_finished value =>
      modify (upd_notification_finished (notification_finished self ++ [value]))
  | msg_fixed_message_finished value =>
      modify (upd_fixed_message_finished (fixed_message_finished self ++ [value]))
  | msg_message_finished value =>
      modify (upd_message_finished (message_finished self ++ [value]))
  | msg_other _ => raise LookupError
  end.

(** *** Construction and reset *)

(** The object before [__init__] has assigned its attributes: [Node.__init__]
    has stored the identifier, nothing is connected. *)
Definition blank (id : string) : ParticipantNode :=
  Build_ParticipantNode id [] [] 0 [] false [] 0 [] 0 0 [] 0 0 [] "" false 0 []
    0 0 [] [] false false [] [] "" [] [] [].

Definition upd_message_length (v : Z) (p : ParticipantNode) : ParticipantNode :=
  with_fields p (fun a00 a01 a02 a03 a04 a05 a06 a07 a08 a09 a10 a11 a12 a13 a14 a15
      a16 a17 a18 _ a20 a21 a22 a23 a24 a25 a26 a27 a28 a29 a30 =>
    Build_ParticipantNode a00 a01 a02 a03 a04 a05 a06 a07 a08 a09 a10 a11 a12 a13 a14
      a15 a16 a17 a18 v a20 a21 a22 a23 a24 a25 a26 a27 a28 a29 a30).

Definition upd_encoded_message_length (v : Z) (p : ParticipantNode) : ParticipantNode :=
  with_fields p (fun a00 a01 a02 a03 a04 a05 a06 a07 a08 a09 a10 a11 a12 a13 a14 a15
      a16 a17 a18 a19 _ a21 a22 a23 a24 a25 a26 a27 a28 a29 a30 =>
    Build_ParticipantNode a00 a01 a02 a03 a04 a05 a06 a07 a08 a09 a10 a11 a12 a13 a14
      a15 a16 a17 a18 a19 v a21 a22 a23 a24 a25 a26 a27 a28 a29 a30).

(** [ParticipantNode.__init__], after [Node.__init__] *)
Definition init : M ParticipantNode unit :=
  modify (upd_all_node_ids []) ;;
  parity_input_setter 0 ;;
  modify (upd_parity_shared_keys []) ;;
  modify (upd_parity_broadcasts_last false) ;;
  modify (upd_parity_received_broadcast_values []) ;;
  modify (upd_parity_result 0) ;;
  modify (upd_parity_finished []) ;;
  veto_input_setter 0 ;;
  modify (upd_veto_result 0) ;;
  modify (upd_veto_finished []) ;;
  collision_detection_input_setter 0 ;;
  modify (upd_collision_detection_result 0) ;;
  modify (upd_collision_detection_finished []) ;;
  notification_input_setter "" ;;
  modify (upd_notification_is_spectator false) ;;
  modify (upd_notification_result 0) ;;
  modify (upd_notification_finished []) ;;
  modify (upd_message_length 64) ;;
  modify (upd_encoded_message_length 99) ;;
  message_input_setter "" ;;
  modify (upd_message_amdc_encoded_input []) ;;
  modify (upd_is_message_sender false) ;;
  modify (upd_is_message_receiver false) ;;
  modify (upd_message_amdc_encoded_received_message []) ;;
  modify (upd_message_amdc_decoded_received_message []) ;;
  modify (upd_message_received_str "") ;;
  modify (upd_one_time_pad []) ;;
  modify (upd_fixed_message_finished []) ;;
  modify (upd_message_finished []).

Definition clear_all : M ParticipantNode unit :=
  modify (upd_all_node_ids []) ;;
  parity_input_setter 0 ;;
  modify (upd_parity_shared_keys []) ;;
  modify (upd_parity_broadcasts_last false) ;;
  modify (upd_parity_received_broadcast_values []) ;;
  modify (upd_parity_result 0) ;;
  modify (upd_parity_finished []) ;;
  veto_input_setter 0 ;;
  modify (upd_veto_result 0) ;;
  modify (upd_veto_finished []) ;;
  collision_detection_input_setter 0 ;;
  modify (upd_collision_detection_result 0) ;;
  modify (upd_collision_detection_finished []) ;;
  notification_input_setter "" ;;
  modify (upd_notification_is_spectator false) ;;
  modify (upd_notification_result 0) ;;
  modify (upd_notification_finished []) ;;
  message_input_setter "" ;;
  modify (upd_is_message_sender false) ;;
  modify (upd_is_message_receiver false) ;;
  modify (upd_message_amdc_encoded_input []) ;;
  modify (upd_message_amdc_encoded_received_message []) ;;
  modify (upd_message_amdc_decoded_received_message []) ;;
  modify (upd_one_time_pad []) ;;
  modify (upd_fixed_message_finished []).


(** ** The AMDC codec ([amdc_for_p2p.py]) *)

Definition len {A : Type} (l : list A) : Z := Z.of_nat (List.length l).

(** *** Randomness

    A run draws its random bits from a tape: [randbits(1)] takes the next one. *)
Definition randbits1 : M (list bool) Z :=
  fun tape =>
    match tape with
    | [] => Starved []
    | b :: tape' => Done (Z.b2z b) tape'
    end.

(** [[randbits(1) for _ in range(n)]] *)
Fixpoint randbits_list_nat (n : nat) : M (list bool) (list Z) :=
  match n with
  | O => ret []
  | S n' => b <- randbits1 ;; l <- randbits_list_nat n' ;; ret (b :: l)
  end.

Definition randbits_list (n : Z) : M (list bool) (list Z) :=
  randbits_list_nat (Z.to_nat n).

(** *** Polynomials over GF(2)

    [galois.Poly(coeffs, galois.GF(2))], held by its integer representation:
    bit [i] is the coefficient of [x^i]. *)
Module GF2.

Definition Poly_value (coeffs : list Z) : N :=
  fold_left (fun acc c => N.lor (N.double acc) (Z.to_N c)) coeffs 0%N.

(** The constructor takes the coefficients highest degree first. It rejects
    coefficients outside the field and an array without entries. *)
Definition Poly {S : Type} (coeffs : list Z) : M S N :=
  match coeffs with
  | [] => raise IndexError
  | _ =>
      if forallb (fun c => (c =? 0) || (c =? 1)) coeffs
      then ret (Poly_value coeffs)
      else raise ValueError
  end.

Definition add (a b : N) : N := N.lxor a b.

Fixpoint mul_pos (a : positive) (b : N) : N :=
  match a with
  | xH => b
  | xO a' => N.double (mul_pos a' b)
  | xI a' => N.lxor b (N.double (mul_pos a' b))
  end.

Definition mul (a b : N) : N :=
  match a with
  | N0 => 0%N
  | Npos a' => mul_pos a' b
  end.

(** [a ** k] for [k >= 0] *)
Definition pow (a : N) (k : Z) : N :=
  Nat.iter (Z.to_nat k) (mul a) 1%N.

(** Schoolbook division: while the degree of [a] is not below the degree of
    [b], cancel the leading term of [a] with a shifted copy of [b]. Each step
    lowers the degree, so [N.size a] steps are enough. *)
Fixpoint mod_steps (steps : nat) (a b : N) : N :=
  match steps with
  | O => a
  | S steps' =>
      if (N.size a <? N.size b)%N then a
      else mod_steps steps' (N.lxor a (N.shiftl b (N.size a - N.size b))) b
  end.

(** [a % b] *)
Definition mod_ {S : Type} (a b : N) : M S N :=
  if (b =? 0)%N then raise ZeroDivisionError
  else ret (mod_steps (N.to_nat (N.size a)) a b).

Fixpoint bits_of_pos (p : positive) (acc : list Z) : list Z :=
  match p with
  | xH => 1 :: acc
  | xO p' => bits_of_pos p' (0 :: acc)
  | xI p' => bits_of_pos p' (1 :: acc)
  end.

(** [list(map(int, bin(a)[2:]))] *)
Definition bin_digits (a : N) : list Z :=
  match a with
  | N0 => [0]
  | Npos p => bits_of_pos p []
  end.

End GF2.

(** [np.array_split(l, sections)]: [len(l) % sections] parts of
    [len(l) // sections + 1] entries, then parts of [len(l) // sections]. *)
Fixpoint split_sizes (sizes : list nat) (l : list Z) : list (list Z) :=
  match sizes with
  | [] => []
  | n :: sizes' => firstn n l :: split_sizes sizes' (skipn n l)
  end.

Definition array_split {S : Type} (l : list Z) (sections : Z) : M S (list (list Z)) :=
  if sections <=? 0 then raise ValueError
  else
    let each_section := Z.to_nat (len l / sections) in
    let extras := Z.to_nat (len l mod sections) in
    ret (split_sizes
           (repeat (Datatypes.S each_section) extras
              ++ repeat each_section (Z.to_nat sections - extras))
           l).

(** [[f(x) for x in l]] for an [f] that may raise *)
Fixpoint map_m {S A B : Type} (f : A -> M S B) (l : list A) : M S (list B) :=
  match l with
  | [] => ret []
  | x :: l' => y <- f x ;; ys <- map_m f l' ;; ret (y :: ys)
  end.

(** A [for] loop that updates one variable *)
Fixpoint fold_m {S A B : Type} (body : B -> A -> M S B) (l : list A) (b : B) : M S B :=
  match l with
  | [] => ret b
  | x :: l' => b' <- body b x ;; fold_m body l' b'
  end.

(** [f_poly += u_poly_list[i - 1] * (theta_poly ** i)] *)
Definition add_term {S : Type} (u_poly_list : list N) (theta_poly : N)
    (f_poly : N) (i : Z) : M S N :=
  match nth_error u_poly_list (Z.to_nat (i - 1)) with
  | Some u => ret (GF2.add f_poly (GF2.mul u (GF2.pow theta_poly i)))
  | None => raise IndexError
  end.

(** *** Parameters

    The loop test [d * (beta + np.log2(d + 1)) < m_len], with [np.log2] read as
    the exact logarithm: for [d >= 1] it says [(d + 1)^d < 2^(m_len - d * beta)]. *)
Definition d_too_small (beta m_len d : Z) : bool :=
  (0 <? m_len - d * beta) && ((d + 1) ^ d <? 2 ^ (m_len - d * beta)).

Fixpoint find_d (steps : nat) (beta m_len d : Z) : option Z :=
  if d_too_small beta m_len d
  then match steps with
       | O => None
       | S steps' => find_d steps' beta m_len (d + 2)
       end
  else Some d.

(** [find_d_and_gamma]. The loop is given [m_len] rounds, which is enough for
    every [beta >= 0]; a loop that needs more counts as not returning.
    [int(np.ceil(beta + np.log2(d + 1)))] is [beta] plus the least [k] with
    [d + 1 <= 2^k]. *)
Definition d_and_gamma (beta m_len : Z) : option (Z * Z) :=
  match find_d (Z.to_nat m_len) beta m_len 1 with
  | None => None
  | Some d => Some (d, beta + Z.log2_up (d + 1))
  end.

Definition find_d_and_gamma {S : Type} (beta m_len : Z) : M S (Z * Z) :=
  match d_and_gamma beta m_len with
  | None => fun s => Blocked s
  | Some dg => ret dg
  end.

(** The length [d * gamma + 2 * gamma] of a code word, as
    [d_gamma_calculator.py] prints it. *)
Definition encoded_length (beta m_len : Z) : option Z :=
  match d_and_gamma beta m_len with
  | None => None
  | Some (d, gamma) => Some (d * gamma + 2 * gamma)
  end.

(** [int(c)] for one character *)
Definition int_of_char {S : Type} (c : ascii) : M S Z :=
  let n := Z.of_N (N_of_ascii c) in
  if (48 <=? n) && (n <=? 57) then ret (n - 48) else raise ValueError.

Section Codec.

(** The table of [binary_irreducible_polynomials_dict.yaml]: the file is not
    among the sources, so the codec takes its content as a parameter. An
    entry is given by the text [str] makes of it. *)
Variable irreducible_binary_polynomial_dict : Z -> option string.

(** [str(get_binary_irreducible(gamma))]: [dict.get] answers [None] for a
    missing key. *)
Definition str_get_binary_irreducible (gamma : Z) : string :=
  match irreducible_binary_polynomial_dict gamma with
  | Some b => b
  | None => "None"
  end.

(** The tag: the steps that [amdc_encode_message] and [amdc_decode_message]
    both take, statement for statement, from the lookup of [b] to the padding
    of [tau]. *)
Definition calculate_tau {S : Type} (padded_message theta_binary : list Z)
    (d gamma : Z) : M S (list Z) :=
  b_binary <- map_m int_of_char
                (list_ascii_of_string (str_get_binary_irreducible gamma)) ;;
  b_poly <- GF2.Poly b_binary ;;
  theta_poly <- GF2.Poly theta_binary ;;
  chunks <- array_split padded_message d ;;
  u_poly_list <- map_m GF2.Poly chunks ;;
  f_poly <- fold_m (add_term u_poly_list theta_poly) (range 1 (d + 1))
              (GF2.pow theta_poly (d + 2)) ;;
  remainder_poly <- GF2.mod_ f_poly b_poly ;;
  let tau_binary := GF2.bin_digits remainder_poly in
  ret (replicate 0 (gamma - len tau_binary) ++ tau_binary).

Definition amdc_encode_message (message : list Z) (beta : Z) : M (list bool) (list Z) :=
  dg <- find_d_and_gamma beta (len message) ;;
  let '(d, gamma) := dg in
  theta_binary <- randbits_list gamma ;;
  let padded_message := message ++ replicate 0 (d * gamma - len message) in
  tau_binary <- calculate_tau padded_message theta_binary d gamma ;;
  ret (padded_message ++ theta_binary ++ tau_binary).

Definition amdc_decode_message {S : Type} (encoded_message : list Z)
    (message_length beta : Z) : M S (bool * list Z) :=
  dg <- find_d_and_gamma beta message_length ;;
  let '(d, gamma) := dg in
  let padded_message := slice encoded_message None (Some (- 2 * gamma)) in
  let theta_binary := slice encoded_message (Some (- 2 * gamma)) (Some (- gamma)) in
  let tau_binary_received := slice encoded_message (Some (- gamma)) None in
  tau_binary_calculated <- calculate_tau padded_message theta_binary d gamma ;;
  let message_correct := list_eqb tau_binary_calculated tau_binary_received in
  ret (message_correct, slice padded_message None (Some message_length)).

End Codec.

(** Modelled from the spec: [binary_irreducible_polynomials_dict.yaml] is
    missing; the spec asks for a static mapping from gamma to the coefficients
    of an irreducible polynomial of degree gamma, highest degree first and
    with its leading 1. These are such polynomials for gamma from 2 to 11. *)
Definition example_polynomial_dict (gamma : Z) : option string :=
  match gamma with
  | 2 => Some "111"
  | 3 => Some "1011"
  | 4 => Some "10011"
  | 5 => Some "100101"
  | 6 => Some "1000011"
  | 7 => Some "10000011"
  | 8 => Some "100011011"
  | 9 => Some "1000010001"
  | 10 => Some "10000001001"
  | 11 => Some "100000000101"
  | _ => None
  end%string.


(** Bits, and a table entry as the spec describes it: the coefficients of a
    polynomial of degree [gamma], leading 1 first. *)
Definition is_bit (z : Z) : bool := (z =? 0) || (z =? 1).

Definition is_bit_char (c : ascii) : bool :=
  Ascii.eqb c "0" || Ascii.eqb c "1".

Definition entry_of_degree (gamma : Z) (b : option string) : bool :=
  match b with
  | Some s =>
      match list_ascii_of_string s with
      | c :: rest => Ascii.eqb c "1" && (len rest =? gamma) && forallb is_bit_char rest
      | [] => false
      end
  | None => false
  end.

(** The decoder as a length check would make it: no normal result for an
    argument whose length is not [d * gamma + 2 * gamma]. *)
Definition decoder_rejects_bad_length (dict : Z -> option string) : Prop :=
  forall (encoded_message : list Z) (message_length beta expected : Z),
    encoded_length beta message_length = Some expected ->
    len encoded_message <> expected ->
    forall result,
      amdc_decode_message dict encoded_message message_length beta tt
      <> Done result tt.

(** The digit that a character between "0" and "9" stands for *)
Definition digit (c : ascii) : Z := Z.of_N (N_of_ascii c) - 48.

(** ** A participant at work *)

Inductive bucket : Type :=
| in_all_node_ids
| in_parity_shared_keys
| in_parity_received_broadcast_values
| in_parity_finished
| in_veto_finished
| in_collision_detection_finished
| in_notification_finished
| in_fixed_message_finished
| in_message_finished.

Definition bucket_len (b : bucket) (p : ParticipantNode) : Z :=
  match b with
  | in_all_node_ids => len (all_node_ids p)
  | in_parity_shared_keys => len (parity_shared_keys p)
  | in_parity_received_broadcast_values => len (parity_received_broadcast_values p)
  | in_parity_finished => len (parity_finished p)
  | in_veto_finished => len (veto_finished p)
  | in_collision_detection_finished => len (collision_detection_finished p)
  | in_notification_finished => len (notification_finished p)
  | in_fixed_message_finished => len (fixed_message_finished p)
  | in_message_finished => len (message_finished p)
  end.

Inductive event : Type :=
| Sent (n : string) (data : message)
| Waited (element_list : bucket) (amount_of_elements : Z).

(** A running participant: the object, the random bits it has yet to draw,
    what it has sent since the network last delivered, and the record of its
    sends and completed waits. *)
Record Process : Type := Build_Process {
  self : ParticipantNode;
  tape : list bool;
  outbox : list (string * message);
  log : list event
}.

Definition on_self {A : Type} (m : M ParticipantNode A) : M Process A :=
  fun p =>
    match m (self p) with
    | Done a s => Done a (Build_Process s (tape p) (outbox p) (log p))
    | Raised e s => Raised e (Build_Process s (tape p) (outbox p) (log p))
    | Blocked s => Blocked (Build_Process s (tape p) (outbox p) (log p))
    | Starved s => Starved (Build_Process s (tape p) (outbox p) (log p))
    end.

Definition on_tape {A : Type} (m : M (list bool) A) : M Process A :=
  fun p =>
    match m (tape p) with
    | Done a t => Done a (Build_Process (self p) t (outbox p) (log p))
    | Raised e t => Raised e (Build_Process (self p) t (outbox p) (log p))
    | Blocked t => Blocked (Build_Process (self p) t (outbox p) (log p))
    | Starved t => Starved (Build_Process (self p) t (outbox p) (log p))
    end.

Definition the {A : Type} (f : ParticipantNode -> A) : M Process A :=
  fun p => Done (f (self p)) p.

Definition assign (f : ParticipantNode -> ParticipantNode) : M Process unit :=
  on_self (modify f).

(** *** Transport ([node.py]) *)

(** [send_to_node(n, data)]: sends when [n] is a connection of the node. *)
Definition send_to_node (n : string) (data : message) : M Process unit :=
  fun p =>
    if existsb (String.eqb n) (all_nodes (self p))
    then Done tt (Build_Process (self p) (tape p) (outbox p ++ [(n, data)])
                    (log p ++ [Sent n data]))
    else Done tt p.

Definition send_to_nodes (data : message) : M Process unit :=
  nodes <- the all_nodes ;;
  for_each nodes (fun n => send_to_node n data).

Definition send_to_node_by_id (receiver_id : string) (data : message) : M Process unit :=
  nodes <- the all_nodes ;;
  for_each nodes (fun n =>
    if String.eqb n receiver_id then send_to_node n data else ret tt).

(** [wait_while_receiving(element_list, amount_of_elements)]. The network has
    delivered whatever was sent before a participant reaches a wait, so a list
    of another length stays that way and the participant waits for ever. *)
Definition wait_while_receiving (element_list : bucket) (amount_of_elements : Z)
  : M Process unit :=
  fun p =>
    if bucket_len element_list (self p) =? amount_of_elements
    then Done tt (Build_Process (self p) (tape p) (outbox p)
                    (log p ++ [Waited element_list amount_of_elements]))
    else Blocked p.

(** ** The group in lock step

    All participants run the same protocol function. The model advances them
    together: every participant runs to its next wait, then the network delivers
    what has been sent, and the waits are tried. [each] is one such stretch
    of statements. Where a participant's own data decides how it goes on, the
    participants have to agree, or some of them wait for ever. *)

Definition Net : Type := list Process.

(** The stretches [bodies], one for each participant in turn. *)
Fixpoint run_each {A : Type} (bodies : list (M Process A)) : M Net (list A) :=
  fun net =>
    match bodies, net with
    | body :: bodies', p :: net' =>
        match body p with
        | Done a p' =>
            match run_each bodies' net' with
            | Done l net'' => Done (a :: l) (p' :: net'')
            | Raised e net'' => Raised e (p' :: net'')
            | Blocked net'' => Blocked (p' :: net'')
            | Starved net'' => Starved (p' :: net'')
            end
        | Raised e p' => Raised e (p' :: net')
        | Blocked p' => Blocked (p' :: net')
        | Starved p' => Starved (p' :: net')
        end
    | _, _ => Done [] net
    end.

(** The reader thread of the participant called [n] gets [data]. *)
Fixpoint deliver (n : string) (data : message) : M Net unit :=
  fun net =>
    match net with
    | [] => Done tt []
    | p :: net' =>
        match deliver n data net' with
        | Done _ net'' =>
            if String.eqb (node_id (self p)) n
            then match on_self (sort_incoming_messages data) p with
                 | Done _ p' => Done tt (p' :: net'')
                 | Raised e p' => Raised e (p' :: net'')
                 | Blocked p' => Blocked (p' :: net'')
                 | Starved p' => Starved (p' :: net'')
                 end
            else Done tt (p :: net'')
        | Raised e net'' => Raised e (p :: net'')
        | Blocked net'' => Blocked (p :: net'')
        | Starved net'' => Starved (p :: net'')
        end
    end.

Definition take_outbox (p : Process) : Process :=
  Build_Process (self p) (tape p) [] (log p).

Definition deliver_outboxes : M Net unit :=
  fun net =>
    for_each (flat_map outbox net) (fun m => deliver (fst m) (snd m))
      (map take_outbox net).

Definition each_of {A : Type} (bodies : list (M Process A)) : M Net (list A) :=
  l <- run_each bodies ;; deliver_outboxes ;; ret l.

(** Every participant runs [body]. *)
Definition each (body : M Process unit) : M Net unit :=
  net <- get ;; each_of (map (fun _ => body) net) ;; ret tt.

(** Every participant runs [body] and keeps its result in a local variable. *)
Definition each_local {A : Type} (body : M Process A) : M Net (list A) :=
  net <- get ;; each_of (map (fun _ => body) net).

(** Every participant runs [body] on its local variable. *)
Definition each_with {A : Type} (locals : list A) (body : A -> M Process unit)
  : M Net unit :=
  each_of (map body locals) ;; ret tt.

(** The value of [f] on which the participants agree. *)
Definition agree {A : Type} (eqb : A -> A -> bool) (f : ParticipantNode -> A) : M Net A :=
  fun net =>
    match net with
    | [] => Blocked net
    | p :: net' =>
        if forallb (fun q => eqb (f (self q)) (f (self p))) net'
        then Done (f (self p)) net
        else Blocked net
    end.

(** How a round of a loop ends: the loop goes on, or the function returns. *)
Inductive flow : Type := Next | Return.

Fixpoint for_until {S A : Type} (l : list A) (body : A -> M S flow) : M S flow :=
  match l with
  | [] => ret Next
  | x :: l' =>
      f <- body x ;;
      match f with
      | Return => ret Return
      | Next => for_until l' body
      end
  end.

(** ** Parity *)

(** The [while] loop of [create_bitstring]. Every round draws at least one bit,
    so a tape allows no more rounds than it has bits. *)
Fixpoint create_bitstring_loop (rounds : nat) (number_of_participants parity_input : Z)
    (bitstring : list Z) : M (list bool) (list Z) :=
  if negb (count 1 bitstring mod 2 =? parity_input)
  then match rounds with
       | O => fun t => Starved t
       | Datatypes.S rounds' =>
           bitstring' <- randbits_list number_of_participants ;;
           create_bitstring_loop rounds' number_of_participants parity_input bitstring'
       end
  else ret bitstring.

Definition draw_bitstring (number_of_participants parity_input : Z)
  : M (list bool) (list Z) :=
  bitstring <- randbits_list number_of_participants ;;
  t <- get ;;
  create_bitstring_loop (List.length t) number_of_participants parity_input bitstring.

Definition create_bitstring : M Process (list Z) :=
  nodes <- the all_nodes ;;
  input <- the parity_input ;;
  let number_of_participants := len nodes + 1 in
  on_tape (draw_bitstring number_of_participants input).

(** [for n in self.all_nodes: self.send_to_node(n, {"parity_shared_key": bitstring.pop(0)})] *)
Fixpoint send_key_bits (nodes : list string) (bitstring : list Z) : M Process unit :=
  match nodes with
  | [] => ret tt
  | n :: nodes' =>
      match bitstring with
      | [] => raise IndexError
      | b :: bitstring' =>
          send_to_node n (msg_parity_shared_key b) ;; send_key_bits nodes' bitstring'
      end
  end.

(** [distribute_key_bits], up to its wait *)
Definition distribute_key_bits_send : M Process unit :=
  bitstring <- create_bitstring ;;
  match bitstring with
  | [] => raise IndexError
  | b :: bitstring' =>
      keys <- the parity_shared_keys ;;
      assign (upd_parity_shared_keys (keys ++ [b])) ;;
      nodes <- the all_nodes ;;
      send_key_bits nodes bitstring'
  end.

(** [distribute_key_bits], its wait *)
Definition distribute_key_bits_wait : M Process unit :=
  nodes <- the all_nodes ;;
  wait_while_receiving in_parity_shared_keys (len nodes + 1).

Definition distribute_key_bits : M Net unit :=
  each distribute_key_bits_send ;;
  each distribute_key_bits_wait.

Definition calculate_parity_xor_key_result : M Process Z :=
  keys <- the parity_shared_keys ;;
  ret (bitwise_xor_reduce keys).

Definition calculate_parity_result : M Process unit :=
  values <- the parity_received_broadcast_values ;;
  assign (upd_parity_result (bitwise_xor_reduce values)).

Definition append_parity_received_broadcast_value (v : Z) : M Process unit :=
  values <- the parity_received_broadcast_values ;;
  assign (upd_parity_received_broadcast_values (values ++ [v])).

(** [send_parity_finished]: the broadcast, and then the wait and the reset *)
Definition send_parity_finished_send : M Process unit :=
  send_to_nodes (msg_parity_finished true).

Definition send_parity_finished_wait : M Process unit :=
  nodes <- the all_nodes ;;
  wait_while_receiving in_parity_finished (len nodes) ;;
  assign (upd_parity_finished []).

(** [calculate_and_broadcast_keys]. The participants that do not broadcast
    last send first; one that broadcasts last finds their values at its wait
    and sends then; the others find its value at theirs. *)
Definition calculate_and_broadcast_keys : M Net unit :=
  results <- each_local (
    parity_key_xor_result <- calculate_parity_xor_key_result ;;
    last <- the parity_broadcasts_last ;;
    (if last then ret tt
     else send_to_nodes (msg_parity_key_xor_result parity_key_xor_result)) ;;
    ret parity_key_xor_result) ;;
  each_with results (fun parity_key_xor_result =>
    last <- the parity_broadcasts_last ;;
    nodes <- the all_nodes ;;
    if last
    then wait_while_receiving in_parity_received_broadcast_values (len nodes) ;;
         send_to_nodes (msg_parity_key_xor_result parity_key_xor_result)
    else ret tt) ;;
  each_with results (fun parity_key_xor_result =>
    last <- the parity_broadcasts_last ;;
    nodes <- the all_nodes ;;
    (if last then ret tt
     else wait_while_receiving in_parity_received_broadcast_values (len nodes)) ;;
    append_parity_received_broadcast_value parity_key_xor_result).

Definition execute_parity : M Net unit :=
  distribute_key_bits ;;
  calculate_and_broadcast_keys ;;
  each (
    calculate_parity_result ;;
    assign (upd_parity_shared_keys []) ;;
    assign (upd_parity_received_broadcast_values []) ;;
    send_parity_finished_send) ;;
  each send_parity_finished_wait.

(** ** Veto *)

Definition set_parity_input_by_veto_input : M Process unit :=
  input <- the veto_input ;;
  if input =? 0
  then on_self (parity_input_setter 0)
  else bit <- on_tape randbits1 ;; on_self (parity_input_setter bit).

Definition send_veto_finished : M Net unit :=
  each (send_to_nodes (msg_veto_finished true)) ;;
  each (
    nodes <- the all_nodes ;;
    wait_while_receiving in_veto_finished (len nodes) ;;
    assign (upd_veto_finished [])).

(** The loops of [execute_veto] and [execute_notification_parity] run over the
    participant's own [all_node_ids]; round [k] of the group takes entry [k]
    of each list. *)
Definition entry (k : nat) (ids : list string) : string := nth k ids ""%string.

Definition rounds_of_all_node_ids : M Net (list nat) :=
  n <- agree Nat.eqb (fun p => List.length (all_node_ids p)) ;;
  ret (seq 0 n).

(** One round of the inner loop of [execute_veto] *)
Definition veto_parity_round : M Net flow :=
  each set_parity_input_by_veto_input ;;
  execute_parity ;;
  each (
    result <- the parity_result ;;
    assign (upd_veto_result result)) ;;
  stop <- agree Bool.eqb (fun p => veto_result p =? 1) ;;
  if stop
  then
    each (assign (upd_parity_broadcasts_last false)) ;;
    send_veto_finished ;;
    ret Return
  else ret Next.

(** One round of the outer loop, for entry [k] of [all_node_ids] *)
Definition veto_rounds_for (veto_security : Z) (k : nat) : M Net flow :=
  each (
    ids <- the all_node_ids ;;
    id <- the node_id ;;
    let last_broadcaster := entry k ids in
    if String.eqb last_broadcaster id
    then assign (upd_parity_broadcasts_last true)
    else ret tt) ;;
  f <- for_until (range 1 (veto_security + 1)) (fun i => veto_parity_round) ;;
  match f with
  | Return => ret Return
  | Next => each (assign (upd_parity_broadcasts_last false)) ;; ret Next
  end.

Definition execute_veto (veto_security : Z) : M Net unit :=
  rounds <- rounds_of_all_node_ids ;;
  f <- for_until rounds (veto_rounds_for veto_security) ;;
  match f with
  | Return => ret tt
  | Next => send_veto_finished
  end.

(** ** Notification *)

Definition set_notification_parity_by_notification_input (p : string) : M Process unit :=
  input <- the notification_input ;;
  if String.eqb p input
  then bit <- on_tape randbits1 ;; on_self (parity_input_setter bit)
  else on_self (parity_input_setter 0).

Definition set_notification_result_by_parity_result : M Process unit :=
  notification <- the notification_result ;;
  parity <- the parity_result ;;
  assign (upd_notification_result (Z.lor notification parity)).

(** One round of [execute_notification_parity], with entry [k] of
    [all_node_ids] as the spectator *)
Definition notification_parity_round (k : nat) : M Net unit :=
  each (
    ids <- the all_node_ids ;;
    set_notification_parity_by_notification_input (entry k ids)) ;;
  distribute_key_bits ;;
  results <- each_local (
    ids <- the all_node_ids ;;
    id <- the node_id ;;
    let p := entry k ids in
    parity_key_xor_result <- calculate_parity_xor_key_result ;;
    (if String.eqb p id then ret tt
     else send_to_node_by_id p (msg_parity_key_xor_result parity_key_xor_result)) ;;
    ret parity_key_xor_result) ;;
  each_with results (fun parity_key_xor_result =>
    ids <- the all_node_ids ;;
    id <- the node_id ;;
    nodes <- the all_nodes ;;
    let p := entry k ids in
    (if String.eqb p id
     then
       wait_while_receiving in_parity_received_broadcast_values (len nodes) ;;
       append_parity_received_broadcast_value parity_key_xor_result ;;
       calculate_parity_result ;;
       set_notification_result_by_parity_result
     else ret tt) ;;
    assign (upd_parity_shared_keys []) ;;
    assign (upd_parity_received_broadcast_values []) ;;
    on_self (parity_input_setter 0) ;;
    send_parity_finished_send) ;;
  each (
    send_parity_finished_wait ;;
    assign (upd_parity_finished [])).

Definition execute_notification_parity (notification_security : Z) : M Net unit :=
  rounds <- rounds_of_all_node_ids ;;
  for_each rounds (fun k =>
    for_each (range 1 (notification_security + 1)) (fun parity_round =>
      notification_parity_round k)).

Definition send_notification_finished : M Net unit :=
  each (send_to_nodes (msg_notification_finished true)) ;;
  each (
    nodes <- the all_nodes ;;
    wait_while_receiving in_notification_finished (len nodes) ;;
    assign (upd_notification_finished [])).

Definition execute_notification (notification_security : Z) : M Net unit :=
  execute_notification_parity notification_security ;;
  send_notification_finished.

(** ** Collision detection *)

Definition send_collision_detection_finished : M Net unit :=
  each (send_to_nodes (msg_collision_detection_finished true)) ;;
  each (
    nodes <- the all_nodes ;;
    wait_while_receiving in_collision_detection_finished (len nodes) ;;
    assign (upd_collision_detection_finished [])).

(** The start of [execute_collision_detection]: the inputs of round A *)
Definition set_inputs_for_round_a : M Process unit :=
  sender <- the is_message_sender ;;
  (if sender
   then on_self (collision_detection_input_setter 1)
   else on_self (collision_detection_input_setter 0)) ;;
  input <- the collision_detection_input ;;
  on_self (veto_input_setter input).

(** Between the rounds: the input of round B *)
Definition set_veto_input_for_round_b : M Process unit :=
  veto <- the veto_input ;;
  parity <- the parity_input ;;
  if (veto =? 1) && (parity =? 0)
  then on_self (veto_input_setter 1)
  else on_self (veto_input_setter 0).

Definition execute_collision_detection (collision_detection_security : Z) : M Net unit :=
  each set_inputs_for_round_a ;;
  execute_veto collision_detection_security ;;
  nobody <- agree Bool.eqb (fun p => veto_result p =? 0) ;;
  if nobody
  then each (assign (upd_collision_detection_result 0))
  else
    each set_veto_input_for_round_b ;;
    execute_veto collision_detection_security ;;
    each (
      result <- the veto_result ;;
      if result =? 0
      then assign (upd_collision_detection_result 1)
      else assign (upd_collision_detection_result 2)) ;;
    send_collision_detection_finished.

(** ** Fixed role message transmission *)

(** [str(i)] *)
Definition str_of_int (i : Z) : string := NilZero.string_of_int (Z.to_int i).

(** [int(s, 2)] for the digits a chunk can hold, [None] for a [ValueError]. *)
Fixpoint int_base2 (acc : Z) (s : list ascii) : option Z :=
  match s with
  | [] => Some acc
  | c :: s' =>
      if Ascii.eqb c "0" then int_base2 (2 * acc) s'
      else if Ascii.eqb c "1" then int_base2 (2 * acc + 1) s'
      else None
  end.

(** [[s[i:i + 8] for i in range(0, len(s), 8)]] *)
Fixpoint chunks_of_8 (rounds : nat) (s : list ascii) : list (list ascii) :=
  match rounds, s with
  | Datatypes.S rounds', _ :: _ => firstn 8 s :: chunks_of_8 rounds' (skipn 8 s)
  | _, _ => []
  end.

(** [received_message_to_string]. A chunk with a sign or a digit above 1 makes
    [int] or [chr] raise [ValueError]; a chunk of binary digits is below 256. *)
Definition received_message_to_string : M Process unit :=
  decoded <- the message_amdc_decoded_received_message ;;
  let list_to_str := flat_map (fun i => list_ascii_of_string (str_of_int i)) decoded in
  chars <- map_m (fun chunk =>
             match chunk with
             | [] => raise ValueError
             | _ =>
                 match int_base2 0 chunk with
                 | Some v => ret (ascii_of_N (Z.to_N v))
                 | None => raise ValueError
                 end
             end)
             (chunks_of_8 (List.length list_to_str) list_to_str) ;;
  assign (upd_message_received_str (string_of_list_ascii chars)).

Definition create_one_time_pad (bit_count : Z) : M Process unit :=
  receiver <- the is_message_receiver ;;
  if receiver
  then pad <- on_tape (randbits_list bit_count) ;; assign (upd_one_time_pad pad)
  else ret tt.

(** [l[i]] for [i >= 0] *)
Definition item {S : Type} (l : list Z) (i : Z) : M S Z :=
  match nth_error l (Z.to_nat i) with
  | Some v => ret v
  | None => raise IndexError
  end.

Definition set_parity_input_by_message_role (round_of_protocol : Z) : M Process unit :=
  sender <- the is_message_sender ;;
  receiver <- the is_message_receiver ;;
  if sender
  then
    encoded <- the message_amdc_encoded_input ;;
    bit <- item encoded round_of_protocol ;;
    on_self (parity_input_setter bit)
  else if receiver
  then
    pad <- the one_time_pad ;;
    bit <- item pad round_of_protocol ;;
    on_self (parity_input_setter bit)
  else ret tt.

Definition add_to_received_message (round_of_protocol : Z) : M Process unit :=
  receiver <- the is_message_receiver ;;
  received <- the message_amdc_encoded_received_message ;;
  result <- the parity_result ;;
  if receiver
  then
    pad <- the one_time_pad ;;
    key <- item pad round_of_protocol ;;
    assign (upd_message_amdc_encoded_received_message (received ++ [Z.lxor result key]))
  else
    assign (upd_message_amdc_encoded_received_message (received ++ [result])).

Definition send_fixed_message_finished : M Net unit :=
  each (send_to_nodes (msg_fixed_message_finished true)) ;;
  each (
    nodes <- the all_nodes ;;
    wait_while_receiving in_fixed_message_finished (len nodes) ;;
    assign (upd_fixed_message_finished [])).

Definition send_message_finished : M Net unit :=
  each (send_to_nodes (msg_message_finished true)) ;;
  each (
    nodes <- the all_nodes ;;
    wait_while_receiving in_message_finished (len nodes) ;;
    assign (upd_message_finished [])).

(** [self.all_node_ids.sort()] *)
Fixpoint insert_sorted (s : string) (l : list string) : list string :=
  match l with
  | [] => [s]
  | x :: l' => if String.leb s x then s :: l else x :: insert_sorted s l'
  end.

Definition sort (l : list string) : list string := fold_right insert_sorted [] l.

Definition create_order_in_all_node_ids : M Net unit :=
  each (
    id <- the node_id ;;
    send_to_nodes (msg_node_id id)) ;;
  each (
    nodes <- the all_nodes ;;
    wait_while_receiving in_all_node_ids (len nodes) ;;
    id <- the node_id ;;
    ids <- the all_node_ids ;;
    if existsb (String.eqb id) ids
    then raise NameError
    else assign (upd_all_node_ids (sort (ids ++ [id])))).

Section Transmission.

Variable irreducible_binary_polynomial_dict : Z -> option string.

(** The start of [execute_fixed_role_message_transmission]: the pad of the
    receiver, the code word of the sender and the check of its length *)
Definition prepare_roles (security bit_count : Z) : M Process unit :=
  receiver <- the is_message_receiver ;;
  sender <- the is_message_sender ;;
  (if receiver then create_one_time_pad bit_count else ret tt) ;;
  if sender
  then
    input <- the message_input ;;
    encoded <- on_tape (amdc_encode_message irreducible_binary_polynomial_dict
                          input security) ;;
    assign (upd_message_amdc_encoded_input encoded) ;;
    expected <- the encoded_message_length ;;
    if negb (len encoded =? expected) then raise ValueError else ret tt
  else ret tt.

(** After the parity rounds: the receiver checks the tag *)
Definition check_received_message (security : Z) : M Process unit :=
  receiver <- the is_message_receiver ;;
  received <- the message_amdc_encoded_received_message ;;
  if receiver
  then
    length <- the message_length ;;
    r <- amdc_decode_message irreducible_binary_polynomial_dict received
           length security ;;
    let '(message_correct, decoded) := r in
    assign (upd_message_amdc_decoded_received_message decoded) ;;
    if negb message_correct
    then on_self (veto_input_setter 1)
    else on_self (veto_input_setter 0)
  else
    on_self (veto_input_setter 0) ;;
    assign (upd_message_amdc_decoded_received_message received).

Definition execute_fixed_role_message_transmission (security bit_count : Z)
  : M Net unit :=
  each (prepare_roles security bit_count) ;;
  for_each (range 0 bit_count) (fun round_of_protocol =>
    each (set_parity_input_by_message_role round_of_protocol) ;;
    execute_parity ;;
    each (add_to_received_message round_of_protocol)) ;;
  each (check_received_message security) ;;
  execute_veto security ;;
  each received_message_to_string ;;
  send_fixed_message_finished.

(** ** Message transmission *)

Definition execute_message_transmission (security : Z) : M Net unit :=
  create_order_in_all_node_ids ;;
  each (
    input <- the notification_input ;;
    if negb (String.eqb input "")
    then assign (upd_is_message_sender true)
    else ret tt) ;;
  execute_collision_detection security ;;
  result <- agree Z.eqb collision_detection_result ;;
  if result =? 0 then ret tt
  else if result =? 2 then each (assign (upd_collision_detection_result 0))
  else
    execute_notification security ;;
    each (
      result <- the notification_result ;;
      if result =? 1 then assign (upd_is_message_receiver true) else ret tt) ;;
    bit_count <- agree Z.eqb encoded_message_length ;;
    execute_fixed_role_message_transmission security bit_count ;;
    send_message_finished.

End Transmission.

(** ** Groups to run *)

(** A participant after [__init__], connected to [peers], with its tape. *)
Definition participant (id : string) (peers : list string) (t : list bool) : Process :=
  match init (blank id) with
  | Done _ p | Raised _ p | Blocked p | Starved p =>
      Build_Process (upd_all_nodes peers p) t [] []
  end.

(** Tapes for the runs below: the bits of a linear congruential generator,
    seeded by the identifier of the participant. *)
Fixpoint generator (n : nat) (x : Z) : list bool :=
  match n with
  | O => []
  | Datatypes.S n' =>
      let x' := (x * 1103515245 + 12345) mod 2147483648 in
      Z.testbit x' 16 :: generator n' x'
  end.

Definition seed (id : string) : Z :=
  fold_left (fun acc c => 131 * acc + Z.of_N (N_of_ascii c)) (list_ascii_of_string id) 7.

(** The participants [ids], each connected to all the others. *)
Definition group (bits : nat) (ids : list string) : Net :=
  map (fun id =>
         participant id (filter (fun n => negb (String.eqb n id)) ids)
           (generator bits (seed id)))
      ids.

Definition with_self (f : ParticipantNode -> ParticipantNode) (p : Process) : Process :=
  Build_Process (f (self p)) (tape p) (outbox p) (log p).


(** ** What a stretch does, leaving the log aside *)

(** The participant after its reader thread has handled [data]. *)
Definition receive (data : message) (p : ParticipantNode) : ParticipantNode :=
  match sort_incoming_messages data p with
  | Done _ p' | Raised _ p' | Blocked p' | Starved p' => p'
  end.

Definition known (data : message) : bool :=
  match data with
  | msg_other _ => false
  | _ => true
  end.

(** The participant called [id] after the network has delivered [msgs]. *)
Definition receive_all (id : string) (msgs : list (string * message))
    (p : ParticipantNode) : ParticipantNode :=
  fold_left (fun p m => if String.eqb id (fst m) then receive (snd m) p else p) msgs p.

Definition looks (s : ParticipantNode) (t : list bool) (o : list (string * message))
    (q : Process) : Prop :=
  self q = s /\ tape q = t /\ outbox q = o.

(** [m] run by [q] returns [a] and leaves the object [s], the tape [t] and
    the messages [o] to deliver. *)
Definition yields {A : Type} (m : M Process A) (q : Process) (a : A)
    (s : ParticipantNode) (t : list bool) (o : list (string * message)) : Prop :=
  exists q', m q = Done a q' /\ looks s t o q'.

(** The messages that the network hands to the participant called [id]. *)
Definition inbox (id : string) (msgs : list (string * message)) : list message :=
  map snd (filter (fun m => String.eqb id (fst m)) msgs).

Definition int_payload (data : message) : Z :=
  match data with
  | msg_parity_shared_key v | msg_parity_key_xor_result v => v
  | _ => 0
  end.

Definition flag_payload (data : message) : bool :=
  match data with
  | msg_parity_finished v | msg_veto_finished v | msg_collision_detection_finished v
  | msg_notification_finished v | msg_fixed_message_finished v
  | msg_message_finished v => v
  | _ => false
  end.

(** The identifiers of a group, and a group in which every participant is
    connected to every other one and to nobody else. *)
Definition ids (net : Net) : list string := map (fun p => node_id (self p)) net.

Definition connected (net : Net) : Prop :=
  NoDup (ids net)
  /\ forall p, In p net ->
       Permutation (all_nodes (self p))
         (filter (fun n => negb (String.eqb n (node_id (self p)))) (ids net)).

(** [m], run from the object [s], the tape [t] and the unsent messages [o],
    whatever the log so far, returns [a] and leaves [s'], [t'] and [o']. *)
Definition runs {A : Type} (m : M Process A)
    (s : ParticipantNode) (t : list bool) (o : list (string * message)) (a : A)
    (s' : ParticipantNode) (t' : list bool) (o' : list (string * message)) : Prop :=
  forall l, exists l', m (Build_Process s t o l) = Done a (Build_Process s' t' o' l').

(** ** The course of a parity round *)

(** The share vector that [create_bitstring] settles on, and the tape left. *)
Definition drawn (p : Process) : list Z * list bool :=
  match draw_bitstring (len (all_nodes (self p)) + 1) (parity_input (self p)) (tape p) with
  | Done bitstring t => (bitstring, t)
  | Raised _ t | Blocked t | Starved t => ([], t)
  end.

Definition draws (p : Process) : bool :=
  match draw_bitstring (len (all_nodes (self p)) + 1) (parity_input (self p)) (tape p) with
  | Done _ _ => true
  | _ => false
  end.

Definition shares (p : Process) : list Z := fst (drawn p).

Definition key_messages (p : Process) : list (string * message) :=
  combine (all_nodes (self p)) (map msg_parity_shared_key (tl (shares p))).

(** [parity_shared_keys] when all shares have arrived *)
Definition keys_of (net : Net) (p : Process) : list Z :=
  hd 0 (shares p)
    :: map int_payload (inbox (node_id (self p)) (flat_map key_messages net)).

Definition xor_key_result (net : Net) (p : Process) : Z :=
  bitwise_xor_reduce (keys_of net p).

Definition to_all (p : Process) (data : message) : list (string * message) :=
  map (fun n => (n, data)) (all_nodes (self p)).

Definition early_broadcasts (net : Net) : list (string * message) :=
  flat_map (fun q => if parity_broadcasts_last (self q) then []
                     else to_all q (msg_parity_key_xor_result (xor_key_result net q)))
    net.

Definition late_broadcasts (net : Net) : list (string * message) :=
  flat_map (fun q => if parity_broadcasts_last (self q)
                     then to_all q (msg_parity_key_xor_result (xor_key_result net q))
                     else [])
    net.

(** [parity_received_broadcast_values] when all results have arrived *)
Definition received_of (net : Net) (p : Process) : list Z :=
  map int_payload (inbox (node_id (self p)) (early_broadcasts net))
    ++ map int_payload (inbox (node_id (self p)) (late_broadcasts net)).

(** The xor of the inputs of the group *)
Definition parity_of (net : Net) : Z :=
  bitwise_xor_reduce (map (fun p => parity_input (self p)) net).

(** No two participants broadcast last. *)
Definition one_broadcasts_last (net : Net) : Prop :=
  forall p q, In p net -> In q net ->
    parity_broadcasts_last (self p) = true ->
    parity_broadcasts_last (self q) = true ->
    node_id (self p) = node_id (self q).

(** Between two rounds the mailboxes of the parity protocol are empty. *)
Definition quiet (p : ParticipantNode) : Prop :=
  parity_shared_keys p = [] /\ parity_received_broadcast_values p = []
  /\ parity_finished p = [].

(** [connected], decided. *)
Definition same_members (l1 l2 : list string) : bool :=
  forallb (fun n => Nat.eqb (count_occ string_dec l1 n) (count_occ string_dec l2 n))
    (l1 ++ l2).

Fixpoint distinct (l : list string) : bool :=
  match l with
  | [] => true
  | n :: l' => negb (existsb (String.eqb n) l') && distinct l'
  end.

Definition connectedb (net : Net) : bool :=
  distinct (ids net)
  && forallb (fun p =>
                same_members (all_nodes (self p))
                  (filter (fun n => negb (String.eqb n (node_id (self p)))) (ids net)))
       net.

(** A participant between two parity rounds: nothing in the mailboxes of the
    parity protocol, nothing to deliver. *)
Definition idle (p : Process) : Prop := quiet (self p) /\ outbox p = [].

(** A group of three with the inputs 1, 0 and 1. *)
Definition parity_example : Net :=
  map (fun p => with_self
                  (upd_parity_input
                     (if String.eqb (node_id (self p)) "2" then 0 else 1)) p)
    (group 100 ["1"; "2"; "3"]%string).


(** ** The course of a veto *)

(** A tape lasts for [k] draws of share vectors for the input [input]. *)
Fixpoint lasts (k : nat) (number_of_participants input : Z) (t : list bool) : bool :=
  match k with
  | O => true
  | Datatypes.S k' =>
      match draw_bitstring number_of_participants input t with
      | Done _ t' => lasts k' number_of_participants input t'
      | _ => false
      end
  end.

(** A group, not empty, whose participants all satisfy [P], with nothing to
    deliver *)
Definition in_state (P : ParticipantNode -> list bool -> Prop) (net : Net) : Prop :=
  net <> [] /\ connected net
  /\ forall q, In q net -> P (self q) (tape q) /\ outbox q = [].

(** A participant that does not veto, between two rounds: its tape lasts for
    [k] more rounds; if it broadcasts last, it is [last]; [zero] says that its
    [veto_result] is known to be 0. *)
Definition not_vetoing (ids0 : list string) (k : nat) (last : option string) (zero : bool)
    (s : ParticipantNode) (t : list bool) : Prop :=
  quiet s /\ veto_input s = 0 /\ veto_finished s = [] /\ all_node_ids s = ids0
  /\ lasts k (len (all_nodes s) + 1) 0 t = true
  /\ (parity_broadcasts_last s = true -> last = Some (node_id s))
  /\ (zero = true -> veto_result s = 0).

Definition nonempty {A : Type} (l : list A) : bool :=
  match l with
  | [] => false
  | _ => true
  end.

(** Scenario S1: two participants, "1" and "2", their order settled, neither
    of them vetoes. *)
Definition veto_example : Net :=
  map (with_self (upd_all_node_ids ["1"; "2"]%string)) (group 200 ["1"; "2"]%string).

(** ** The course of a notification *)

(** What the participants other than the spectator [e] send to it *)
Definition whispers (e : string) (net : Net) : list (string * message) :=
  flat_map (fun q =>
              if String.eqb e (node_id (self q)) then []
              else map (fun n => (n, msg_parity_key_xor_result (xor_key_result net q)))
                     (filter (fun n => String.eqb n e) (all_nodes (self q))))
    net.

Definition heard (e : string) (net : Net) (p : Process) : list Z :=
  map int_payload (inbox (node_id (self p)) (whispers e net)).

(** The input that [set_notification_parity_by_notification_input] chooses for
    the spectator [e], and the tape left *)
Definition chosen (e : string) (s : ParticipantNode) (t : list bool) : Z * list bool :=
  if String.eqb e (notification_input s)
  then match randbits1 t with
       | Done bit t' => (bit, t')
       | Raised _ t' | Blocked t' | Starved t' => (0, t')
       end
  else (0, t).

(** A tape lasts for the rounds with the spectators [spectators] of a
    participant whose [notification_input] is [input]. *)
Fixpoint lasts_notification (spectators : list string) (input : string)
    (number_of_participants : Z) (t : list bool) : bool :=
  match spectators with
  | [] => true
  | e :: rest =>
      if String.eqb e input
      then match randbits1 t with
           | Done bit t1 =>
               match draw_bitstring number_of_participants bit t1 with
               | Done _ t2 => lasts_notification rest input number_of_participants t2
               | _ => false
               end
           | _ => false
           end
      else match draw_bitstring number_of_participants 0 t with
           | Done _ t2 => lasts_notification rest input number_of_participants t2
           | _ => false
           end
  end.

(** A participant between two rounds of a notification in which [target] is
    the only identifier that anybody wants to notify: its tape lasts for the
    rounds to come, and unless it is the target it has not been notified. *)
Definition notifying (ids0 : list string) (target : string) (spectators : list string)
    (s : ParticipantNode) (t : list bool) : Prop :=
  quiet s /\ all_node_ids s = ids0 /\ notification_finished s = []
  /\ parity_broadcasts_last s = false
  /\ (notification_input s = ""%string \/ notification_input s = target)
  /\ (node_id s <> target -> notification_result s = 0)
  /\ lasts_notification spectators (notification_input s)
       (len (all_nodes s) + 1) t = true.

(** The spectators of the rounds of [execute_notification_parity] *)
Definition spectators_of (ids0 : list string) (notification_security : Z) : list string :=
  flat_map (fun k => map (fun _ => entry k ids0) (range 1 (notification_security + 1)))
    (seq 0 (List.length ids0)).

(** The same participant once it has chosen its input for the round with the
    spectator [e] *)
Definition notifying_chosen (ids0 : list string) (target e : string)
    (spectators : list string) (s : ParticipantNode) (t : list bool) : Prop :=
  quiet s /\ all_node_ids s = ids0 /\ notification_finished s = []
  /\ parity_broadcasts_last s = false
  /\ (notification_input s = ""%string \/ notification_input s = target)
  /\ (node_id s <> target -> notification_result s = 0)
  /\ (e <> target -> parity_input s = 0)
  /\ match draw_bitstring (len (all_nodes s) + 1) (parity_input s) t with
     | Done _ t' =>
         lasts_notification spectators (notification_input s)
           (len (all_nodes s) + 1) t' = true
     | _ => False
     end.

(** The participant after the round in which the results xor to [R] *)
Definition notified (e : string) (R : Z) (s : ParticipantNode) : ParticipantNode :=
  if String.eqb e (node_id s)
  then upd_parity_input 0
         (upd_notification_result (Z.lor (notification_result s) R)
            (upd_parity_result R s))
  else upd_parity_input 0 s.

(** A group of three in which "1" notifies "2". *)
Definition notification_example : Net :=
  map (with_self (fun s =>
                    upd_notification_input
                      (if String.eqb (node_id s) "1" then "2" else EmptyString)
                      (upd_all_node_ids ["1"; "2"; "3"]%string s)))
    (group 400 ["1"; "2"; "3"]%string).

(** ** Collision detection, up to round B *)

(** The statements of [execute_collision_detection] from its first one to the
    one that sets the input of round B, on the path on which round A does not
    return 0. *)
Definition collision_detection_until_round_b (collision_detection_security : Z)
  : M Net unit :=
  each set_inputs_for_round_a ;;
  execute_veto collision_detection_security ;;
  each set_veto_input_for_round_b.

(** The reading of round B in which a participant raises its veto exactly when
    it did not veto in round A. *)
Definition round_b_veto_iff_silent_in_round_a : Prop :=
  forall (collision_detection_security : Z) (net net' : Net),
    collision_detection_until_round_b collision_detection_security net = Done tt net' ->
    forall q, In q net' ->
      veto_result (self q) = 1 ->
      (veto_input (self q) = 1 <-> collision_detection_input (self q) = 0).

(** A group of three in which "1" and "3" want to send. *)
Definition collision_example : Net :=
  map (with_self (fun s =>
                    upd_is_message_sender (negb (String.eqb (node_id s) "2"))
                      (upd_all_node_ids ["1"; "2"; "3"]%string s)))
    (group 400 ["1"; "2"; "3"]%string).

(** ** What a function leaves as it is *)

(** The state an outcome leaves. *)
Definition state_of {S A : Type} (o : outcome S A) : S :=
  match o with
  | Done _ s | Raised _ s | Blocked s | Starved s => s
  end.

(** [m] leaves [view] of the state as it is, however it ends. *)
Definition keeps {S A B : Type} (view : S -> B) (m : M S A) : Prop :=
  forall s, view (state_of (m s)) = view s.

Definition of_self {B : Type} (view : ParticipantNode -> B) (p : Process) : B :=
  view (self p).

Definition of_all {B : Type} (view : ParticipantNode -> B) (net : Net) : list B :=
  map (of_self view) net.

(** The inputs of a participant to the rounds of collision detection *)
Definition round_inputs (s : ParticipantNode) : Z * Z :=
  (veto_input s, collision_detection_input s).

(** ** Runs of the message transmission *)

(** [p] once its user has set the receiver and the message. *)
Definition setup_sender (target msg : string) (p : Process) : Process :=
  match (notification_input_setter target ;; message_input_setter msg) (self p) with
  | Done _ s | Raised _ s | Blocked s | Starved s => with_self (fun _ => s) p
  end.

(** The participants [ids] after [__init__], with the users of [senders]
    sending [msg] to [target]. *)
Definition sending_group (bits : nat) (ids senders : list string) (target msg : string)
  : Net :=
  map (fun p => if existsb (String.eqb (node_id (self p))) senders
                then setup_sender target msg p
                else p)
    (group bits ids).

(** A group of three in which "1" sends "Hello 2!" to "2". *)
Definition transmission_example : Net :=
  sending_group 1500 ["1"; "2"; "3"]%string ["1"]%string "2" "Hello 2!".

(** The sender of that group once [execute_message_transmission] has made it
    the sender. *)
Definition sender_example : Process :=
  with_self (upd_is_message_sender true)
    (setup_sender "2" "Hello 2!"
       (participant "1" ["2"; "3"]%string (generator 100 (seed "1")))).

(** The same group with "3" sending as well. *)
Definition colliding_example : Net :=
  sending_group 400 ["1"; "2"; "3"]%string ["1"; "3"]%string "2" "Hello 2!".

(** The same group with nobody sending. *)
Definition silent_example : Net :=
  sending_group 400 ["1"; "2"; "3"]%string [] "2" "Hello 2!".

(** What the log of a participant records *)
Definition sends (kind : message -> bool) (l : list event) : bool :=
  existsb (fun e => match e with
                    | Sent _ data => kind data
                    | Waited _ _ => false
                    end) l.

Definition waits_for (which : bucket -> bool) (l : list event) : bool :=
  existsb (fun e => match e with
                    | Sent _ _ => false
                    | Waited element_list _ => which element_list
                    end) l.

Definition is_veto_finished (data : message) : bool :=
  match data with msg_veto_finished _ => true | _ => false end.

Definition is_collision_detection_finished (data : message) : bool :=
  match data with msg_collision_detection_finished _ => true | _ => false end.

Definition is_message_finished (data : message) : bool :=
  match data with msg_message_finished _ => true | _ => false end.

Definition for_veto_finished (b : bucket) : bool :=
  match b with in_veto_finished => true | _ => false end.

Definition for_collision_detection_finished (b : bucket) : bool :=
  match b with in_collision_detection_finished => true | _ => false end.

Definition for_message_finished (b : bucket) : bool :=
  match b with in_message_finished => true | _ => false end.

(** A participant has passed the barrier of a protocol: it has sent the
    message and completed the wait. *)
Definition passed (kind : message -> bool) (which : bucket -> bool) (p : Process) : bool :=
  sends kind (log p) && waits_for which (log p).

(** A participant has taken no part in the barrier. *)
Definition skipped (kind : message -> bool) (which : bucket -> bool) (p : Process) : bool :=
  negb (sends kind (log p)) && negb (waits_for which (log p)).

(** The reading in which the length passed to the fixed role transmission is
    the encoded length for the security parameter, whatever that is: the
    sender's check of the length never fails. *)
Definition sender_check_succeeds_for_every_security
    (irreducible_binary_polynomial_dict : Z -> option string) : Prop :=
  forall (security : Z) (bits : nat) (ids senders : list string) (target msg : string)
         (net' : Net),
    1 <= security ->
    execute_message_transmission irreducible_binary_polynomial_dict security
      (sending_group bits ids senders target msg)
    <> Raised ValueError net'.

(** ** Further notions for the properties of the code *)

From Stdlib Require Sorting.Sorted.
From Stdlib Require OrderedTypeEx.

(** *** Bits and characters *)

(** The character that [str] makes of a bit. *)
Definition bit_char (i : Z) : ascii := if i =? 0 then "0"%char else "1"%char.

(** [int(chunk, 2)] for a chunk of binary digits. *)
Definition chunk_value (chunk : list ascii) : Z :=
  match int_base2 0 chunk with
  | Some v => v
  | None => 0
  end.

(** The characters that [received_message_to_string] reads from a list of
    bits: one for every eight bits, and one for what is left. *)
Definition chars_of_bits (l : list Z) : list ascii :=
  map (fun chunk => ascii_of_N (Z.to_N (chunk_value chunk)))
    (chunks_of_8 (List.length l) (map bit_char l)).

(** A sender whose user has typed a message. *)
Definition typing_example : ParticipantNode :=
  match init (blank "1") with
  | Done _ p | Raised _ p | Blocked p | Starved p => p
  end.

(** A participant that has decoded the bits of "Hi". *)
Definition reading_example : Process :=
  with_self (upd_message_amdc_decoded_received_message
               (flat_map format_08b (list_ascii_of_string "Hi")))
    (participant "2" ["1"]%string []).

(** *** Mailboxes *)

(** The list to which [sort_incoming_messages] appends the value of a
    message. *)
Definition bucket_of (data : message) : option bucket :=
  match data with
  | msg_node_id _ => Some in_all_node_ids
  | msg_parity_shared_key _ => Some in_parity_shared_keys
  | msg_parity_key_xor_result _ => Some in_parity_received_broadcast_values
  | msg_parity_finished _ => Some in_parity_finished
  | msg_veto_finished _ => Some in_veto_finished
  | msg_collision_detection_finished _ => Some in_collision_detection_finished
  | msg_notification_finished _ => Some in_notification_finished
  | msg_fixed_message_finished _ => Some in_fixed_message_finished
  | msg_message_finished _ => Some in_message_finished
  | msg_other _ => None
  end.

(** A participant of three with a tape, and what [create_bitstring] makes of
    its first bits. *)
Definition sharing_example : Process :=
  participant "1" ["2"; "3"]%string [true; false; true; false; true; true].

(** *** What the protocols leave alone *)

(** The attributes that the parity and veto protocols have no business
    with. *)
Definition beyond_veto (s : ParticipantNode) :=
  (node_id s, all_nodes s, veto_input s, collision_detection_input s,
   collision_detection_result s, notification_input s, notification_result s,
   message_input s, is_message_sender s, is_message_receiver s, one_time_pad s,
   message_amdc_encoded_input s, message_amdc_encoded_received_message s,
   message_amdc_decoded_received_message s, message_received_str s,
   message_length s, encoded_message_length s).

(** What the user of a participant has set, and its connections. *)
Definition user_inputs (s : ParticipantNode) :=
  (node_id s, all_nodes s, notification_input s, message_input s,
   message_length s, encoded_message_length s).

(** The group of [parity_example] with "2" broadcasting last. *)
Definition last_example : Net :=
  map (with_self (fun s => upd_parity_broadcasts_last (String.eqb (node_id s) "2") s))
    parity_example.

(** *** The order of the identifiers *)

Definition id_payload (data : message) : string :=
  match data with
  | msg_node_id v => v
  | _ => EmptyString
  end.

(** The identifiers that reach a participant: those of the others. *)
Definition other_ids (net : Net) (p : Process) : list string :=
  ids (filter (fun q => negb (String.eqb (node_id (self q)) (node_id (self p)))) net).

(** *** A group in which nobody sends *)

(** A participant that does not want to send, before the collision detection:
    its tape lasts for the [k] parity rounds of a veto. *)
Definition silent (ids0 : list string) (k : nat) (zero : bool)
    (s : ParticipantNode) (t : list bool) : Prop :=
  quiet s /\ veto_finished s = [] /\ all_node_ids s = ids0
  /\ parity_broadcasts_last s = false /\ is_message_sender s = false
  /\ lasts k (len (all_nodes s) + 1) 0 t = true
  /\ (zero = true -> veto_result s = 0).

(** The same participant after the collision detection. *)
Definition found_silent (ids0 : list string) (s : ParticipantNode) (t : list bool)
  : Prop :=
  quiet s /\ all_node_ids s = ids0
  /\ collision_detection_result s = 0 /\ veto_result s = 0
  /\ is_message_sender s = false.

(** A participant after [__init__] whose user has set nothing, with a tape
    that lasts for [k] parity rounds. *)
Definition fresh_and_silent (k : nat) (s : ParticipantNode) (t : list bool) : Prop :=
  quiet s /\ all_node_ids s = [] /\ veto_finished s = []
  /\ parity_broadcasts_last s = false /\ notification_input s = EmptyString
  /\ is_message_sender s = false
  /\ lasts k (len (all_nodes s) + 1) 0 t = true.

(** * Properties of the model *)

Unset Implicit Arguments.

(** ** Property setters *)

(** C10: assigning a value other than 0 and 1 to [parity_input], [veto_input]
    or [collision_detection_input] raises [ValueError] and leaves the
    participant as it was; assigning 0 or 1 returns and the attribute then holds
    that bit. *)
Theorem bit_setters_validate (bit : Z) (p : ParticipantNode) :
  parity_input_setter bit p
    = (if (bit =? 0) || (bit =? 1)
       then Done tt (upd_parity_input bit p) else Raised ValueError p)
  /\ veto_input_setter bit p
    = (if (bit =? 0) || (bit =? 1)
       then Done tt (upd_veto_input bit p) else Raised ValueError p)
  /\ collision_detection_input_setter bit p
    = (if (bit =? 0) || (bit =? 1)
       then Done tt (upd_collision_detection_input bit p) else Raised ValueError p)
  /\ parity_input (upd_parity_input bit p) = bit
  /\ veto_input (upd_veto_input bit p) = bit
  /\ collision_detection_input (upd_collision_detection_input bit p) = bit.
Proof.
  unfold parity_input_setter, veto_input_setter, collision_detection_input_setter.
  destruct (bit =? 0) eqn:E0, (bit =? 1) eqn:E1; cbn;
    repeat split; reflexivity.
Qed.

(** ** The AMDC parameters *)

Section Parameters.

Variables beta m_len : Z.
Hypothesis beta_nonneg : 0 <= beta.

Lemma d_large_enough (d : Z) :
  1 <= d -> m_len <= d -> d_too_small beta m_len d = false.
Proof.
  intros Hd Hm. unfold d_too_small.
  destruct (0 <? m_len - d * beta) eqn:Hk; [|reflexivity].
  apply Z.ltb_lt in Hk. cbn. apply Z.ltb_ge.
  transitivity (2 ^ d).
  - apply Z.pow_le_mono_r; nia.
  - apply Z.pow_le_mono_l. lia.
Qed.

Lemma find_d_returns (steps : nat) :
  forall d, 1 <= d -> m_len <= d + 2 * Z.of_nat steps ->
  exists d', find_d steps beta m_len d = Some d'
             /\ d <= d' /\ d_too_small beta m_len d' = false.
Proof.
  induction steps as [|steps IH]; intros d Hd Hm.
  - cbn [find_d]. rewrite d_large_enough by lia.
    exists d. repeat split; try lia. apply d_large_enough; lia.
  - cbn [find_d]. destruct (d_too_small beta m_len d) eqn:E.
    + destruct (IH (d + 2)) as (d' & H1 & H2 & H3); [lia | lia |].
      exists d'. repeat split; auto. lia.
    + exists d. repeat split; auto. lia.
Qed.

Lemma blocks_cover_message (d : Z) :
  1 <= d -> d_too_small beta m_len d = false ->
  m_len <= d * (beta + Z.log2_up (d + 1)).
Proof.
  intros Hd E. unfold d_too_small in E.
  assert (HL : 0 <= Z.log2_up (d + 1)) by apply Z.log2_up_nonneg.
  destruct (0 <? m_len - d * beta) eqn:Hk.
  - apply Z.ltb_lt in Hk. cbn in E. apply Z.ltb_ge in E.
    assert (Hup : d + 1 <= 2 ^ Z.log2_up (d + 1))
      by (apply Z.log2_up_spec; lia).
    assert (Hpow : (d + 1) ^ d <= 2 ^ (Z.log2_up (d + 1) * d)).
    { rewrite Z.pow_mul_r by lia. apply Z.pow_le_mono_l. lia. }
    assert (Hle : m_len - d * beta <= Z.log2_up (d + 1) * d).
    { apply (Z.pow_le_mono_r_iff 2); lia. }
    nia.
  - apply Z.ltb_ge in Hk. nia.
Qed.

(** For a security parameter that is not negative the loop stops, with
    [d >= 1] blocks of [gamma > beta] bits that hold the message. *)
Lemma d_and_gamma_returns :
  0 <= m_len ->
  exists d gamma,
    d_and_gamma beta m_len = Some (d, gamma)
    /\ 1 <= d /\ beta + 1 <= gamma /\ m_len <= d * gamma.
Proof.
  intros Hm. unfold d_and_gamma.
  destruct (find_d_returns (Z.to_nat m_len) 1) as (d & E & Hd & Hs);
    [lia | lia |].
  rewrite E. exists d, (beta + Z.log2_up (d + 1)).
  repeat split; auto.
  - assert (0 < Z.log2_up (d + 1)) by (apply Z.log2_up_pos; lia). lia.
  - apply blocks_cover_message; auto.
Qed.

End Parameters.

(** ** Running monadic code *)

Lemma bind_done {S A B : Type} {m : M S A} (k : A -> M S B) {s s' : S} {a : A} :
  m s = Done a s' -> bind m k s = k a s'.
Proof. intros H. unfold bind. rewrite H. reflexivity. Qed.

Lemma map_m_done {S A B : Type} (f : A -> M S B) (g : A -> B) (l : list A) (s : S) :
  (forall x, In x l -> f x s = Done (g x) s) ->
  map_m f l s = Done (map g l) s.
Proof.
  induction l as [|x l IH]; intros H; cbn [map_m map].
  - reflexivity.
  - rewrite (bind_done _ (H x (or_introl eq_refl))).
    rewrite (bind_done _ (IH (fun y Hy => H y (or_intror Hy)))).
    reflexivity.
Qed.

Lemma list_eqb_refl (l : list Z) : list_eqb l l = true.
Proof.
  induction l as [|x l IH]; cbn; [reflexivity|].
  rewrite Z.eqb_refl, IH. reflexivity.
Qed.

Lemma len_app {A : Type} (l1 l2 : list A) : len (l1 ++ l2) = len l1 + len l2.
Proof. unfold len. rewrite length_app. lia. Qed.

Lemma len_nonneg {A : Type} (l : list A) : 0 <= len l.
Proof. unfold len. lia. Qed.

Lemma len_replicate (v k : Z) : len (replicate v k) = Z.max 0 k.
Proof. unfold len, replicate. rewrite repeat_length. lia. Qed.

(** ** Polynomials over GF(2) *)

Module GF2Facts.

Local Open Scope N_scope.

Lemma size_pos (a : N) : a <> 0 -> 0 < N.size a.
Proof. intros H. rewrite N.size_log2 by assumption. lia. Qed.

Lemma size_zero (a : N) : N.size a = 0 -> a = 0.
Proof. destruct a; cbn; [reflexivity | discriminate]. Qed.

(** Adding two polynomials of the same degree cancels the leading term. *)
Lemma size_lxor_lt (a c : N) :
  a <> 0 -> N.size a = N.size c -> N.size (N.lxor a c) < N.size a.
Proof.
  intros Ha Hs.
  assert (Hc : c <> 0).
  { intros ->. apply size_pos in Ha. cbn in Hs. lia. }
  destruct (N.eq_dec (N.lxor a c) 0) as [E|E].
  - rewrite E. cbn. apply size_pos. assumption.
  - rewrite (N.size_log2 a), (N.size_log2 c) in Hs by assumption.
    apply N.succ_inj in Hs.
    rewrite (N.size_log2 _ E), (N.size_log2 a Ha).
    apply -> N.succ_lt_mono.
    pose proof (N.log2_lxor a c) as Hle. rewrite <- Hs, N.max_id in Hle.
    apply N.le_lteq in Hle. destruct Hle as [Hlt|Heq]; [assumption|].
    exfalso.
    pose proof (N.bit_log2 _ E) as Hbit.
    rewrite Heq, N.lxor_spec in Hbit.
    rewrite (N.bit_log2 a Ha) in Hbit.
    rewrite Hs, (N.bit_log2 c Hc) in Hbit. discriminate.
Qed.

Lemma size_shiftl (b s : N) : b <> 0 -> N.size (N.shiftl b s) = N.size b + s.
Proof.
  intros Hb.
  assert (N.shiftl b s <> 0) by (rewrite N.shiftl_eq_0_iff; assumption).
  rewrite !N.size_log2 by assumption.
  rewrite N.log2_shiftl by assumption. lia.
Qed.

(** The remainder has a degree below the degree of the divisor. *)
Lemma mod_steps_degree (b : N) (steps : nat) :
  b <> 0 -> forall a, N.size a <= N.of_nat steps ->
  N.size (GF2.mod_steps steps a b) < N.size b.
Proof.
  intros Hb. induction steps as [|steps IH]; intros a Ha.
  - cbn. assert (N.size a = 0) as E by lia. rewrite E. apply size_pos, Hb.
  - cbn [GF2.mod_steps]. destruct (N.size a <? N.size b) eqn:E.
    + apply N.ltb_lt in E. assumption.
    + apply N.ltb_ge in E. apply IH.
      pose proof (size_pos _ Hb) as Hpos.
      assert (Hane : a <> 0) by (intros ->; cbn in E; lia).
      assert (N.size (N.lxor a (N.shiftl b (N.size a - N.size b))) < N.size a).
      { apply size_lxor_lt; [assumption|]. rewrite size_shiftl by assumption. lia. }
      lia.
Qed.

Lemma length_bits_of_pos (p : positive) (acc : list Z) :
  List.length (GF2.bits_of_pos p acc) = (Pos.to_nat (Pos.size p) + List.length acc)%nat.
Proof.
  revert acc. induction p as [p IH|p IH|]; intros acc; cbn [GF2.bits_of_pos Pos.size].
  - rewrite IH. cbn [List.length]. lia.
  - rewrite IH. cbn [List.length]. lia.
  - cbn. lia.
Qed.

Lemma len_bin_digits (a : N) :
  len (GF2.bin_digits a) = Z.max 1 (Z.of_N (N.size a)).
Proof.
  unfold len. destruct a as [|p]; cbn [GF2.bin_digits N.size].
  - reflexivity.
  - rewrite length_bits_of_pos. cbn [List.length]. lia.
Qed.

Lemma size_Poly_value_from (coeffs : list Z) :
  forallb is_bit coeffs = true ->
  forall acc, acc <> 0 ->
  N.size (fold_left (fun acc c => N.lor (N.double acc) (Z.to_N c)) coeffs acc)
  = N.size acc + N.of_nat (List.length coeffs).
Proof.
  induction coeffs as [|c coeffs IH]; intros Hbits acc Hacc; cbn [fold_left List.length].
  - lia.
  - cbn [forallb] in Hbits. apply andb_prop in Hbits as [Hc Hbits].
    rewrite IH; [|assumption|].
    + assert (N.size (N.lor (N.double acc) (Z.to_N c)) = N.succ (N.size acc)).
      { destruct acc as [|p]; [congruence|].
        unfold is_bit in Hc. apply orb_prop in Hc.
        destruct Hc as [Hc|Hc]; apply Z.eqb_eq in Hc; subst c; reflexivity. }
      lia.
    + destruct acc as [|p]; [congruence|].
      unfold is_bit in Hc. apply orb_prop in Hc.
      destruct Hc as [Hc|Hc]; apply Z.eqb_eq in Hc; subst c; discriminate.
Qed.

(** A coefficient list with a leading 1 has the degree its length gives. *)
Lemma size_Poly_value_monic (coeffs : list Z) :
  forallb is_bit coeffs = true ->
  N.size (GF2.Poly_value (1%Z :: coeffs)) = N.succ (N.of_nat (List.length coeffs)).
Proof.
  intros H. unfold GF2.Poly_value. cbn [fold_left].
  change (N.lor (N.double 0) (Z.to_N 1%Z)) with 1.
  rewrite size_Poly_value_from; [|assumption|discriminate].
  change (N.size 1) with 1. lia.
Qed.

Lemma Poly_done (S : Type) (s : S) (coeffs : list Z) :
  coeffs <> [] -> forallb is_bit coeffs = true ->
  GF2.Poly coeffs s = Done (GF2.Poly_value coeffs) s.
Proof.
  intros Hne Hb. unfold GF2.Poly. destruct coeffs; [congruence|].
  fold is_bit. change (fun c => (c =? 0)%Z || (c =? 1)%Z) with is_bit.
  rewrite Hb. reflexivity.
Qed.

End GF2Facts.

(** ** The tag *)

Lemma fold_m_add_term_done (u_poly_list : list N) (theta_poly : N) (l : list Z) :
  (forall i, In i l -> (Z.to_nat (i - 1) < List.length u_poly_list)%nat) ->
  forall f_poly, exists f_poly', forall (S : Type) (s : S),
    fold_m (add_term u_poly_list theta_poly) l f_poly s = Done f_poly' s.
Proof.
  induction l as [|i l IH]; intros Hin f_poly; cbn [fold_m].
  - eexists. reflexivity.
  - assert (Hi : (Z.to_nat (i - 1) < List.length u_poly_list)%nat)
      by (apply Hin; left; reflexivity).
    apply nth_error_Some in Hi.
    destruct (nth_error u_poly_list (Z.to_nat (i - 1))) as [u|] eqn:E; [|congruence].
    destruct (IH (fun j Hj => Hin j (or_intror Hj))
                (GF2.add f_poly (GF2.mul u (GF2.pow theta_poly i)))) as [f' Hf'].
    exists f'. intros S s. unfold bind, add_term. rewrite E. apply Hf'.
Qed.

Lemma range_spec (lo hi i : Z) : In i (range lo hi) <-> lo <= i < hi.
Proof.
  unfold range. rewrite in_map_iff. split.
  - intros (k & <- & Hk). apply in_seq in Hk. lia.
  - intros H. exists (Z.to_nat (i - lo)). split; [lia|]. apply in_seq. lia.
Qed.

Lemma forallb_firstn {A : Type} (f : A -> bool) (n : nat) (l : list A) :
  forallb f l = true -> forallb f (firstn n l) = true.
Proof.
  intros H. rewrite <- (firstn_skipn n l), forallb_app in H.
  apply andb_prop in H. tauto.
Qed.

Lemma forallb_skipn {A : Type} (f : A -> bool) (n : nat) (l : list A) :
  forallb f l = true -> forallb f (skipn n l) = true.
Proof.
  intros H. rewrite <- (firstn_skipn n l), forallb_app in H.
  apply andb_prop in H. tauto.
Qed.

(** Blocks cut from a list of bits that is long enough are not empty and
    hold bits. *)
Lemma split_sizes_blocks (sizes : list nat) :
  forall l, Forall (fun n => (0 < n)%nat) sizes ->
  (list_sum sizes <= List.length l)%nat ->
  forallb is_bit l = true ->
  List.length (split_sizes sizes l) = List.length sizes
  /\ Forall (fun c => c <> [] /\ forallb is_bit c = true) (split_sizes sizes l).
Proof.
  induction sizes as [|n sizes IH]; intros l Hpos Hsum Hbits; cbn [split_sizes].
  - split; [reflexivity | constructor].
  - inversion Hpos as [|? ? Hn Hpos']; subst. unfold list_sum in Hsum. cbn [fold_right] in Hsum.
    destruct (IH (skipn n l)) as [IH1 IH2]; auto.
    + rewrite length_skipn. unfold list_sum. lia.
    + apply forallb_skipn, Hbits.
    + split; [cbn; rewrite IH1; reflexivity|].
      constructor; [|assumption]. split.
      * intros E. apply (f_equal (@List.length Z)) in E.
        rewrite length_firstn in E. cbn in E. lia.
      * apply forallb_firstn, Hbits.
Qed.

Lemma list_sum_repeat (a k : nat) : list_sum (repeat a k) = (a * k)%nat.
Proof.
  unfold list_sum. induction k as [|k IH]; cbn [repeat fold_right]; [lia|].
  rewrite IH. lia.
Qed.

Lemma array_split_blocks (l : list Z) (d : Z) :
  1 <= d -> d <= len l -> forallb is_bit l = true ->
  exists chunks,
    (forall (S : Type) (s : S), array_split l d s = Done chunks s)
    /\ List.length chunks = Z.to_nat d
    /\ Forall (fun c => c <> [] /\ forallb is_bit c = true) chunks.
Proof.
  intros Hd Hlen Hbits. unfold array_split.
  destruct (d <=? 0) eqn:E; [apply Z.leb_le in E; lia|].
  eexists. split; [reflexivity|].
  pose proof (Z.div_mod (len l) d ltac:(lia)) as Hdm.
  pose proof (Z.mod_pos_bound (len l) d ltac:(lia)) as Hmod.
  assert (Hdiv : 1 <= len l / d) by (apply Z.div_le_lower_bound; lia).
  destruct (split_sizes_blocks
              (repeat (Datatypes.S (Z.to_nat (len l / d))) (Z.to_nat (len l mod d))
                 ++ repeat (Z.to_nat (len l / d)) (Z.to_nat d - Z.to_nat (len l mod d)))
              l) as [H1 H2].
  - apply Forall_app. split; apply Forall_forall; intros n Hn;
      apply repeat_spec in Hn; subst n; lia.
  - rewrite list_sum_app, !list_sum_repeat. unfold len in *. nia.
  - assumption.
  - split; [|assumption].
    rewrite H1, length_app, !repeat_length. lia.
Qed.

Lemma int_of_bit_char (S : Type) (s : S) (c : ascii) :
  is_bit_char c = true -> int_of_char c s = Done (digit c) s /\ is_bit (digit c) = true.
Proof.
  unfold is_bit_char. intros H. apply orb_prop in H.
  destruct H as [H|H]; apply Ascii.eqb_eq in H; subst c; split; reflexivity.
Qed.

Section CodecFacts.

Variable irreducible_binary_polynomial_dict : Z -> option string.

(** With an entry of degree [gamma], bits for the key and at least one bit
    for each block, the tag is computed without an error and has [gamma]
    bits. *)
Lemma calculate_tau_returns (padded_message theta_binary : list Z) (d gamma : Z) :
  1 <= d -> 1 <= gamma ->
  entry_of_degree gamma (irreducible_binary_polynomial_dict gamma) = true ->
  forallb is_bit padded_message = true ->
  forallb is_bit theta_binary = true -> theta_binary <> [] ->
  d <= len padded_message ->
  exists tau_binary,
    len tau_binary = gamma
    /\ forall (S : Type) (s : S),
         calculate_tau irreducible_binary_polynomial_dict padded_message
           theta_binary d gamma s = Done tau_binary s.
Proof.
  intros Hd Hgamma Hentry Hpad Htheta Hne Hlen.
  unfold entry_of_degree in Hentry.
  destruct (irreducible_binary_polynomial_dict gamma) as [b|] eqn:Eb; [|discriminate].
  destruct (list_ascii_of_string b) as [|c rest] eqn:Ebs; [discriminate|].
  apply andb_prop in Hentry as [Hentry Hrest].
  apply andb_prop in Hentry as [Hc Hlenrest].
  apply Ascii.eqb_eq in Hc. subst c. apply Z.eqb_eq in Hlenrest.
  assert (Hdigits : forall (S : Type) (s : S),
             map_m (S := S) int_of_char ("1"%char :: rest) s
             = Done (map digit ("1"%char :: rest)) s).
  { intros S s. apply map_m_done. intros x [<-|Hx]; [reflexivity|].
    apply int_of_bit_char. rewrite forallb_forall in Hrest. auto. }
  assert (Hbbits : forallb is_bit (map digit rest) = true).
  { rewrite forallb_forall in *. intros z Hz. apply in_map_iff in Hz.
    destruct Hz as (x & <- & Hx). apply (int_of_bit_char unit tt). auto. }
  destruct (array_split_blocks padded_message d Hd Hlen Hpad)
    as (chunks & Hsplit & Hnchunks & Hchunks).
  assert (Hpolys : forall (S : Type) (s : S),
             map_m (S := S) GF2.Poly chunks s = Done (map GF2.Poly_value chunks) s).
  { intros S s. apply map_m_done. intros x Hx. rewrite Forall_forall in Hchunks.
    apply GF2Facts.Poly_done; apply Hchunks; assumption. }
  destruct (fold_m_add_term_done (map GF2.Poly_value chunks)
              (GF2.Poly_value theta_binary) (range 1 (d + 1))) with
    (f_poly := GF2.pow (GF2.Poly_value theta_binary) (d + 2)) as [f_poly Hf].
  { intros i Hi. apply range_spec in Hi. rewrite length_map, Hnchunks. lia. }
  set (b_poly := GF2.Poly_value (1 :: map digit rest)).
  assert (Hsize : N.size b_poly = N.succ (N.of_nat (List.length rest))).
  { unfold b_poly. rewrite GF2Facts.size_Poly_value_monic by assumption.
    rewrite length_map. reflexivity. }
  assert (Hb0 : b_poly <> 0%N).
  { intros E. rewrite E in Hsize. cbn in Hsize. lia. }
  exists (replicate 0 (gamma - len (GF2.bin_digits
            (GF2.mod_steps (N.to_nat (N.size f_poly)) f_poly b_poly)))
          ++ GF2.bin_digits (GF2.mod_steps (N.to_nat (N.size f_poly)) f_poly b_poly)).
  split.
  - pose proof (GF2Facts.mod_steps_degree b_poly (N.to_nat (N.size f_poly)) Hb0
                  f_poly ltac:(lia)) as Hdeg.
    rewrite len_app, len_replicate, GF2Facts.len_bin_digits.
    unfold len in Hlenrest. lia.
  - intros S s.
    unfold calculate_tau, str_get_binary_irreducible. rewrite Eb, Ebs.
    rewrite (bind_done _ (Hdigits S s)). cbn [map].
    change (digit "1") with 1.
    rewrite (bind_done _ (GF2Facts.Poly_done S s (1 :: map digit rest)
                            ltac:(discriminate) ltac:(exact Hbbits))).
    rewrite (bind_done _ (GF2Facts.Poly_done S s theta_binary Hne Htheta)).
    rewrite (bind_done _ (Hsplit S s)), (bind_done _ (Hpolys S s)),
      (bind_done _ (Hf S s)).
    fold b_poly. unfold GF2.mod_, bind.
    destruct (b_poly =? 0)%N eqn:E0; [apply N.eqb_eq in E0; congruence|].
    reflexivity.
Qed.

End CodecFacts.

(** ** Slices *)

Lemma firstn_length_app {A : Type} (l1 l2 : list A) :
  firstn (List.length l1) (l1 ++ l2) = l1.
Proof.
  rewrite firstn_app, firstn_all, Nat.sub_diag, firstn_0. apply app_nil_r.
Qed.

Lemma skipn_length_app {A : Type} (l1 l2 : list A) :
  skipn (List.length l1) (l1 ++ l2) = l2.
Proof.
  rewrite skipn_app, skipn_all, Nat.sub_diag. reflexivity.
Qed.

Lemma slice_prefix (l1 l2 : list Z) (k : Z) :
  0 < k -> len l2 = k -> slice (l1 ++ l2) None (Some (- k)) = l1.
Proof.
  intros Hk Hl. unfold slice, slice_index. fold (len (l1 ++ l2)).
  rewrite len_app. pose proof (len_nonneg l1).
  destruct (- k <? 0) eqn:E; [|apply Z.ltb_ge in E; lia].
  cbn [skipn Z.to_nat].
  replace (Z.to_nat (Z.max (len l1 + len l2 + - k) 0 - 0)) with (List.length l1)
    by (unfold len in *; lia).
  apply firstn_length_app.
Qed.

Lemma slice_middle (l1 l2 l3 : list Z) (k : Z) :
  0 < k -> len l2 = k -> len l3 = k ->
  slice (l1 ++ l2 ++ l3) (Some (- (2 * k))) (Some (- k)) = l2.
Proof.
  intros Hk H2 H3. unfold slice, slice_index. fold (len (l1 ++ l2 ++ l3)).
  rewrite !len_app. pose proof (len_nonneg l1).
  destruct (- (2 * k) <? 0) eqn:E; [|apply Z.ltb_ge in E; lia].
  destruct (- k <? 0) eqn:E'; [|apply Z.ltb_ge in E'; lia].
  replace (Z.to_nat (Z.max (len l1 + (len l2 + len l3) + - k) 0
                     - Z.max (len l1 + (len l2 + len l3) + - (2 * k)) 0))
    with (List.length l2) by (unfold len in *; lia).
  replace (Z.to_nat (Z.max (len l1 + (len l2 + len l3) + - (2 * k)) 0))
    with (List.length l1) by (unfold len in *; lia).
  rewrite skipn_length_app. apply firstn_length_app.
Qed.

Lemma slice_suffix (l1 l2 : list Z) (k : Z) :
  0 < k -> len l2 = k -> slice (l1 ++ l2) (Some (- k)) None = l2.
Proof.
  intros Hk Hl. unfold slice, slice_index. fold (len (l1 ++ l2)).
  rewrite len_app. pose proof (len_nonneg l1).
  destruct (- k <? 0) eqn:E; [|apply Z.ltb_ge in E; lia].
  replace (Z.to_nat (Z.max (len l1 + len l2 + - k) 0)) with (List.length l1)
    by (unfold len in *; lia).
  rewrite skipn_length_app. apply firstn_all2. unfold len in *. lia.
Qed.

Lemma slice_head (l1 l2 : list Z) :
  slice (l1 ++ l2) None (Some (len l1)) = l1.
Proof.
  unfold slice, slice_index. fold (len (l1 ++ l2)).
  rewrite len_app. pose proof (len_nonneg l1). pose proof (len_nonneg l2).
  destruct (len l1 <? 0) eqn:E; [apply Z.ltb_lt in E; lia|].
  cbn [skipn Z.to_nat].
  replace (Z.to_nat (Z.min (len l1) (len l1 + len l2) - 0)) with (List.length l1)
    by (unfold len in *; lia).
  apply firstn_length_app.
Qed.

(** ** Drawing random bits *)

Lemma randbits_list_returns (n : nat) :
  forall tape, (n <= List.length tape)%nat ->
  randbits_list_nat n tape
  = Done (map Z.b2z (firstn n tape)) (skipn n tape).
Proof.
  induction n as [|n IH]; intros tape Hn; cbn [randbits_list_nat].
  - reflexivity.
  - destruct tape as [|b tape]; [cbn in Hn; lia|].
    cbn [List.length] in Hn. unfold bind at 1. cbn [randbits1].
    rewrite (bind_done _ (IH tape ltac:(lia))). reflexivity.
Qed.

Lemma bits_b2z (l : list bool) : forallb is_bit (map Z.b2z l) = true.
Proof.
  induction l as [|b l IH]; cbn; [reflexivity|]. rewrite IH. destruct b; reflexivity.
Qed.

Lemma bits_app (l1 l2 : list Z) :
  forallb is_bit l1 = true -> forallb is_bit l2 = true ->
  forallb is_bit (l1 ++ l2) = true.
Proof. intros H1 H2. rewrite forallb_app, H1, H2. reflexivity. Qed.

Lemma bits_replicate_0 (k : Z) : forallb is_bit (replicate 0 k) = true.
Proof.
  unfold replicate. induction (Z.to_nat k) as [|n IH]; cbn; auto.
Qed.

(** ** Round trip *)

Section RoundTrip.

Variable irreducible_binary_polynomial_dict : Z -> option string.

(** The encoder returns the padded message, the key drawn from the tape and
    the tag that [calculate_tau] returns for them. *)
Lemma amdc_encode_message_returns (message : list Z) (beta d gamma : Z)
    (tape : list bool) :
  1 <= beta ->
  forallb is_bit message = true ->
  d_and_gamma beta (len message) = Some (d, gamma) ->
  entry_of_degree gamma (irreducible_binary_polynomial_dict gamma) = true ->
  gamma <= len tape ->
  let theta_binary := map Z.b2z (firstn (Z.to_nat gamma) tape) in
  let padded_message := message ++ replicate 0 (d * gamma - len message) in
  exists tau_binary,
    len tau_binary = gamma
    /\ len theta_binary = gamma
    /\ len padded_message = d * gamma
    /\ (forall (S : Type) (s : S),
          calculate_tau irreducible_binary_polynomial_dict padded_message
            theta_binary d gamma s = Done tau_binary s)
    /\ amdc_encode_message irreducible_binary_polynomial_dict message beta tape
       = Done (padded_message ++ theta_binary ++ tau_binary)
           (skipn (Z.to_nat gamma) tape).
Proof.
  intros Hbeta Hbits Hdg Hentry Htape theta_binary padded_message.
  destruct (d_and_gamma_returns beta (len message) ltac:(lia) (len_nonneg message))
    as (d' & gamma' & Hdg' & Hd & Hgamma & Hcover).
  rewrite Hdg in Hdg'. injection Hdg' as <- <-.
  assert (Hlen_theta : len theta_binary = gamma).
  { unfold theta_binary, len in *. rewrite length_map, length_firstn. lia. }
  assert (Hlen_padded : len padded_message = d * gamma).
  { unfold padded_message. rewrite len_app, len_replicate. lia. }
  assert (Htheta_ne : theta_binary <> []).
  { intros E. rewrite E in Hlen_theta. cbn in Hlen_theta. lia. }
  assert (Hpadded_bits : forallb is_bit padded_message = true)
    by (apply bits_app; [assumption | apply bits_replicate_0]).
  assert (Hblocks : d <= len padded_message) by nia.
  destruct (calculate_tau_returns irreducible_binary_polynomial_dict
              padded_message theta_binary d gamma)
    as (tau_binary & Hlen_tau & Etau); auto; try lia.
  { apply bits_b2z. }
  exists tau_binary. repeat split; try assumption.
  unfold amdc_encode_message, find_d_and_gamma. rewrite Hdg.
  unfold bind at 1, ret at 1. unfold randbits_list.
  rewrite (bind_done _ (randbits_list_returns (Z.to_nat gamma) tape
                          ltac:(unfold len in *; lia))).
  fold theta_binary. fold padded_message.
  rewrite (bind_done _ (Etau _ _)). reflexivity.
Qed.

(** C6: a message of bits, encoded under a security parameter [beta >= 1]
    whose [gamma] has an entry of degree [gamma] in the table, with whatever
    bits [randbits] gives for the key, decodes to [(True, message)]. *)
Theorem amdc_round_trip (message : list Z) (beta d gamma : Z) (tape : list bool) :
  1 <= beta ->
  forallb is_bit message = true ->
  d_and_gamma beta (len message) = Some (d, gamma) ->
  entry_of_degree gamma (irreducible_binary_polynomial_dict gamma) = true ->
  gamma <= len tape ->
  exists encoded_message tape',
    amdc_encode_message irreducible_binary_polynomial_dict message beta tape
    = Done encoded_message tape'
    /\ len encoded_message = d * gamma + 2 * gamma
    /\ forall (S : Type) (s : S),
         amdc_decode_message irreducible_binary_polynomial_dict
           encoded_message (len message) beta s
         = Done (true, message) s.
Proof.
  intros Hbeta Hbits Hdg Hentry Htape.
  destruct (amdc_encode_message_returns message beta d gamma tape
              Hbeta Hbits Hdg Hentry Htape)
    as (tau_binary & Hlen_tau & Hlen_theta & Hlen_padded & Etau & Eenc).
  destruct (d_and_gamma_returns beta (len message) ltac:(lia) (len_nonneg message))
    as (d' & gamma' & Hdg' & Hd & Hgamma & Hcover).
  rewrite Hdg in Hdg'. injection Hdg' as <- <-.
  set (theta_binary := map Z.b2z (firstn (Z.to_nat gamma) tape)) in *.
  set (padded_message := message ++ replicate 0 (d * gamma - len message)) in *.
  exists (padded_message ++ theta_binary ++ tau_binary), (skipn (Z.to_nat gamma) tape).
  split; [exact Eenc|]. split.
  - rewrite !len_app. lia.
  - intros S s. unfold amdc_decode_message, find_d_and_gamma. rewrite Hdg.
    unfold bind at 1, ret at 1.
    replace (- 2 * gamma) with (- (2 * gamma)) by lia.
    rewrite (app_assoc padded_message), slice_suffix by (lia || assumption).
    rewrite <- app_assoc.
    rewrite slice_middle by (lia || assumption).
    replace (- (2 * gamma)) with (- (gamma + gamma)) by lia.
    rewrite slice_prefix by (rewrite ?len_app; lia).
    rewrite (bind_done _ (Etau S s)). unfold ret.
    rewrite list_eqb_refl. unfold padded_message. rewrite slice_head. reflexivity.
Qed.

End RoundTrip.

Lemma amdc_round_trip_witness :
  exists encoded_message tape',
    amdc_encode_message example_polynomial_dict [1; 0; 1] 1
      [true; false; true; true; false]
    = Done encoded_message tape'
    /\ len encoded_message = 3 * 3 + 2 * 3
    /\ forall (S : Type) (s : S),
         amdc_decode_message example_polynomial_dict encoded_message (len [1; 0; 1]) 1 s
         = Done (true, [1; 0; 1]) s.
Proof.
  apply (amdc_round_trip example_polynomial_dict [1; 0; 1] 1 3 3
           [true; false; true; true; false]).
  - lia.
  - reflexivity.
  - reflexivity.
  - reflexivity.
  - vm_compute. discriminate.
Defined.

(** ** The decoder and the length of its argument *)

Lemma bits_slice (l : list Z) (start stop : option Z) :
  forallb is_bit l = true -> forallb is_bit (slice l start stop) = true.
Proof. intros H. unfold slice. apply forallb_firstn, forallb_skipn, H. Qed.

Lemma len_slice_prefix (l : list Z) (k : Z) :
  0 < k -> k <= len l -> len (slice l None (Some (- k))) = len l - k.
Proof.
  intros Hk Hl. unfold slice, slice_index. fold (len l).
  destruct (- k <? 0) eqn:E; [|apply Z.ltb_ge in E; lia].
  cbn [skipn Z.to_nat]. unfold len in *. rewrite length_firstn. lia.
Qed.

Lemma len_slice_middle (l : list Z) (k : Z) :
  0 < k -> 2 * k <= len l -> len (slice l (Some (- (2 * k))) (Some (- k))) = k.
Proof.
  intros Hk Hl. unfold slice, slice_index. fold (len l).
  destruct (- (2 * k) <? 0) eqn:E; [|apply Z.ltb_ge in E; lia].
  destruct (- k <? 0) eqn:E'; [|apply Z.ltb_ge in E'; lia].
  unfold len in *. rewrite length_firstn, length_skipn. lia.
Qed.

(** C7, counterexample: under [beta = 1] a message of one bit has code words
    of 6 bits, and the decoder returns [(True, [1])] for these 7 bits. *)
Lemma decoder_accepts_bad_length :
  ~ decoder_rejects_bad_length example_polynomial_dict.
Proof.
  intros H.
  apply (H [1; 0; 1; 0; 1; 1; 1] 1 1 6 eq_refl ltac:(discriminate) (true, [1])).
  reflexivity.
Qed.

Section DecoderLength.

Variable irreducible_binary_polynomial_dict : Z -> option string.

(** C7, as the code has it: the decoder does not look at the length of its
    argument. Whenever the argument holds bits, at least one for each of the
    [d] blocks besides the [2 * gamma] of key and tag, the decoder returns
    normally, with the first [message_length] entries of what precedes key
    and tag; the length need not be [d * gamma + 2 * gamma]. *)
Theorem amdc_decode_any_length (encoded_message : list Z)
    (message_length beta d gamma : Z) :
  1 <= beta ->
  d_and_gamma beta message_length = Some (d, gamma) ->
  entry_of_degree gamma (irreducible_binary_polynomial_dict gamma) = true ->
  forallb is_bit encoded_message = true ->
  d + 2 * gamma <= len encoded_message ->
  exists message_correct, forall (S : Type) (s : S),
    amdc_decode_message irreducible_binary_polynomial_dict encoded_message
      message_length beta s
    = Done (message_correct,
            slice (slice encoded_message None (Some (- 2 * gamma)))
              None (Some message_length)) s.
Proof.
  intros Hbeta Hdg Hentry Hbits Hlen.
  assert (Hd : 1 <= d /\ beta + 1 <= gamma).
  { unfold d_and_gamma in Hdg.
    destruct (find_d (Z.to_nat message_length) beta message_length 1) as [d'|] eqn:E;
      [|discriminate].
    injection Hdg as <- <-.
    destruct (Z.to_nat message_length) as [|n] eqn:En.
    - cbn in E. destruct (d_too_small beta message_length 1); [discriminate|].
      injection E as <-. cbn. lia.
    - destruct (find_d_returns beta message_length ltac:(lia) (Datatypes.S n) 1)
        as (d'' & E' & Hd'' & _); [lia | lia |].
      rewrite E in E'. injection E' as <-.
      assert (0 < Z.log2_up (d' + 1)) by (apply Z.log2_up_pos; lia). lia. }
  destruct Hd as [Hd Hgamma].
  replace (- 2 * gamma) with (- (2 * gamma)) by lia.
  destruct (calculate_tau_returns irreducible_binary_polynomial_dict
              (slice encoded_message None (Some (- (2 * gamma))))
              (slice encoded_message (Some (- (2 * gamma))) (Some (- gamma)))
              d gamma)
    as (tau_binary & Hlen_tau & Etau); auto using bits_slice; try lia.
  - intros E. apply (f_equal (@len Z)) in E.
    rewrite len_slice_middle in E by lia. cbn in E. lia.
  - rewrite len_slice_prefix by lia. lia.
  - exists (list_eqb tau_binary (slice encoded_message (Some (- gamma)) None)).
    intros S s. unfold amdc_decode_message, find_d_and_gamma. rewrite Hdg.
    unfold bind at 1, ret at 1.
    replace (- 2 * gamma) with (- (2 * gamma)) by lia.
    rewrite (bind_done _ (Etau S s)). reflexivity.
Qed.

End DecoderLength.

Lemma amdc_decode_any_length_witness :
  exists message_correct, forall (S : Type) (s : S),
    amdc_decode_message example_polynomial_dict [1; 0; 1; 0; 1; 1; 1] 1 1 s
    = Done (message_correct,
            slice (slice [1; 0; 1; 0; 1; 1; 1] None (Some (- 2 * 2))) None (Some 1)) s.
Proof.
  apply (amdc_decode_any_length example_polynomial_dict [1; 0; 1; 0; 1; 1; 1] 1 1 1 2).
  - lia.
  - reflexivity.
  - reflexivity.
  - reflexivity.
  - vm_compute. discriminate.
Defined.

(** ** The network *)

Lemma node_id_receive (data : message) (p : ParticipantNode) :
  node_id (receive data p) = node_id p.
Proof. destruct data; reflexivity. Qed.

Lemma node_id_receive_all (id : string) (msgs : list (string * message)) :
  forall p, node_id (receive_all id msgs p) = node_id p.
Proof.
  unfold receive_all.
  induction msgs as [|m msgs IH]; intros p; cbn [fold_left].
  - reflexivity.
  - rewrite IH.
    destruct (String.eqb id (fst m)); [apply node_id_receive | reflexivity].
Qed.

Lemma sort_incoming_known (data : message) (p : ParticipantNode) :
  known data = true -> sort_incoming_messages data p = Done tt (receive data p).
Proof. destruct data; intros H; try reflexivity. discriminate. Qed.

Lemma deliver_known (n : string) (data : message) (net : Net) :
  known data = true ->
  deliver n data net
  = Done tt (map (fun q => if String.eqb (node_id (self q)) n
                           then with_self (receive data) q else q) net).
Proof.
  intros Hk. induction net as [|p net IH]; cbn [deliver map].
  - reflexivity.
  - rewrite IH. destruct (String.eqb (node_id (self p)) n); [|reflexivity].
    unfold on_self. rewrite (sort_incoming_known _ _ Hk). reflexivity.
Qed.

Lemma deliver_all_known (msgs : list (string * message)) :
  forallb (fun m => known (snd m)) msgs = true ->
  forall net,
    for_each msgs (fun m => deliver (fst m) (snd m)) net
    = Done tt (map (fun q => with_self (receive_all (node_id (self q)) msgs) q) net).
Proof.
  induction msgs as [|m msgs IH]; intros Hk net; cbn [for_each].
  - unfold ret. f_equal. rewrite <- (map_id net) at 1. apply map_ext.
    intros [s t o l]. reflexivity.
  - cbn [forallb] in Hk. apply andb_prop in Hk as [Hm Hk].
    rewrite (bind_done _ (deliver_known (fst m) (snd m) net Hm)).
    rewrite (IH Hk). f_equal. rewrite map_map. apply map_ext.
    intros [s t o l]. unfold with_self, receive_all.
    cbn [self tape outbox log fold_left].
    destruct (String.eqb (node_id s) (fst m)); cbn [self tape outbox log].
    + rewrite node_id_receive. reflexivity.
    + reflexivity.
Qed.

Lemma run_each_yields {X A : Type} (body : X -> M Process A) (a : X -> A)
    (S : X -> ParticipantNode) (T : X -> list bool) (O : X -> list (string * message))
    (xs : list X) :
  forall net,
    Forall2 (fun x q => yields (body x) q (a x) (S x) (T x) (O x)) xs net ->
    exists net',
      run_each (map body xs) net = Done (map a xs) net'
      /\ Forall2 (fun x q' => looks (S x) (T x) (O x) q') xs net'.
Proof.
  induction xs as [|x xs IH]; intros net H; inversion H as [|? q ? net1 Hx Hrest]; subst.
  - exists []. split; [reflexivity | constructor].
  - destruct Hx as (q' & Eq & Hl). destruct (IH net1 Hrest) as (net' & E & H').
    exists (q' :: net'). split; [|constructor; assumption].
    cbn [map run_each]. rewrite Eq, E. reflexivity.
Qed.

Lemma flat_map_outbox {X : Type} (S : X -> ParticipantNode) (T : X -> list bool)
    (O : X -> list (string * message)) (xs : list X) (net : Net) :
  Forall2 (fun x q => looks (S x) (T x) (O x) q) xs net ->
  flat_map outbox net = flat_map O xs.
Proof.
  induction 1 as [|x q xs net (_ & _ & Ho) _ IH]; cbn [flat_map]; [reflexivity|].
  rewrite Ho, IH. reflexivity.
Qed.

(** One stretch: the participants [net], which look as [S0], [T0] say, run
    their [body]; then the network delivers. *)
Lemma each_of_yields {X A : Type} (body : X -> M Process A) (a : X -> A)
    (S0 S : X -> ParticipantNode) (T0 T : X -> list bool)
    (O : X -> list (string * message)) (xs : list X) (net : Net) :
  Forall2 (fun x q => looks (S0 x) (T0 x) [] q) xs net ->
  (forall x q, In x xs -> looks (S0 x) (T0 x) [] q ->
               yields (body x) q (a x) (S x) (T x) (O x)) ->
  forallb (fun m => known (snd m)) (flat_map O xs) = true ->
  exists net',
    each_of (map body xs) net = Done (map a xs) net'
    /\ Forall2 (fun x q' =>
                  looks (receive_all (node_id (S x)) (flat_map O xs) (S x)) (T x) [] q')
         xs net'.
Proof.
  intros Hlooks Hbody Hknown.
  assert (Hy : Forall2 (fun x q => yields (body x) q (a x) (S x) (T x) (O x)) xs net).
  { clear Hknown. induction Hlooks as [|x q xs net Hq _ IH]; constructor.
    - apply Hbody; [left; reflexivity | assumption].
    - apply IH. intros y r Hy. apply Hbody. right. assumption. }
  destruct (run_each_yields body a S T O xs net Hy) as (net1 & E & H1).
  unfold each_of. rewrite (bind_done _ E).
  unfold deliver_outboxes, bind.
  rewrite (flat_map_outbox S T O xs net1 H1).
  rewrite (deliver_all_known _ Hknown). unfold ret.
  eexists. split; [reflexivity|].
  generalize (flat_map O xs). intros msgs.
  clear -H1. induction H1 as [|x q xs net (Hs & Ht & Ho) _ IH]; cbn [map]; constructor.
  - destruct q as [s t o l]. cbn in *. subst. repeat split.
  - exact IH.
Qed.

(** ** Exclusive or *)

Lemma fold_lxor (l : list Z) (a : Z) :
  fold_left Z.lxor l a = Z.lxor a (bitwise_xor_reduce l).
Proof.
  unfold bitwise_xor_reduce. revert a.
  induction l as [|x l IH]; intros a; cbn [fold_left].
  - rewrite Z.lxor_0_r. reflexivity.
  - rewrite (IH (Z.lxor a x)), (IH (Z.lxor 0 x)), Z.lxor_0_l, Z.lxor_assoc.
    reflexivity.
Qed.

Lemma xor_reduce_cons (x : Z) (l : list Z) :
  bitwise_xor_reduce (x :: l) = Z.lxor x (bitwise_xor_reduce l).
Proof.
  unfold bitwise_xor_reduce at 1. cbn [fold_left].
  rewrite fold_lxor, Z.lxor_0_l. reflexivity.
Qed.

Lemma xor_reduce_app (l1 l2 : list Z) :
  bitwise_xor_reduce (l1 ++ l2)
  = Z.lxor (bitwise_xor_reduce l1) (bitwise_xor_reduce l2).
Proof.
  induction l1 as [|x l1 IH]; cbn [app].
  - rewrite Z.lxor_0_l. reflexivity.
  - rewrite !xor_reduce_cons, IH, Z.lxor_assoc. reflexivity.
Qed.

Lemma xor_reduce_perm (l1 l2 : list Z) :
  Permutation l1 l2 -> bitwise_xor_reduce l1 = bitwise_xor_reduce l2.
Proof.
  induction 1 as [|x l1 l2 _ IH|x y l|l1 l2 l3 _ IH1 _ IH2].
  - reflexivity.
  - rewrite !xor_reduce_cons, IH. reflexivity.
  - rewrite !xor_reduce_cons, <- !Z.lxor_assoc, (Z.lxor_comm x y). reflexivity.
  - congruence.
Qed.

(** The xor of a list of bits is the parity of its number of ones. *)
Lemma xor_reduce_bits (l : list Z) :
  forallb is_bit l = true -> bitwise_xor_reduce l = count 1 l mod 2.
Proof.
  unfold count. induction l as [|x l IH]; intros H; cbn [forallb] in *.
  - reflexivity.
  - apply andb_prop in H as [Hx Hl]. rewrite xor_reduce_cons, (IH Hl).
    cbn [filter]. unfold is_bit in Hx. apply orb_prop in Hx.
    pose proof (Z.mod_pos_bound (Z.of_nat (List.length (filter (Z.eqb 1) l))) 2
                  ltac:(lia)) as Hb.
    destruct Hx as [Hx|Hx]; apply Z.eqb_eq in Hx; subst x.
    + change (1 =? 0) with false. cbn iota. rewrite Z.lxor_0_l. reflexivity.
    + change (1 =? 1) with true. cbn iota. cbn [List.length].
      rewrite Nat2Z.inj_succ.
      set (c := Z.of_nat (List.length (filter (Z.eqb 1) l))) in *.
      assert (Hc : c mod 2 = 0 \/ c mod 2 = 1) by lia.
      rewrite <- Z.add_1_l, Z.add_mod by lia.
      destruct Hc as [-> | ->]; reflexivity.
Qed.

(** ** Running a stretch *)

Lemma runs_yields {A : Type} (m : M Process A) s t o a s' t' o' (q : Process) :
  runs m s t o a s' t' o' -> looks s t o q -> yields m q a s' t' o'.
Proof.
  intros Hr (Hs & Ht & Ho). destruct q as [qs qt qo ql]. cbn in *. subst.
  destruct (Hr ql) as [l' E]. eexists. split; [exact E|]. repeat split.
Qed.

Lemma runs_bind {A B : Type} (m : M Process A) (k : A -> M Process B)
    s t o a s1 t1 o1 b s2 t2 o2 :
  runs m s t o a s1 t1 o1 -> runs (k a) s1 t1 o1 b s2 t2 o2 ->
  runs (bind m k) s t o b s2 t2 o2.
Proof.
  intros H1 H2 l. destruct (H1 l) as [l1 E1]. destruct (H2 l1) as [l2 E2].
  exists l2. rewrite (bind_done _ E1). exact E2.
Qed.

Lemma runs_ret {A : Type} (a : A) s t o : runs (ret a) s t o a s t o.
Proof. intros l. exists l. reflexivity. Qed.

Lemma runs_the {A : Type} (f : ParticipantNode -> A) s t o :
  runs (the f) s t o (f s) s t o.
Proof. intros l. exists l. reflexivity. Qed.

Lemma runs_assign (f : ParticipantNode -> ParticipantNode) s t o :
  runs (assign f) s t o tt (f s) t o.
Proof. intros l. exists l. reflexivity. Qed.

Lemma runs_assign_to (f : ParticipantNode -> ParticipantNode) s s' t o :
  f s = s' -> runs (assign f) s t o tt s' t o.
Proof. intros <-. apply runs_assign. Qed.

Lemma runs_on_self {A : Type} (m : M ParticipantNode A) (a : A) s s' t o :
  m s = Done a s' -> runs (on_self m) s t o a s' t o.
Proof. intros E l. exists l. unfold on_self. cbn. rewrite E. reflexivity. Qed.

Lemma runs_on_tape {A : Type} (m : M (list bool) A) (a : A) s t t' o :
  m t = Done a t' -> runs (on_tape m) s t o a s t' o.
Proof. intros E l. exists l. unfold on_tape. cbn. rewrite E. reflexivity. Qed.

Lemma runs_wait (b : bucket) (amount : Z) s t o :
  bucket_len b s = amount -> runs (wait_while_receiving b amount) s t o tt s t o.
Proof.
  intros E l. eexists. unfold wait_while_receiving. cbn.
  rewrite E, Z.eqb_refl. reflexivity.
Qed.

Lemma runs_send_to_each (data : message) s t (nodes : list string) :
  (forall n, In n nodes -> In n (all_nodes s)) ->
  forall o, runs (for_each nodes (fun n => send_to_node n data)) s t o tt s t
              (o ++ map (fun n => (n, data)) nodes).
Proof.
  induction nodes as [|n nodes IH]; intros Hin o; cbn [for_each map].
  - rewrite app_nil_r. apply runs_ret.
  - replace (o ++ (n, data) :: map (fun n0 => (n0, data)) nodes)
      with ((o ++ [(n, data)]) ++ map (fun n0 => (n0, data)) nodes)
      by (rewrite <- app_assoc; reflexivity).
    eapply runs_bind; [|apply IH].
    + intros l. eexists. unfold send_to_node. cbn.
      assert (E : existsb (String.eqb n) (all_nodes s) = true).
      { apply existsb_exists. exists n. split; [apply Hin; left; reflexivity|].
        apply String.eqb_refl. }
      rewrite E. reflexivity.
    + intros m Hm. apply Hin. right. assumption.
Qed.

Lemma runs_send_to_nodes (data : message) s t o :
  runs (send_to_nodes data) s t o tt s t (o ++ map (fun n => (n, data)) (all_nodes s)).
Proof.
  unfold send_to_nodes. eapply runs_bind; [apply runs_the|].
  apply runs_send_to_each. auto.
Qed.

Lemma runs_broadcast (data : message) s t o' :
  o' = map (fun n => (n, data)) (all_nodes s) ->
  runs (send_to_nodes data) s t [] tt s t o'.
Proof. intros ->. apply (runs_send_to_nodes data s t []). Qed.

(** ** Drawing the shares *)

Lemma randbits_list_inv (n : nat) :
  forall t l t', randbits_list_nat n t = Done l t' ->
  List.length l = n /\ forallb is_bit l = true.
Proof.
  induction n as [|n IH]; intros t l t' E; cbn [randbits_list_nat] in E.
  - injection E as <- <-. split; reflexivity.
  - destruct t as [|b t]; [discriminate|].
    unfold bind at 1 in E. cbn [randbits1] in E.
    unfold bind at 1 in E.
    destruct (randbits_list_nat n t) as [l1 t1| | |] eqn:E1; try discriminate.
    injection E as <- <-. destruct (IH _ _ _ E1) as [H1 H2].
    split; cbn; [congruence|]. rewrite H2. destruct b; reflexivity.
Qed.

Lemma create_bitstring_loop_inv (n input : Z) (rounds : nat) :
  forall bitstring t result t',
    create_bitstring_loop rounds n input bitstring t = Done result t' ->
    List.length bitstring = Z.to_nat n -> forallb is_bit bitstring = true ->
    List.length result = Z.to_nat n /\ forallb is_bit result = true
    /\ count 1 result mod 2 = input.
Proof.
  induction rounds as [|rounds IH]; intros bitstring t result t' E Hlen Hbits;
    cbn [create_bitstring_loop] in E;
    destruct (count 1 bitstring mod 2 =? input) eqn:Ec; cbn [negb] in E.
  - injection E as <- <-. apply Z.eqb_eq in Ec. auto.
  - discriminate.
  - injection E as <- <-. apply Z.eqb_eq in Ec. auto.
  - unfold bind, randbits_list in E.
    destruct (randbits_list_nat (Z.to_nat n) t) as [l1 t1| | |] eqn:E1; try discriminate.
    destruct (randbits_list_inv _ _ _ _ E1) as [H1 H2].
    eapply IH; eauto.
Qed.

(** A share vector that [create_bitstring] returns has one bit for every
    participant, and the xor of its bits is the input. *)
Lemma draw_bitstring_inv (n input : Z) (t : list bool) (result : list Z) (t' : list bool) :
  draw_bitstring n input t = Done result t' ->
  List.length result = Z.to_nat n /\ forallb is_bit result = true
  /\ bitwise_xor_reduce result = input.
Proof.
  unfold draw_bitstring, bind, randbits_list, get. intros E.
  destruct (randbits_list_nat (Z.to_nat n) t) as [l1 t1| | |] eqn:E1; try discriminate.
  destruct (randbits_list_inv _ _ _ _ E1) as [H1 H2].
  destruct (create_bitstring_loop_inv _ _ _ _ _ _ _ E H1 H2) as (H3 & H4 & H5).
  repeat split; auto. rewrite xor_reduce_bits by assumption. exact H5.
Qed.

(** ** Mailboxes *)

Lemma inbox_app (id : string) (l1 l2 : list (string * message)) :
  inbox id (l1 ++ l2) = inbox id l1 ++ inbox id l2.
Proof. unfold inbox. rewrite filter_app, map_app. reflexivity. Qed.

Lemma inbox_flat_map {X : Type} (id : string) (f : X -> list (string * message))
    (xs : list X) :
  inbox id (flat_map f xs) = flat_map (fun x => inbox id (f x)) xs.
Proof.
  induction xs as [|x xs IH]; cbn [flat_map]; [reflexivity|].
  rewrite inbox_app, IH. reflexivity.
Qed.

Lemma inbox_to_all (id : string) (data : message) (nodes : list string) :
  inbox id (map (fun n => (n, data)) nodes)
  = repeat data (count_occ string_dec nodes id).
Proof.
  unfold inbox. induction nodes as [|n nodes IH]; cbn [map filter count_occ fst].
  - reflexivity.
  - destruct (string_dec n id) as [->|Hne].
    + rewrite String.eqb_refl. cbn [map snd repeat]. rewrite IH. reflexivity.
    + assert (E : String.eqb id n = false) by (apply String.eqb_neq; congruence).
      rewrite E. exact IH.
Qed.

Lemma length_inbox_combine (id : string) (nodes : list string) :
  forall msgs : list message, List.length msgs = List.length nodes ->
  List.length (inbox id (combine nodes msgs)) = count_occ string_dec nodes id.
Proof.
  unfold inbox. induction nodes as [|n nodes IH]; intros [|m msgs] H;
    cbn [combine filter map List.length count_occ fst] in *; try discriminate.
  - reflexivity.
  - injection H as H. destruct (string_dec n id) as [->|Hne].
    + rewrite String.eqb_refl. cbn [map List.length]. rewrite (IH msgs H). reflexivity.
    + assert (E : String.eqb id n = false) by (apply String.eqb_neq; congruence).
      rewrite E. exact (IH msgs H).
Qed.

Lemma count_occ_filter_ne (id other : string) (l : list string) :
  count_occ string_dec (filter (fun n => negb (String.eqb n other)) l) id
  = if String.eqb id other then 0%nat else count_occ string_dec l id.
Proof.
  induction l as [|n l IH]; cbn [filter count_occ].
  - destruct (String.eqb id other); reflexivity.
  - destruct (String.eqb n other) eqn:En; cbn [negb count_occ].
    + apply String.eqb_eq in En. subst n. rewrite IH.
      destruct (String.eqb id other) eqn:Ei; [reflexivity|].
      apply String.eqb_neq in Ei.
      destruct (string_dec other id); [congruence | reflexivity].
    + rewrite IH. destruct (string_dec n id) as [->|Hne].
      * rewrite En. reflexivity.
      * destruct (String.eqb id other); reflexivity.
Qed.

Section Connected.

Variable net : Net.
Hypothesis Hconn : connected net.

Lemma id_in_ids (p : Process) : In p net -> In (node_id (self p)) (ids net).
Proof. intros H. unfold ids. apply in_map_iff. exists p. auto. Qed.

(** A participant is connected once to each of the others. *)
Lemma count_connection (p q : Process) :
  In p net -> In q net ->
  count_occ string_dec (all_nodes (self q)) (node_id (self p))
  = if String.eqb (node_id (self p)) (node_id (self q)) then 0%nat else 1%nat.
Proof.
  intros Hp Hq. destruct Hconn as [Hnd Hmesh].
  rewrite (proj1 (Permutation_count_occ string_dec _ _) (Hmesh q Hq)).
  rewrite count_occ_filter_ne.
  destruct (String.eqb (node_id (self p)) (node_id (self q))); [reflexivity|].
  apply NoDup_count_occ'; [assumption | apply id_in_ids; assumption].
Qed.

Lemma same_id (p q : Process) :
  In p net -> In q net -> node_id (self p) = node_id (self q) -> p = q.
Proof.
  intros Hp Hq E. destruct Hconn as [Hnd _]. unfold ids in Hnd.
  clear Hconn. induction net as [|r net' IH]; [contradiction|].
  cbn [map] in Hnd. inversion Hnd as [|? ? Hnotin Hnd']; subst.
  destruct Hp as [->|Hp], Hq as [->|Hq]; auto.
  - exfalso. apply Hnotin. rewrite E. apply in_map_iff. exists q. auto.
  - exfalso. apply Hnotin. rewrite <- E. apply in_map_iff. exists p. auto.
Qed.

Lemma others (p : Process) :
  In p net ->
  List.length (filter (fun q => negb (String.eqb (node_id (self q)) (node_id (self p)))) net)
  = (List.length net - 1)%nat.
Proof.
  intros Hp. destruct Hconn as [Hnd _]. unfold ids in Hnd. clear Hconn.
  induction net as [|r net' IH]; [contradiction|].
  cbn [map] in Hnd. inversion Hnd as [|? ? Hnotin Hnd']; subst.
  cbn [filter List.length].
  destruct (String.eqb (node_id (self r)) (node_id (self p))) eqn:E; cbn [negb].
  - apply String.eqb_eq in E.
    assert (Hall : filter (fun q => negb (String.eqb (node_id (self q))
                                           (node_id (self p)))) net' = net').
    { apply forallb_filter_id. apply forallb_forall. intros q Hq.
      apply negb_true_iff, String.eqb_neq. intros Eq. apply Hnotin.
      rewrite E, <- Eq. apply in_map_iff. exists q. auto. }
    rewrite Hall. lia.
  - destruct Hp as [->|Hp]; [rewrite String.eqb_refl in E; discriminate|].
    cbn [List.length]. rewrite (IH Hp Hnd').
    destruct net'; [contradiction | cbn; lia].
Qed.

Lemma connections (p : Process) :
  In p net -> List.length (all_nodes (self p)) = (List.length net - 1)%nat.
Proof.
  intros Hp. destruct Hconn as [Hnd Hmesh].
  rewrite (Permutation_length (Hmesh p Hp)).
  pose proof (others p Hp) as Ho. unfold ids.
  rewrite <- Ho. clear. induction net as [|r net' IH]; cbn [map filter]; [reflexivity|].
  destruct (String.eqb (node_id (self r)) (node_id (self p))); cbn [negb List.length];
    rewrite IH; reflexivity.
Qed.

Lemma inbox_of_broadcasts_from (p : Process) (senders : Process -> bool)
    (data : Process -> message) (l : list Process) :
  In p net -> (forall q, In q l -> In q net) ->
  inbox (node_id (self p))
    (flat_map (fun q => if senders q then to_all q (data q) else []) l)
  = map data
      (filter (fun q => senders q
                        && negb (String.eqb (node_id (self q)) (node_id (self p))))
         l).
Proof.
  intros Hp. rewrite inbox_flat_map.
  induction l as [|q l IH]; intros Hsub; cbn [flat_map filter map]; [reflexivity|].
  rewrite IH by (intros r Hr; apply Hsub; right; assumption).
  destruct (senders q); cbn [andb].
  - unfold to_all. rewrite inbox_to_all.
    rewrite (count_connection p q Hp (Hsub q (or_introl eq_refl))).
    rewrite (String.eqb_sym (node_id (self q))).
    destruct (String.eqb (node_id (self p)) (node_id (self q))); reflexivity.
  - reflexivity.
Qed.

(** What everybody in [senders] sends to all its connections reaches
    everybody else once. *)
Lemma inbox_of_broadcasts (p : Process) (senders : Process -> bool)
    (data : Process -> message) :
  In p net ->
  inbox (node_id (self p))
    (flat_map (fun q => if senders q then to_all q (data q) else []) net)
  = map data
      (filter (fun q => senders q
                        && negb (String.eqb (node_id (self q)) (node_id (self p))))
         net).
Proof. intros Hp. apply inbox_of_broadcasts_from; auto. Qed.

End Connected.

(** ** What the network delivers into each mailbox *)

Lemma upd_parity_shared_keys_same (s : ParticipantNode) :
  upd_parity_shared_keys (parity_shared_keys s) s = s.
Proof. destruct s; reflexivity. Qed.

Lemma upd_received_same (s : ParticipantNode) :
  upd_parity_received_broadcast_values (parity_received_broadcast_values s) s = s.
Proof. destruct s; reflexivity. Qed.

Lemma upd_parity_finished_same (s : ParticipantNode) :
  upd_parity_finished (parity_finished s) s = s.
Proof. destruct s; reflexivity. Qed.

Lemma upd_veto_finished_same (s : ParticipantNode) :
  upd_veto_finished (veto_finished s) s = s.
Proof. destruct s; reflexivity. Qed.

Lemma upd_notification_finished_same (s : ParticipantNode) :
  upd_notification_finished (notification_finished s) s = s.
Proof. destruct s; reflexivity. Qed.

Ltac receive_all_by same :=
  let m := fresh "m" in
  let msgs := fresh "msgs" in
  let IH := fresh "IH" in
  let H := fresh "H" in
  let s := fresh "s" in
  let v := fresh "v" in
  let Hm := fresh "Hm" in
  let E := fresh "E" in
  unfold receive_all, inbox;
  induction 1 as [|m msgs (v & Hm) _ IH]; intros s; cbn [fold_left filter map];
  [ rewrite app_nil_r; symmetry; apply same
  | destruct m as [dst data]; cbn [fst snd] in *; subst data;
    destruct (String.eqb _ dst); cbn [map snd];
    [ rewrite IH; cbn; rewrite <- app_assoc; reflexivity | apply IH ] ].

Lemma receive_all_keys (id : string) (msgs : list (string * message)) :
  Forall (fun m => exists v, snd m = msg_parity_shared_key v) msgs ->
  forall s,
    receive_all id msgs s
    = upd_parity_shared_keys
        (parity_shared_keys s ++ map int_payload (inbox id msgs)) s.
Proof. receive_all_by upd_parity_shared_keys_same. Qed.

Lemma receive_all_results (id : string) (msgs : list (string * message)) :
  Forall (fun m => exists v, snd m = msg_parity_key_xor_result v) msgs ->
  forall s,
    receive_all id msgs s
    = upd_parity_received_broadcast_values
        (parity_received_broadcast_values s ++ map int_payload (inbox id msgs)) s.
Proof. receive_all_by upd_received_same. Qed.

Lemma receive_all_parity_finished (id : string) (msgs : list (string * message)) :
  Forall (fun m => exists v, snd m = msg_parity_finished v) msgs ->
  forall s,
    receive_all id msgs s
    = upd_parity_finished (parity_finished s ++ map flag_payload (inbox id msgs)) s.
Proof. receive_all_by upd_parity_finished_same. Qed.

Lemma receive_all_veto_finished (id : string) (msgs : list (string * message)) :
  Forall (fun m => exists v, snd m = msg_veto_finished v) msgs ->
  forall s,
    receive_all id msgs s
    = upd_veto_finished (veto_finished s ++ map flag_payload (inbox id msgs)) s.
Proof. receive_all_by upd_veto_finished_same. Qed.

Lemma receive_all_notification_finished (id : string) (msgs : list (string * message)) :
  Forall (fun m => exists v, snd m = msg_notification_finished v) msgs ->
  forall s,
    receive_all id msgs s
    = upd_notification_finished
        (notification_finished s ++ map flag_payload (inbox id msgs)) s.
Proof. receive_all_by upd_notification_finished_same. Qed.

Lemma receive_all_nil (id : string) (s : ParticipantNode) : receive_all id [] s = s.
Proof. reflexivity. Qed.

(** ** Stretches *)

Lemma map_const_length {A B C : Type} (c : C) (l1 : list A) (l2 : list B) :
  List.length l1 = List.length l2 ->
  map (fun _ => c) l1 = map (fun _ => c) l2.
Proof.
  revert l2. induction l1 as [|x l1 IH]; intros [|y l2] H; cbn in *;
    try discriminate; [reflexivity|]. f_equal. apply IH. congruence.
Qed.

Section Stretch.

Context {A : Type}.
Variables (S0 S : Process -> ParticipantNode) (T0 T : Process -> list bool).
Variable O : Process -> list (string * message).
Variables (net0 net : Net).
Hypothesis Hnet : Forall2 (fun p q => looks (S0 p) (T0 p) [] q) net0 net.
Hypothesis Hknown : forallb (fun m => known (snd m)) (flat_map O net0) = true.

Lemma each_local_yields (body : M Process A) (a : Process -> A) :
  (forall p q, In p net0 -> looks (S0 p) (T0 p) [] q ->
               yields body q (a p) (S p) (T p) (O p)) ->
  exists net',
    each_local body net = Done (map a net0) net'
    /\ Forall2 (fun p q' =>
                  looks (receive_all (node_id (S p)) (flat_map O net0) (S p))
                    (T p) [] q') net0 net'.
Proof.
  intros Hbody. unfold each_local, bind, get.
  rewrite (map_const_length body net net0)
    by (symmetry; eapply Forall2_length; eassumption).
  apply (each_of_yields (fun _ => body) a S0 S T0 T O net0 net Hnet Hbody Hknown).
Qed.

Lemma each_with_yields {B : Type} (b : Process -> B) (body : B -> M Process A)
    (a : Process -> A) :
  (forall p q, In p net0 -> looks (S0 p) (T0 p) [] q ->
               yields (body (b p)) q (a p) (S p) (T p) (O p)) ->
  exists net',
    each_of (map body (map b net0)) net = Done (map a net0) net'
    /\ Forall2 (fun p q' =>
                  looks (receive_all (node_id (S p)) (flat_map O net0) (S p))
                    (T p) [] q') net0 net'.
Proof.
  intros Hbody. rewrite map_map.
  apply (each_of_yields (fun p => body (b p)) a S0 S T0 T O net0 net
           Hnet Hbody Hknown).
Qed.

End Stretch.

Lemma each_yields (S0 S : Process -> ParticipantNode) (T0 T : Process -> list bool)
    (O : Process -> list (string * message)) (net0 net : Net) (body : M Process unit) :
  Forall2 (fun p q => looks (S0 p) (T0 p) [] q) net0 net ->
  forallb (fun m => known (snd m)) (flat_map O net0) = true ->
  (forall p q, In p net0 -> looks (S0 p) (T0 p) [] q ->
               yields body q tt (S p) (T p) (O p)) ->
  exists net',
    each body net = Done tt net'
    /\ Forall2 (fun p q' =>
                  looks (receive_all (node_id (S p)) (flat_map O net0) (S p))
                    (T p) [] q') net0 net'.
Proof.
  intros Hnet Hknown Hbody.
  destruct (each_local_yields S0 S T0 T O net0 net Hnet Hknown body (fun _ => tt) Hbody)
    as (net' & E & H).
  exists net'. split; [|exact H].
  unfold each. unfold each_local in E. unfold bind, get in *.
  destruct (each_of (map (fun _ => body) net) net); try discriminate.
  injection E as _ ->. reflexivity.
Qed.

Lemma each_with_unit_yields {B : Type} (S0 S : Process -> ParticipantNode)
    (T0 T : Process -> list bool) (O : Process -> list (string * message))
    (net0 net : Net) (b : Process -> B) (body : B -> M Process unit) :
  Forall2 (fun p q => looks (S0 p) (T0 p) [] q) net0 net ->
  forallb (fun m => known (snd m)) (flat_map O net0) = true ->
  (forall p q, In p net0 -> looks (S0 p) (T0 p) [] q ->
               yields (body (b p)) q tt (S p) (T p) (O p)) ->
  exists net',
    each_with (map b net0) body net = Done tt net'
    /\ Forall2 (fun p q' =>
                  looks (receive_all (node_id (S p)) (flat_map O net0) (S p))
                    (T p) [] q') net0 net'.
Proof.
  intros Hnet Hknown Hbody.
  destruct (each_with_yields S0 S T0 T O net0 net Hnet Hknown b body (fun _ => tt) Hbody)
    as (net' & E & H).
  exists net'. split; [|exact H].
  unfold each_with, bind. rewrite E. reflexivity.
Qed.

Lemma Forall2_looks_ext (S S' : Process -> ParticipantNode) (T : Process -> list bool)
    (net0 net : Net) :
  (forall p, In p net0 -> S p = S' p) ->
  Forall2 (fun p q => looks (S p) (T p) [] q) net0 net ->
  Forall2 (fun p q => looks (S' p) (T p) [] q) net0 net.
Proof.
  intros HS H. induction H as [|p q net0 net Hq _ IH]; constructor.
  - rewrite <- (HS p (or_introl eq_refl)). exact Hq.
  - apply IH. intros r Hr. apply HS. right. exact Hr.
Qed.

(** ** A parity round *)

Lemma xor_map_lxor {X : Type} (f g : X -> Z) (l : list X) :
  bitwise_xor_reduce (map (fun x => Z.lxor (f x) (g x)) l)
  = Z.lxor (bitwise_xor_reduce (map f l)) (bitwise_xor_reduce (map g l)).
Proof.
  induction l as [|x l IH]; cbn [map]; [reflexivity|].
  rewrite !xor_reduce_cons, IH.
  rewrite !Z.lxor_assoc. f_equal.
  rewrite <- !Z.lxor_assoc. f_equal. apply Z.lxor_comm.
Qed.

Lemma xor_flat_map {X : Type} (f : X -> list Z) (l : list X) :
  bitwise_xor_reduce (flat_map f l)
  = bitwise_xor_reduce (map (fun x => bitwise_xor_reduce (f x)) l).
Proof.
  induction l as [|x l IH]; cbn [flat_map map]; [reflexivity|].
  rewrite xor_reduce_app, xor_reduce_cons, IH. reflexivity.
Qed.

Lemma map_of_flat_map {X Y W : Type} (f : Y -> W) (g : X -> list Y) (l : list X) :
  map f (flat_map g l) = flat_map (fun x => map f (g x)) l.
Proof.
  induction l as [|x l IH]; cbn [flat_map]; [reflexivity|].
  rewrite map_app, IH. reflexivity.
Qed.

Lemma xor_map_ext {X : Type} (f g : X -> Z) (l : list X) :
  (forall x, In x l -> f x = g x) ->
  bitwise_xor_reduce (map f l) = bitwise_xor_reduce (map g l).
Proof. intros H. f_equal. apply map_ext_in. exact H. Qed.

(** A value counted at the one participant called [dst] *)
Lemma xor_at_one (net : Net) (dst : string) (v : Z) :
  NoDup (ids net) -> In dst (ids net) ->
  bitwise_xor_reduce
    (map (fun p => if String.eqb (node_id (self p)) dst then v else 0) net) = v.
Proof.
  unfold ids. induction net as [|q net IH]; intros Hnd Hin; [contradiction|].
  cbn [map] in *. inversion Hnd as [|? ? Hnotin Hnd']; subst.
  rewrite xor_reduce_cons.
  destruct (String.eqb (node_id (self q)) dst) eqn:E.
  - apply String.eqb_eq in E. subst dst.
    rewrite (xor_map_ext _ (fun _ => 0)).
    + clear. induction net as [|r net IH]; cbn [map];
        [apply Z.lxor_0_r | rewrite xor_reduce_cons, Z.lxor_0_l; exact IH].
    + intros r Hr.
      destruct (String.eqb (node_id (self r)) (node_id (self q))) eqn:E'; [|reflexivity].
      apply String.eqb_eq in E'. exfalso. apply Hnotin. rewrite <- E'.
      apply in_map_iff. exists r. auto.
  - rewrite Z.lxor_0_l. apply IH; [assumption|].
    destruct Hin as [Hin|Hin]; [|assumption].
    apply String.eqb_neq in E. congruence.
Qed.

(** Every message reaches one mailbox: the xor over all mailboxes is the xor
    over all messages. *)
Lemma xor_of_inboxes (net : Net) (msgs : list (string * message)) :
  NoDup (ids net) ->
  (forall m, In m msgs -> In (fst m) (ids net)) ->
  bitwise_xor_reduce
    (map (fun p => bitwise_xor_reduce
                     (map int_payload (inbox (node_id (self p)) msgs))) net)
  = bitwise_xor_reduce (map (fun m => int_payload (snd m)) msgs).
Proof.
  intros Hnd. induction msgs as [|m msgs IH]; intros Hdst.
  - cbn [map]. clear. induction net as [|r net IH]; cbn [map];
      [reflexivity | rewrite xor_reduce_cons; exact IH].
  - cbn [map]. rewrite xor_reduce_cons.
    rewrite <- (IH (fun m' Hm' => Hdst m' (or_intror Hm'))).
    rewrite <- (xor_at_one net (fst m) (int_payload (snd m)) Hnd
                  (Hdst m (or_introl eq_refl))).
    rewrite <- xor_map_lxor. apply xor_map_ext. intros p _.
    unfold inbox. cbn [filter]. rewrite (String.eqb_sym (node_id (self p))).
    destruct (String.eqb (fst m) (node_id (self p))); cbn [map].
    + rewrite xor_reduce_cons. reflexivity.
    + rewrite Z.lxor_0_l. reflexivity.
Qed.

Lemma map_snd_combine {X Y : Type} (l1 : list X) :
  forall l2 : list Y, List.length l2 = List.length l1 -> map snd (combine l1 l2) = l2.
Proof.
  induction l1 as [|x l1 IH]; intros [|y l2] H; cbn in *; try discriminate;
    [reflexivity|]. f_equal. apply IH. congruence.
Qed.

Lemma in_combine_fst {X Y : Type} (l1 : list X) (l2 : list Y) (m : X * Y) :
  In m (combine l1 l2) -> In (fst m) l1.
Proof. destruct m as [x y]. intros H. eapply in_combine_l; eauto. Qed.

(** The xor of the others' values and of one's own *)
Lemma xor_with_others (net : Net) (x : Process -> Z) (p : Process) :
  NoDup (ids net) -> In p net ->
  Z.lxor
    (bitwise_xor_reduce
       (map x (filter (fun q => negb (String.eqb (node_id (self q)) (node_id (self p))))
                 net)))
    (x p)
  = bitwise_xor_reduce (map x net).
Proof.
  unfold ids. induction net as [|q net IH]; intros Hnd Hin; [contradiction|].
  cbn [map filter] in *. inversion Hnd as [|? ? Hnotin Hnd']; subst.
  destruct (String.eqb (node_id (self q)) (node_id (self p))) eqn:E; cbn [negb].
  - apply String.eqb_eq in E.
    assert (Hall : filter (fun r => negb (String.eqb (node_id (self r))
                                           (node_id (self p)))) net = net).
    { apply forallb_filter_id. apply forallb_forall. intros r Hr.
      apply negb_true_iff, String.eqb_neq. intros Er. apply Hnotin.
      rewrite E, <- Er. apply in_map_iff. exists r. auto. }
    rewrite Hall, xor_reduce_cons.
    destruct Hin as [->|Hin]; [apply Z.lxor_comm|].
    exfalso. apply Hnotin. rewrite E. apply in_map_iff. exists p. auto.
  - destruct Hin as [->|Hin]; [rewrite String.eqb_refl in E; discriminate|].
    cbn [map]. rewrite !xor_reduce_cons, Z.lxor_assoc, (IH Hnd' Hin). reflexivity.
Qed.

Lemma filter_none {X : Type} (f : X -> bool) (l : list X) :
  (forall x, In x l -> f x = false) -> filter f l = [].
Proof.
  induction l as [|x l IH]; intros H; cbn [filter]; [reflexivity|].
  rewrite (H x (or_introl eq_refl)). apply IH. intros y Hy. apply H. right. exact Hy.
Qed.

Lemma filter_split_length {X : Type} (c d : X -> bool) (l : list X) :
  (List.length (filter (fun x => negb (c x) && d x) l)
   + List.length (filter (fun x => c x && d x) l))%nat
  = List.length (filter d l).
Proof.
  induction l as [|x l IH]; cbn [filter]; [reflexivity|].
  destruct (c x), (d x); cbn [negb andb List.length]; lia.
Qed.

Lemma filter_split_xor {X : Type} (c d : X -> bool) (f : X -> Z) (l : list X) :
  Z.lxor (bitwise_xor_reduce (map f (filter (fun x => negb (c x) && d x) l)))
         (bitwise_xor_reduce (map f (filter (fun x => c x && d x) l)))
  = bitwise_xor_reduce (map f (filter d l)).
Proof.
  induction l as [|x l IH]; cbn [filter]; [reflexivity|].
  destruct (c x), (d x); cbn [negb andb map]; rewrite ?xor_reduce_cons, <- ?IH;
    try reflexivity.
  - rewrite <- !Z.lxor_assoc. f_equal. apply Z.lxor_comm.
  - rewrite Z.lxor_assoc. reflexivity.
Qed.

Section ParityRound.

Variable net : Net.
Hypothesis Hconn : connected net.
Hypothesis Hquiet : forall p, In p net -> quiet (self p).
Hypothesis Hdraws : forall p, In p net -> draws p = true.
Hypothesis Hlast : one_broadcasts_last net.

Lemma shares_drawn (p : Process) :
  In p net ->
  draw_bitstring (len (all_nodes (self p)) + 1) (parity_input (self p)) (tape p)
  = Done (shares p) (snd (drawn p))
  /\ List.length (shares p) = Datatypes.S (List.length (all_nodes (self p)))
  /\ bitwise_xor_reduce (shares p) = parity_input (self p).
Proof.
  intros Hp. pose proof (Hdraws p Hp) as Hd. unfold draws, shares, drawn in *.
  destruct (draw_bitstring (len (all_nodes (self p)) + 1) (parity_input (self p))
              (tape p)) as [bs t'| | |] eqn:E; try discriminate.
  destruct (draw_bitstring_inv _ _ _ _ _ E) as (H1 & _ & H3).
  cbn [fst snd]. repeat split; auto. rewrite H1. unfold len. lia.
Qed.

Lemma key_messages_kind :
  Forall (fun m => exists v, snd m = msg_parity_shared_key v)
    (flat_map key_messages net).
Proof.
  apply Forall_forall. intros m Hm. apply in_flat_map in Hm.
  destruct Hm as (p & _ & Hm). unfold key_messages in Hm.
  destruct m as [dst data]. apply in_combine_r in Hm. apply in_map_iff in Hm.
  destruct Hm as (v & <- & _). exists v. reflexivity.
Qed.

Lemma connection_in_ids (p : Process) (n : string) :
  In p net -> In n (all_nodes (self p)) -> In n (ids net).
Proof.
  intros Hp Hn. destruct Hconn as [_ Hmesh].
  apply (Permutation_in _ (Hmesh p Hp)) in Hn. apply filter_In in Hn. tauto.
Qed.

(** Every participant receives one share from each of the others. *)
Lemma keys_complete (p : Process) :
  In p net -> len (keys_of net p) = len (all_nodes (self p)) + 1.
Proof.
  intros Hp. unfold keys_of, len. cbn [List.length].
  rewrite length_map, inbox_flat_map.
  assert (E : List.length (flat_map (fun q => inbox (node_id (self p)) (key_messages q))
                             net)
              = List.length (filter (fun q => negb (String.eqb (node_id (self q))
                                                      (node_id (self p)))) net)).
  { assert (Hsub : forall q, In q net -> In q net) by auto. revert Hsub.
    generalize net at 1 3 4. intros l.
    induction l as [|q l IH]; intros Hsub; cbn [flat_map filter]; [reflexivity|].
    rewrite length_app, IH by (intros r Hr; apply Hsub; right; assumption).
    assert (Hq : In q net) by (apply Hsub; left; reflexivity).
    unfold key_messages. rewrite length_inbox_combine.
    - rewrite (count_connection net Hconn p q Hp Hq).
      rewrite (String.eqb_sym (node_id (self q))).
      destruct (String.eqb (node_id (self p)) (node_id (self q)));
        cbn [negb List.length]; lia.
    - rewrite length_map. destruct (shares_drawn q Hq) as (_ & Hl & _).
      destruct (shares q); cbn in *; lia. }
  rewrite E, (others net Hconn p Hp), (connections net Hconn p Hp).
  assert (0 < List.length net)%nat by (destruct net; [contradiction | cbn; lia]).
  lia.
Qed.

(** The xor of what the participants broadcast is the xor of their inputs. *)
Lemma xor_of_results :
  bitwise_xor_reduce (map (xor_key_result net) net) = parity_of net.
Proof.
  unfold xor_key_result, keys_of, parity_of.
  rewrite (xor_map_ext _ (fun p => Z.lxor (hd 0 (shares p))
             (bitwise_xor_reduce (map int_payload
                (inbox (node_id (self p)) (flat_map key_messages net))))))
    by (intros p _; apply xor_reduce_cons).
  rewrite xor_map_lxor, xor_of_inboxes.
  - rewrite map_of_flat_map.
    rewrite xor_flat_map, <- xor_map_lxor. apply xor_map_ext. intros p Hp.
    destruct (shares_drawn p Hp) as (_ & Hl & Hx). rewrite <- Hx.
    unfold key_messages. rewrite <- (map_map snd int_payload), map_snd_combine.
    + rewrite map_map. cbn [int_payload]. rewrite map_id.
      destruct (shares p); [discriminate | apply eq_sym, xor_reduce_cons].
    + rewrite length_map. destruct (shares p); cbn in *; lia.
  - apply Hconn.
  - intros m Hm. apply in_flat_map in Hm. destruct Hm as (p & Hp & Hm).
    unfold key_messages in Hm. apply in_combine_fst in Hm.
    eapply connection_in_ids; eauto.
Qed.

Lemma received_of_spec (p : Process) :
  In p net ->
  received_of net p
  = map (xor_key_result net)
      (filter (fun q => negb (parity_broadcasts_last (self q))
                        && negb (String.eqb (node_id (self q)) (node_id (self p))))
         net)
    ++ map (xor_key_result net)
         (filter (fun q => parity_broadcasts_last (self q)
                           && negb (String.eqb (node_id (self q)) (node_id (self p))))
            net).
Proof.
  intros Hp. unfold received_of, early_broadcasts, late_broadcasts.
  rewrite (inbox_of_broadcasts net Hconn p
             (fun q => parity_broadcasts_last (self q))
             (fun q => msg_parity_key_xor_result (xor_key_result net q)) Hp).
  pose proof (inbox_of_broadcasts net Hconn p
                (fun q => negb (parity_broadcasts_last (self q)))
                (fun q => msg_parity_key_xor_result (xor_key_result net q)) Hp) as E.
  rewrite (flat_map_ext _ (fun q => if parity_broadcasts_last (self q) then []
             else to_all q (msg_parity_key_xor_result (xor_key_result net q)))) in E
    by (intros q; destruct (parity_broadcasts_last (self q)); reflexivity).
  rewrite E, !map_map. reflexivity.
Qed.

Lemma received_complete (p : Process) :
  In p net -> len (received_of net p) = len (all_nodes (self p)).
Proof.
  intros Hp. rewrite (received_of_spec p Hp). unfold len.
  rewrite length_app, !length_map, filter_split_length.
  rewrite (others net Hconn p Hp), (connections net Hconn p Hp). reflexivity.
Qed.

Lemma early_complete (p : Process) :
  In p net -> parity_broadcasts_last (self p) = true ->
  map int_payload (inbox (node_id (self p)) (late_broadcasts net)) = [].
Proof.
  intros Hp Hl. pose proof (received_of_spec p Hp) as E.
  unfold late_broadcasts.
  rewrite (inbox_of_broadcasts net Hconn p
             (fun q => parity_broadcasts_last (self q))
             (fun q => msg_parity_key_xor_result (xor_key_result net q)) Hp).
  rewrite map_map, filter_none; [reflexivity|].
  intros q Hq. destruct (parity_broadcasts_last (self q)) eqn:Eq; [|reflexivity].
  rewrite (Hlast q p Hq Hp Eq Hl), String.eqb_refl. reflexivity.
Qed.

(** What a participant has received and its own value make up the values
    of all. *)
Lemma xor_of_received (p : Process) :
  In p net ->
  bitwise_xor_reduce (received_of net p ++ [xor_key_result net p]) = parity_of net.
Proof.
  intros Hp. rewrite xor_reduce_app, (received_of_spec p Hp), xor_reduce_app.
  rewrite (filter_split_xor (fun q => parity_broadcasts_last (self q))
             (fun q => negb (String.eqb (node_id (self q)) (node_id (self p))))).
  rewrite xor_reduce_cons. change (bitwise_xor_reduce []) with 0.
  rewrite Z.lxor_0_r, xor_with_others by (apply Hconn || assumption).
  apply xor_of_results.
Qed.

Lemma runs_send_key_bits s t (nodes : list string) :
  (forall n, In n nodes -> In n (all_nodes s)) ->
  forall (bits : list Z) o, List.length bits = List.length nodes ->
  runs (send_key_bits nodes bits) s t o tt s t
    (o ++ combine nodes (map msg_parity_shared_key bits)).
Proof.
  induction nodes as [|n nodes IH]; intros Hin [|b bits] o Hlen;
    cbn [send_key_bits combine map List.length] in *; try discriminate.
  - rewrite app_nil_r. apply runs_ret.
  - replace (o ++ (n, msg_parity_shared_key b)
               :: combine nodes (map msg_parity_shared_key bits))
      with ((o ++ [(n, msg_parity_shared_key b)])
              ++ combine nodes (map msg_parity_shared_key bits))
      by (rewrite <- app_assoc; reflexivity).
    eapply runs_bind; [|apply IH; [|congruence]].
    + pose proof (runs_send_to_each (msg_parity_shared_key b) s t [n]) as H.
      cbn [for_each map] in H.
      intros l. destruct (H ltac:(intros m [<-|[]]; apply Hin; left; reflexivity) o l)
        as [l' E].
      exists l'. unfold bind, ret in E.
      destruct (send_to_node n (msg_parity_shared_key b)
                  {| self := s; tape := t; outbox := o; log := l |}) as [[] ?| | |];
        first [exact E | discriminate E].
    + intros m Hm. apply Hin. right. exact Hm.
Qed.

(** [distribute_key_bits]: every participant draws its shares, keeps the
    first and sends one to each connection; all of them arrive. *)
Lemma distribute_key_bits_returns (cur : Net) :
  Forall2 (fun p q => looks (self p) (tape p) [] q) net cur ->
  exists net',
    distribute_key_bits cur = Done tt net'
    /\ Forall2 (fun p q =>
                  looks (upd_parity_shared_keys (keys_of net p) (self p))
                    (snd (drawn p)) [] q) net net'.
Proof.
  intros H0. unfold distribute_key_bits.
  destruct (each_yields (fun p => self p)
              (fun p => upd_parity_shared_keys [hd 0 (shares p)] (self p))
              (fun p => tape p) (fun p => snd (drawn p)) key_messages
              net cur distribute_key_bits_send H0) as (net1 & E1 & H1).
  { apply forallb_forall. intros m Hm.
    pose proof key_messages_kind as Hk. rewrite Forall_forall in Hk.
    destruct (Hk m Hm) as [v ->]. reflexivity. }
  { intros p q Hp Hq. eapply runs_yields; [|exact Hq].
    destruct (shares_drawn p Hp) as (Ed & Hl & _).
    destruct (Hquiet p Hp) as (Hk & _ & _).
    unfold distribute_key_bits_send.
    eapply runs_bind.
    { unfold create_bitstring.
      eapply runs_bind; [apply runs_the|]. eapply runs_bind; [apply runs_the|].
      apply runs_on_tape. exact Ed. }
    destruct (shares p) as [|b rest] eqn:Es; [discriminate|].
    eapply runs_bind; [apply runs_the|]. rewrite Hk. cbn [app hd].
    eapply runs_bind; [apply runs_assign|].
    eapply runs_bind; [apply runs_the|].
    unfold key_messages. rewrite Es. cbn [tl].
    apply (runs_send_key_bits (upd_parity_shared_keys [b] (self p)) (snd (drawn p))
             (all_nodes (self p)) (fun n Hn => Hn) rest []).
    cbn in Hl. lia. }
  apply (Forall2_looks_ext _
           (fun p => upd_parity_shared_keys (keys_of net p) (self p))) in H1.
  2:{ intros p Hp. rewrite (receive_all_keys _ _ key_messages_kind). reflexivity. }
  destruct (each_yields
              (fun p => upd_parity_shared_keys (keys_of net p) (self p))
              (fun p => upd_parity_shared_keys (keys_of net p) (self p))
              (fun p => snd (drawn p)) (fun p => snd (drawn p)) (fun _ => [])
              net net1 distribute_key_bits_wait H1) as (net2 & E2 & H2).
  { clear. induction net; [reflexivity | assumption]. }
  { intros p q Hp Hq. eapply runs_yields; [|exact Hq].
    unfold distribute_key_bits_wait.
    eapply runs_bind; [apply runs_the|].
    apply runs_wait. apply (keys_complete p Hp). }
  exists net2. split.
  - rewrite (bind_done _ E1). exact E2.
  - eapply Forall2_looks_ext; [|exact H2]. intros p Hp.
    replace (flat_map (fun _ : Process => []) net) with (@nil (string * message))
      by (clear; induction net; [reflexivity | assumption]).
    reflexivity.
Qed.

Lemma flat_map_nil {X Y : Type} (l : list X) :
  flat_map (fun _ : X => @nil Y) l = [].
Proof. induction l; [reflexivity | assumption]. Qed.

Lemma broadcasts_known (c : Process -> bool) (data : Process -> message) (l : Net) :
  (forall q, known (data q) = true) ->
  forallb (fun m => known (snd m))
    (flat_map (fun q => if c q then to_all q (data q) else []) l) = true.
Proof.
  intros Hk. apply forallb_forall. intros m Hm. apply in_flat_map in Hm.
  destruct Hm as (q & _ & Hm). destruct (c q); [|contradiction].
  unfold to_all in Hm. apply in_map_iff in Hm. destruct Hm as (n & <- & _).
  apply Hk.
Qed.

Lemma broadcasts_kind (c : Process -> bool) (data : Process -> message) (l : Net)
    (kind : message -> Prop) :
  (forall q, kind (data q)) ->
  Forall (fun m => kind (snd m))
    (flat_map (fun q => if c q then to_all q (data q) else []) l).
Proof.
  intros Hk. apply Forall_forall. intros m Hm. apply in_flat_map in Hm.
  destruct Hm as (q & _ & Hm). destruct (c q); [|contradiction].
  unfold to_all in Hm. apply in_map_iff in Hm. destruct Hm as (n & <- & _).
  apply Hk.
Qed.

Lemma early_broadcasts_alt :
  early_broadcasts net
  = flat_map (fun q => if negb (parity_broadcasts_last (self q))
                       then to_all q (msg_parity_key_xor_result (xor_key_result net q))
                       else []) net.
Proof.
  unfold early_broadcasts. apply flat_map_ext. intros q.
  destruct (parity_broadcasts_last (self q)); reflexivity.
Qed.

(** [calculate_and_broadcast_keys]: every participant ends up with the
    results of all the others and appends its own. *)
Lemma calculate_and_broadcast_keys_returns (cur : Net) :
  Forall2 (fun p q =>
             looks (upd_parity_shared_keys (keys_of net p) (self p))
               (snd (drawn p)) [] q) net cur ->
  exists net',
    calculate_and_broadcast_keys cur = Done tt net'
    /\ Forall2 (fun p q =>
                  looks (upd_parity_received_broadcast_values
                           (received_of net p ++ [xor_key_result net p])
                           (upd_parity_shared_keys (keys_of net p) (self p)))
                    (snd (drawn p)) [] q) net net'.
Proof.
  intros H1. unfold calculate_and_broadcast_keys.
  set (S1 := fun p => upd_parity_shared_keys (keys_of net p) (self p)) in *.
  set (T1 := fun p : Process => snd (drawn p)) in *.
  (* those that do not broadcast last send *)
  assert (Hk3 : forallb (fun m => known (snd m)) (early_broadcasts net) = true).
  { rewrite early_broadcasts_alt. apply broadcasts_known. reflexivity. }
  destruct (@each_local_yields Z S1 S1 T1 T1
              (fun q => if parity_broadcasts_last (self q) then []
                        else to_all q (msg_parity_key_xor_result (xor_key_result net q)))
              net cur H1 Hk3
              (parity_key_xor_result <- calculate_parity_xor_key_result ;;
               last <- the parity_broadcasts_last ;;
               (if last then ret tt
                else send_to_nodes (msg_parity_key_xor_result parity_key_xor_result)) ;;
               ret parity_key_xor_result)%py
              (xor_key_result net)) as (net3 & E3 & H3).
  { intros p q Hp Hq. eapply runs_yields; [|exact Hq].
    eapply runs_bind.
    { unfold calculate_parity_xor_key_result.
      eapply runs_bind; [apply runs_the | apply runs_ret]. }
    eapply runs_bind; [apply runs_the|].
    change (parity_broadcasts_last (S1 p)) with (parity_broadcasts_last (self p)).
    change (bitwise_xor_reduce (parity_shared_keys (S1 p))) with (xor_key_result net p).
    destruct (parity_broadcasts_last (self p)).
    - eapply runs_bind; apply runs_ret.
    - eapply runs_bind; [apply runs_broadcast; reflexivity | apply runs_ret]. }
  fold (early_broadcasts net) in H3.
  apply (Forall2_looks_ext _
           (fun p => upd_parity_received_broadcast_values
                       (map int_payload (inbox (node_id (self p)) (early_broadcasts net)))
                       (S1 p))) in H3.
  2:{ intros p Hp. rewrite receive_all_results.
      - destruct (Hquiet p Hp) as (_ & Hr & _).
        change (parity_received_broadcast_values (S1 p))
          with (parity_received_broadcast_values (self p)).
        rewrite Hr. reflexivity.
      - rewrite early_broadcasts_alt.
        apply (broadcasts_kind _ _ _
                 (fun d => exists v, d = msg_parity_key_xor_result v)).
        intros q. eexists. reflexivity. }
  (* one that broadcasts last finds their values and sends *)
  destruct (each_with_unit_yields _
              (fun p => upd_parity_received_broadcast_values
                          (map int_payload
                             (inbox (node_id (self p)) (early_broadcasts net)))
                          (S1 p))
              T1 T1
              (fun q => if parity_broadcasts_last (self q)
                        then to_all q (msg_parity_key_xor_result (xor_key_result net q))
                        else [])
              net net3 (xor_key_result net)
              (fun parity_key_xor_result =>
                 last <- the parity_broadcasts_last ;;
                 nodes <- the all_nodes ;;
                 if last
                 then wait_while_receiving in_parity_received_broadcast_values
                        (len nodes) ;;
                      send_to_nodes (msg_parity_key_xor_result parity_key_xor_result)
                 else ret tt)%py H3) as (net4 & E4 & H4).
  { apply broadcasts_known. reflexivity. }
  { intros p q Hp Hq. eapply runs_yields; [|exact Hq].
    eapply runs_bind; [apply runs_the|]. eapply runs_bind; [apply runs_the|].
    cbn [parity_broadcasts_last upd_parity_received_broadcast_values with_fields].
    change (parity_broadcasts_last (S1 p)) with (parity_broadcasts_last (self p)).
    destruct (parity_broadcasts_last (self p)) eqn:El.
    - eapply runs_bind; [|apply runs_broadcast; reflexivity].
      apply runs_wait. cbn [bucket_len].
      pose proof (received_complete p Hp) as Hc. unfold received_of in Hc.
      rewrite (early_complete p Hp El), app_nil_r in Hc. exact Hc.
    - apply runs_ret. }
  fold (late_broadcasts net) in H4.
  apply (Forall2_looks_ext _
           (fun p => upd_parity_received_broadcast_values (received_of net p) (S1 p)))
    in H4.
  2:{ intros p Hp. rewrite receive_all_results.
      - reflexivity.
      - unfold late_broadcasts.
        apply (broadcasts_kind _ _ _
                 (fun d => exists v, d = msg_parity_key_xor_result v)).
        intros q. eexists. reflexivity. }
  (* the others find its value; all append their own *)
  destruct (each_with_unit_yields _
              (fun p => upd_parity_received_broadcast_values
                          (received_of net p ++ [xor_key_result net p]) (S1 p))
              T1 T1 (fun _ => [])
              net net4 (xor_key_result net)
              (fun parity_key_xor_result =>
                 last <- the parity_broadcasts_last ;;
                 nodes <- the all_nodes ;;
                 (if last then ret tt
                  else wait_while_receiving in_parity_received_broadcast_values
                         (len nodes)) ;;
                 append_parity_received_broadcast_value parity_key_xor_result)%py H4)
    as (net5 & E5 & H5).
  { rewrite flat_map_nil. reflexivity. }
  { intros p q Hp Hq. eapply runs_yields; [|exact Hq].
    eapply runs_bind; [apply runs_the|]. eapply runs_bind; [apply runs_the|].
    eapply runs_bind.
    { instantiate (1 := []). instantiate (1 := T1 p).
      instantiate (1 := upd_parity_received_broadcast_values (received_of net p) (S1 p)).
      instantiate (1 := tt).
      destruct (parity_broadcasts_last
                  (upd_parity_received_broadcast_values (received_of net p) (S1 p))).
      - apply runs_ret.
      - apply runs_wait. apply (received_complete p Hp). }
    unfold append_parity_received_broadcast_value.
    eapply runs_bind; [apply runs_the|]. apply runs_assign_to. reflexivity. }
  exists net5. split.
  - rewrite (bind_done _ E3), (bind_done _ E4). exact E5.
  - eapply Forall2_looks_ext; [|exact H5]. intros p Hp.
    rewrite flat_map_nil. reflexivity.
Qed.

Lemma finished_complete (p : Process) (data : message) :
  In p net ->
  len (map flag_payload
         (inbox (node_id (self p)) (flat_map (fun q => to_all q data) net)))
  = len (all_nodes (self p)).
Proof.
  intros Hp.
  pose proof (inbox_of_broadcasts net Hconn p (fun _ => true) (fun _ => data) Hp) as E.
  cbn iota in E. rewrite E. unfold len. rewrite !length_map.
  rewrite (connections net Hconn p Hp), <- (others net Hconn p Hp).
  reflexivity.
Qed.

(** A round of the parity protocol: every participant returns, with the xor
    of all inputs as its result and its mailboxes empty again. *)
Lemma execute_parity_from (cur : Net) :
  Forall2 (fun p q => looks (self p) (tape p) [] q) net cur ->
  exists net',
    execute_parity cur = Done tt net'
    /\ Forall2 (fun p q =>
                  looks (upd_parity_result (parity_of net) (self p))
                    (snd (drawn p)) [] q) net net'.
Proof.
  intros H0. unfold execute_parity.
  destruct (distribute_key_bits_returns cur H0) as (net2 & E2 & H2).
  destruct (calculate_and_broadcast_keys_returns net2 H2) as (net5 & E5 & H5).
  set (S5 := fun p => upd_parity_received_broadcast_values
                        (received_of net p ++ [xor_key_result net p])
                        (upd_parity_shared_keys (keys_of net p) (self p))) in *.
  set (T1 := fun p : Process => snd (drawn p)) in *.
  set (S6 := fun p => upd_parity_received_broadcast_values []
                        (upd_parity_shared_keys []
                           (upd_parity_result (parity_of net) (S5 p)))).
  destruct (each_yields S5 S6 T1 T1
              (fun q => to_all q (msg_parity_finished true)) net net5
              (calculate_parity_result ;;
               assign (upd_parity_shared_keys []) ;;
               assign (upd_parity_received_broadcast_values []) ;;
               send_parity_finished_send)%py H5) as (net6 & E6 & H6).
  { apply (broadcasts_known (fun _ => true)). reflexivity. }
  { intros p q Hp Hq. eapply runs_yields; [|exact Hq].
    eapply runs_bind.
    { unfold calculate_parity_result.
      eapply runs_bind; [apply runs_the | apply runs_assign]. }
    eapply runs_bind; [apply runs_assign|].
    eapply runs_bind; [apply runs_assign|].
    unfold send_parity_finished_send.
    change (parity_received_broadcast_values (S5 p))
      with (received_of net p ++ [xor_key_result net p]).
    rewrite (xor_of_received p Hp).
    apply runs_broadcast. reflexivity. }
  apply (Forall2_looks_ext _
           (fun p => upd_parity_finished
                       (map flag_payload
                          (inbox (node_id (self p))
                             (flat_map (fun q => to_all q (msg_parity_finished true))
                                net)))
                       (S6 p))) in H6.
  2:{ intros p Hp. rewrite receive_all_parity_finished.
      - destruct (Hquiet p Hp) as (_ & _ & Hf).
        change (parity_finished (S6 p)) with (parity_finished (self p)).
        rewrite Hf. reflexivity.
      - apply (broadcasts_kind (fun _ => true) _ _
                 (fun d => exists v, d = msg_parity_finished v)).
        intros q. eexists. reflexivity. }
  destruct (each_yields _ (fun p => upd_parity_result (parity_of net) (self p))
              T1 T1 (fun _ => []) net net6 send_parity_finished_wait H6)
    as (net7 & E7 & H7).
  { rewrite flat_map_nil. reflexivity. }
  { intros p q Hp Hq. eapply runs_yields; [|exact Hq].
    unfold send_parity_finished_wait.
    eapply runs_bind; [apply runs_the|].
    eapply runs_bind; [apply runs_wait; apply (finished_complete p _ Hp)|].
    apply runs_assign_to.
    destruct (Hquiet p Hp) as (Hk & Hr & Hf). unfold S6, S5.
    destruct (self p). cbn in Hk, Hr, Hf. subst. reflexivity. }
  exists net7. split.
  - rewrite (bind_done _ E2), (bind_done _ E5), (bind_done _ E6). exact E7.
  - eapply Forall2_looks_ext; [|exact H7]. intros p Hp.
    rewrite flat_map_nil. reflexivity.
Qed.

End ParityRound.

(** ** Groups *)

Lemma distinct_NoDup (l : list string) : distinct l = true -> NoDup l.
Proof.
  induction l as [|n l IH]; cbn [distinct]; intros H; constructor.
  - apply andb_prop in H as [H _]. apply negb_true_iff in H.
    intros Hin. assert (existsb (String.eqb n) l = true); [|congruence].
    apply existsb_exists. exists n. split; [assumption | apply String.eqb_refl].
  - apply IH. apply andb_prop in H. tauto.
Qed.

Lemma same_members_Permutation (l1 l2 : list string) :
  same_members l1 l2 = true -> Permutation l1 l2.
Proof.
  unfold same_members. intros H. apply (Permutation_count_occ string_dec).
  intros n. rewrite forallb_forall in H.
  destruct (in_dec string_dec n (l1 ++ l2)) as [Hin|Hnin].
  - apply Nat.eqb_eq. apply H. assumption.
  - rewrite (proj1 (count_occ_not_In string_dec l1 n)),
      (proj1 (count_occ_not_In string_dec l2 n)); [reflexivity | |];
      intros Hin; apply Hnin; apply in_or_app; auto.
Qed.

Lemma connectedb_sound (net : Net) : connectedb net = true -> connected net.
Proof.
  unfold connectedb. intros H. apply andb_prop in H as [H1 H2]. split.
  - apply distinct_NoDup. assumption.
  - intros p Hp. rewrite forallb_forall in H2.
    apply same_members_Permutation. apply H2. assumption.
Qed.

Lemma looks_itself (net : Net) :
  (forall p, In p net -> outbox p = []) ->
  Forall2 (fun p q => looks (self p) (tape p) [] q) net net.
Proof.
  induction net as [|p net IH]; intros H; constructor.
  - repeat split. apply H. left. reflexivity.
  - apply IH. intros q Hq. apply H. right. assumption.
Qed.

Lemma Forall2_in_r {X Y : Type} (R : X -> Y -> Prop) (l : list X) (l' : list Y) (y : Y) :
  Forall2 R l l' -> In y l' -> exists x, In x l /\ R x y.
Proof.
  induction 1 as [|x y' l l' Hxy _ IH]; intros Hin; [contradiction|].
  destruct Hin as [->|Hin].
  - exists x. split; [left; reflexivity | assumption].
  - destruct (IH Hin) as (x' & Hx' & HR). exists x'. split; [right|]; assumption.
Qed.

(** ** C1: parity *)

(** C1: in a group whose participants are connected to each other, with empty
    mailboxes and none of them broadcasting last, whatever share vectors
    [create_bitstring] returns, all participants return from [execute_parity],
    each with the xor of all inputs as [parity_result]; nothing else of a
    participant has changed. This holds for groups of every size, two and
    more in particular. *)
Theorem parity_correct (net : Net) :
  connected net ->
  (forall p, In p net -> idle p) ->
  (forall p, In p net -> parity_broadcasts_last (self p) = false) ->
  (forall p, In p net -> draws p = true) ->
  exists net',
    execute_parity net = Done tt net'
    /\ Forall2 (fun p q => self q = upd_parity_result (parity_of net) (self p)) net net'
    /\ forall q, In q net' -> parity_result (self q) = parity_of net.
Proof.
  intros Hconn Hidle Hlast Hdraws.
  destruct (execute_parity_from net Hconn (fun p Hp => proj1 (Hidle p Hp)) Hdraws)
    with (cur := net) as (net' & E & H).
  - intros p q Hp Hq Hlp. rewrite (Hlast p Hp) in Hlp. discriminate.
  - apply looks_itself. intros p Hp. apply (Hidle p Hp).
  - exists net'. split; [exact E|]. split.
    + eapply Forall2_impl; [|exact H]. intros p q (Hs & _). exact Hs.
    + intros q Hq. destruct (Forall2_in_r _ _ _ q H Hq) as (p & _ & Hs & _).
      rewrite Hs. reflexivity.
Qed.

Lemma parity_correct_witness :
  exists net',
    execute_parity parity_example = Done tt net'
    /\ Forall2 (fun p q => self q = upd_parity_result (parity_of parity_example) (self p))
         parity_example net'
    /\ forall q, In q net' -> parity_result (self q) = parity_of parity_example.
Proof.
  apply parity_correct.
  - apply connectedb_sound. vm_compute. reflexivity.
  - intros p [<-|[<-|[<-|[]]]]; vm_compute; auto.
  - intros p [<-|[<-|[<-|[]]]]; vm_compute; reflexivity.
  - intros p [<-|[<-|[<-|[]]]]; vm_compute; reflexivity.
Defined.

(** ** Groups in a state *)

Lemma ids_step (f : Process -> ParticipantNode) (g : Process -> list bool)
    (cur cur' : Net) :
  Forall2 (fun p q => looks (f p) (g p) [] q) cur cur' ->
  (forall p, In p cur -> node_id (f p) = node_id (self p)) ->
  ids cur' = ids cur.
Proof.
  unfold ids. induction 1 as [|p q cur cur' (Hs & _) _ IH]; intros Hid; cbn [map].
  - reflexivity.
  - rewrite Hs, (Hid p (or_introl eq_refl)), IH; [reflexivity|].
    intros r Hr. apply Hid. right. exact Hr.
Qed.

Lemma step_state (P Q : ParticipantNode -> list bool -> Prop)
    (f : Process -> ParticipantNode) (g : Process -> list bool) (cur cur' : Net) :
  in_state P cur ->
  Forall2 (fun p q => looks (f p) (g p) [] q) cur cur' ->
  (forall p, In p cur -> P (self p) (tape p) ->
     Q (f p) (g p) /\ node_id (f p) = node_id (self p)
     /\ all_nodes (f p) = all_nodes (self p)) ->
  in_state Q cur'.
Proof.
  intros (Hne & [Hnd Hmesh] & HP) H Hstep.
  assert (Hids : ids cur' = ids cur).
  { apply (ids_step f g cur cur' H). intros p Hp.
    apply (Hstep p Hp (proj1 (HP p Hp))). }
  split; [|split; [split|]].
  - destruct H; congruence.
  - rewrite Hids. exact Hnd.
  - intros q Hq. destruct (Forall2_in_r _ _ _ q H Hq) as (p & Hp & Hs & _).
    destruct (Hstep p Hp (proj1 (HP p Hp))) as (_ & Hid & Hall).
    rewrite Hids, Hs, Hid, Hall. apply Hmesh. exact Hp.
  - intros q Hq. destruct (Forall2_in_r _ _ _ q H Hq) as (p & Hp & Hs & Ht & Ho).
    destruct (Hstep p Hp (proj1 (HP p Hp))) as (HQ & _).
    rewrite Hs, Ht. split; assumption.
Qed.

Lemma in_state_looks (P : ParticipantNode -> list bool -> Prop) (cur : Net) :
  in_state P cur -> Forall2 (fun p q => looks (self p) (tape p) [] q) cur cur.
Proof. intros (_ & _ & HP). apply looks_itself. intros p Hp. apply (HP p Hp). Qed.

(** A stretch that sends nothing *)
Lemma each_state (P Q : ParticipantNode -> list bool -> Prop)
    (f : ParticipantNode -> list bool -> ParticipantNode)
    (g : ParticipantNode -> list bool -> list bool)
    (body : M Process unit) (cur : Net) :
  in_state P cur ->
  (forall s t, P s t ->
     runs body s t [] tt (f s t) (g s t) []
     /\ Q (f s t) (g s t) /\ node_id (f s t) = node_id s
     /\ all_nodes (f s t) = all_nodes s) ->
  exists cur', each body cur = Done tt cur' /\ in_state Q cur'.
Proof.
  intros Hin Hbody.
  destruct (each_yields (fun p => self p) (fun p => f (self p) (tape p))
              (fun p => tape p) (fun p => g (self p) (tape p)) (fun _ => [])
              cur cur body (in_state_looks P cur Hin)) as (cur' & E & H).
  - rewrite flat_map_nil. reflexivity.
  - intros p q Hp Hq. eapply runs_yields; [|exact Hq].
    apply Hbody. apply (proj2 (proj2 Hin) p Hp).
  - exists cur'. split; [exact E|].
    apply (step_state P Q (fun p => f (self p) (tape p)) (fun p => g (self p) (tape p))
             cur cur' Hin).
    + eapply Forall2_looks_ext; [|exact H]. intros p Hp.
      rewrite flat_map_nil. reflexivity.
    + intros p Hp HP. apply Hbody. exact HP.
Qed.

Lemma agree_state {A : Type} (P : ParticipantNode -> list bool -> Prop)
    (eqb : A -> A -> bool) (h : ParticipantNode -> A) (v : A) (cur : Net) :
  in_state P cur ->
  (forall s t, P s t -> h s = v) -> eqb v v = true ->
  agree eqb h cur = Done v cur.
Proof.
  intros (Hne & _ & HP) Hh Hv. destruct cur as [|p cur]; [congruence|].
  unfold agree.
  rewrite (Hh _ _ (proj1 (HP p (or_introl eq_refl)))).
  assert (E : forallb (fun q => eqb (h (self q)) v) cur = true).
  { apply forallb_forall. intros q Hq.
    rewrite (Hh _ _ (proj1 (HP q (or_intror Hq)))). exact Hv. }
  rewrite E. reflexivity.
Qed.

(** A barrier: every participant tells all the others that it has finished
    and waits for them. [roster] and [clear] are the list of the barrier and
    its reset. *)
Section Barrier.

Variable data : message.
Variable b : bucket.
Variable roster : ParticipantNode -> list bool.
Variable set_roster : list bool -> ParticipantNode -> ParticipantNode.
Hypothesis Hknown : known data = true.
Hypothesis Hlen : forall s, bucket_len b s = len (roster s).
Hypothesis Hreceive :
  forall id msgs, Forall (fun m => snd m = data) msgs ->
  forall s, receive_all id msgs s
            = set_roster (roster s ++ map flag_payload (inbox id msgs)) s.
Hypothesis Hroster : forall l s, roster (set_roster l s) = l.
Hypothesis Hnodes : forall l s, all_nodes (set_roster l s) = all_nodes s.
Hypothesis Hid : forall l s, node_id (set_roster l s) = node_id s.
Hypothesis Hset : forall l s, roster s = [] -> set_roster [] (set_roster l s) = s.

Lemma barrier_state (P : ParticipantNode -> list bool -> Prop) (cur : Net) :
  in_state P cur ->
  (forall s t, P s t -> roster s = []) ->
  exists cur',
    (each (send_to_nodes data) ;;
     each (nodes <- the all_nodes ;;
           wait_while_receiving b (len nodes) ;;
           assign (set_roster [])))%py cur = Done tt cur'
    /\ in_state P cur'.
Proof.
  intros Hin Hempty.
  destruct (each_yields (fun p => self p) (fun p => self p)
              (fun p => tape p) (fun p => tape p) (fun q => to_all q data)
              cur cur (send_to_nodes data) (in_state_looks P cur Hin))
    as (cur1 & E1 & H1).
  - apply (broadcasts_known (fun _ => true) (fun _ => data)). intros _. exact Hknown.
  - intros p q Hp Hq. eapply runs_yields; [|exact Hq].
    apply runs_broadcast. reflexivity.
  - set (S1 := fun p => set_roster
                         (map flag_payload
                            (inbox (node_id (self p))
                               (flat_map (fun q => to_all q data) cur)))
                         (self p)).
    apply (Forall2_looks_ext _ S1) in H1.
    2:{ intros p Hp. rewrite Hreceive.
        - rewrite (Hempty _ _ (proj1 (proj2 (proj2 Hin) p Hp))). reflexivity.
        - apply (broadcasts_kind (fun _ => true) (fun _ => data) cur
                   (fun d => d = data)). reflexivity. }
    destruct (each_yields S1 (fun p => self p) (fun p => tape p) (fun p => tape p)
                (fun _ => []) cur cur1
                (nodes <- the all_nodes ;;
                 wait_while_receiving b (len nodes) ;;
                 assign (set_roster []))%py H1) as (cur2 & E2 & H2).
    + rewrite flat_map_nil. reflexivity.
    + intros p q Hp Hq. eapply runs_yields; [|exact Hq].
      eapply runs_bind; [apply runs_the|].
      eapply runs_bind.
      * apply runs_wait. unfold S1. rewrite Hlen, Hroster, Hnodes.
        apply (finished_complete cur (proj1 (proj2 Hin)) p data Hp).
      * apply runs_assign_to. unfold S1. apply Hset.
        apply (Hempty _ _ (proj1 (proj2 (proj2 Hin) p Hp))).
    + exists cur2. split.
      * rewrite (bind_done _ E1). exact E2.
      * apply (step_state P P (fun p => self p) (fun p => tape p) cur cur2 Hin).
        -- eapply Forall2_looks_ext; [|exact H2]. intros p Hp.
           rewrite flat_map_nil. reflexivity.
        -- intros p Hp HP. auto.
Qed.

End Barrier.

Lemma send_veto_finished_state (P : ParticipantNode -> list bool -> Prop) (cur : Net) :
  in_state P cur ->
  (forall s t, P s t -> veto_finished s = []) ->
  exists cur', send_veto_finished cur = Done tt cur' /\ in_state P cur'.
Proof.
  intros Hin Hempty. unfold send_veto_finished.
  apply (barrier_state (msg_veto_finished true) in_veto_finished veto_finished
           upd_veto_finished); auto.
  - intros id msgs Hk s. apply receive_all_veto_finished.
    eapply Forall_impl; [|exact Hk]. intros m ->. eexists. reflexivity.
  - intros l s Hs. destruct s. cbn in Hs. subst. reflexivity.
Qed.


(** ** Veto without a veto *)

Lemma parity_of_zeros (cur : Net) :
  (forall q, In q cur -> parity_input (self q) = 0) -> parity_of cur = 0.
Proof.
  unfold parity_of. induction cur as [|q cur IH]; intros H; cbn [map].
  - reflexivity.
  - rewrite xor_reduce_cons, (H q (or_introl eq_refl)), Z.lxor_0_l.
    apply IH. intros r Hr. apply H. right. exact Hr.
Qed.

Lemma execute_parity_state (P : ParticipantNode -> list bool -> Prop) (cur : Net) :
  in_state P cur ->
  (forall s t, P s t -> quiet s) ->
  (forall q, In q cur -> draws q = true) ->
  one_broadcasts_last cur ->
  exists cur',
    execute_parity cur = Done tt cur'
    /\ Forall2 (fun p q =>
                  looks (upd_parity_result (parity_of cur) (self p))
                    (snd (drawn p)) [] q) cur cur'.
Proof.
  intros Hin Hq Hd Hl.
  apply (execute_parity_from cur (proj1 (proj2 Hin))); auto.
  - intros p Hp. apply (Hq _ _ (proj1 (proj2 (proj2 Hin) p Hp))).
  - apply (in_state_looks P). exact Hin.
Qed.

Section NoVeto.

Variable ids0 : list string.

(** A round of the inner loop of [execute_veto] when nobody vetoes: the
    parity round gives 0 and the loop goes on. *)
Lemma veto_parity_round_state (k : nat) (last : option string) (zero : bool) (cur : Net) :
  in_state (not_vetoing ids0 (Datatypes.S k) last zero) cur ->
  exists cur',
    veto_parity_round cur = Done Next cur'
    /\ in_state (not_vetoing ids0 k last true) cur'.
Proof.
  intros Hin. unfold veto_parity_round.
  (* the inputs *)
  destruct (each_state (not_vetoing ids0 (Datatypes.S k) last zero)
              (fun s t => not_vetoing ids0 (Datatypes.S k) last zero s t
                          /\ parity_input s = 0)
              (fun s _ => upd_parity_input 0 s) (fun _ t => t)
              set_parity_input_by_veto_input cur Hin) as (cur1 & E1 & H1).
  { intros s t HP. split; [|split; [|split]]; try reflexivity.
    - destruct HP as (_ & Hv & _). unfold set_parity_input_by_veto_input.
      eapply runs_bind; [apply runs_the|]. rewrite Hv. cbn [Z.eqb].
      apply runs_on_self. reflexivity.
    - split; [exact HP | reflexivity]. }
  (* the parity round *)
  destruct (execute_parity_state _ cur1 H1) as (cur2 & E2 & H2).
  { intros s t [HP _]. apply HP. }
  { intros q Hq. destruct (proj2 (proj2 H1) q Hq) as [[HP Hi] _].
    destruct HP as (_ & _ & _ & _ & Hl & _). unfold draws. rewrite Hi.
    cbn [lasts] in Hl.
    destruct (draw_bitstring (len (all_nodes (self q)) + 1) 0 (tape q));
      [reflexivity | discriminate..]. }
  { intros p q Hp Hq Hlp Hlq.
    destruct (proj2 (proj2 H1) p Hp) as [[HPp _] _].
    destruct (proj2 (proj2 H1) q Hq) as [[HPq _] _].
    destruct HPp as (_ & _ & _ & _ & _ & Hfp & _).
    destruct HPq as (_ & _ & _ & _ & _ & Hfq & _).
    specialize (Hfp Hlp). specialize (Hfq Hlq). congruence. }
  assert (Hzero : parity_of cur1 = 0).
  { apply parity_of_zeros. intros q Hq. apply (proj2 (proj2 H1) q Hq). }
  rewrite Hzero in H2.
  assert (Hin2 : in_state (fun s t => not_vetoing ids0 k last zero s t
                                      /\ parity_result s = 0) cur2).
  { apply (step_state _ _ _ _ cur1 cur2 H1 H2).
    intros p Hp [HP Hi]. split; [|split; reflexivity]. split; [|reflexivity].
    destruct HP as (Hq & Hv & Hf & Ha & Hl & Hb & Hz).
    repeat split; try assumption; try apply Hq.
    unfold drawn. rewrite Hi. cbn [lasts] in Hl.
    destruct (draw_bitstring (len (all_nodes (self p)) + 1) 0 (tape p));
      [exact Hl | discriminate..]. }
  (* the result *)
  destruct (each_state _ (not_vetoing ids0 k last true)
              (fun s _ => upd_veto_result (parity_result s) s) (fun _ t => t)
              (result <- the parity_result ;; assign (upd_veto_result result))%py
              cur2 Hin2) as (cur3 & E3 & H3).
  { intros s t [HP Hr]. split; [|split; [|split]]; try reflexivity.
    - eapply runs_bind; [apply runs_the | apply runs_assign].
    - destruct HP as (Hq & Hv & Hf & Ha & Hl & Hb & Hz).
      repeat split; try assumption; try apply Hq.
      intros _. exact Hr. }
  exists cur3. split; [|exact H3].
  rewrite (bind_done _ E1), (bind_done _ E2), (bind_done _ E3).
  rewrite (bind_done _ (agree_state (not_vetoing ids0 k last true) Bool.eqb
                          (fun p => veto_result p =? 1) false cur3 H3
                          ltac:(intros s t (_ & _ & _ & _ & _ & _ & Hz);
                                rewrite (Hz eq_refl); reflexivity)
                          eq_refl)).
  reflexivity.
Qed.

Lemma not_vetoing_weaken (k : nat) (last : option string) (zero zero' : bool)
    (s : ParticipantNode) (t : list bool) :
  (zero' = true -> zero = true) ->
  not_vetoing ids0 k last zero s t -> not_vetoing ids0 k last zero' s t.
Proof.
  intros Hz (Hq & Hv & Hf & Ha & Hl & Hb & Hr).
  repeat split; try assumption; try apply Hq. intros H. apply Hr, Hz, H.
Qed.

Lemma in_state_weaken (P Q : ParticipantNode -> list bool -> Prop) (cur : Net) :
  (forall s t, P s t -> Q s t) -> in_state P cur -> in_state Q cur.
Proof.
  intros HPQ (Hne & Hc & HP). repeat split; try assumption; try apply Hc.
  - apply HPQ. apply (HP q H).
  - apply (HP q H).
Qed.

Lemma veto_inner_loop (last : option string) (l : list Z) :
  forall (k : nat) (zero : bool) (cur : Net),
    in_state (not_vetoing ids0 (List.length l + k) last zero) cur ->
    exists cur',
      for_until l (fun _ => veto_parity_round) cur = Done Next cur'
      /\ in_state (not_vetoing ids0 k last (zero || nonempty l)) cur'.
Proof.
  induction l as [|i l IH]; intros k zero cur Hin; cbn [for_until List.length] in *.
  - exists cur. split; [reflexivity|].
    eapply in_state_weaken; [|exact Hin]. intros s t.
    apply not_vetoing_weaken. rewrite orb_false_r. auto.
  - destruct (veto_parity_round_state _ _ _ _ Hin) as (cur1 & E1 & H1).
    destruct (IH k true cur1 H1) as (cur2 & E2 & H2).
    exists cur2. split.
    + rewrite (bind_done _ E1). exact E2.
    + eapply in_state_weaken; [|exact H2]. intros s t.
      apply not_vetoing_weaken. auto.
Qed.

Lemma veto_rounds_for_state (veto_security : Z) (j k : nat) (zero : bool) (cur : Net) :
  in_state (not_vetoing ids0 (Z.to_nat veto_security + k) None zero) cur ->
  exists cur',
    veto_rounds_for veto_security j cur = Done Next cur'
    /\ in_state (not_vetoing ids0 k None
                   (zero || nonempty (range 1 (veto_security + 1)))) cur'.
Proof.
  intros Hin. unfold veto_rounds_for.
  assert (Hrange : List.length (range 1 (veto_security + 1)) = Z.to_nat veto_security).
  { unfold range. rewrite length_map, length_seq. f_equal. lia. }
  destruct (each_state _
              (not_vetoing ids0 (List.length (range 1 (veto_security + 1)) + k)
                 (Some (entry j ids0)) zero)
              (fun s _ => if String.eqb (entry j (all_node_ids s)) (node_id s)
                          then upd_parity_broadcasts_last true s else s)
              (fun _ t => t)
              (ids <- the all_node_ids ;;
               id <- the node_id ;;
               let last_broadcaster := entry j ids in
               if String.eqb last_broadcaster id
               then assign (upd_parity_broadcasts_last true)
               else ret tt)%py cur Hin) as (cur1 & E1 & H1).
  { intros s t (Hq & Hv & Hf & Ha & Hl & Hb & Hr). rewrite Hrange.
    split; [|split; [|split]].
    - eapply runs_bind; [apply runs_the|]. eapply runs_bind; [apply runs_the|].
      cbn zeta. destruct (String.eqb (entry j (all_node_ids s)) (node_id s));
        [apply runs_assign | apply runs_ret].
    - rewrite Ha.
      destruct (String.eqb (entry j ids0) (node_id s)) eqn:E.
      + apply String.eqb_eq in E.
        repeat split; try assumption; try apply Hq.
        intros _. f_equal. exact E.
      + repeat split; try assumption; try apply Hq.
        intros Hl'. specialize (Hb Hl'). discriminate.
    - destruct (String.eqb (entry j (all_node_ids s)) (node_id s)); reflexivity.
    - destruct (String.eqb (entry j (all_node_ids s)) (node_id s)); reflexivity. }
  destruct (veto_inner_loop _ _ _ _ _ H1) as (cur2 & E2 & H2).
  destruct (each_state _
              (not_vetoing ids0 k None (zero || nonempty (range 1 (veto_security + 1))))
              (fun s _ => upd_parity_broadcasts_last false s) (fun _ t => t)
              (assign (upd_parity_broadcasts_last false)) cur2 H2) as (cur3 & E3 & H3).
  { intros s t (Hq & Hv & Hf & Ha & Hl & Hb & Hr).
    split; [|split; [|split]]; try reflexivity.
    - apply runs_assign.
    - repeat split; try assumption; try apply Hq. intros H. discriminate. }
  exists cur3. split; [|exact H3].
  rewrite (bind_done _ E1), (bind_done _ E2). cbn iota.
  rewrite (bind_done _ E3). reflexivity.
Qed.

Lemma veto_outer_loop (veto_security : Z) (l : list nat) :
  forall (k : nat) (zero : bool) (cur : Net),
    in_state (not_vetoing ids0 (List.length l * Z.to_nat veto_security + k) None zero)
      cur ->
    exists cur',
      for_until l (veto_rounds_for veto_security) cur = Done Next cur'
      /\ in_state (not_vetoing ids0 k None
                     (zero || (nonempty l && nonempty (range 1 (veto_security + 1)))))
           cur'.
Proof.
  induction l as [|j l IH]; intros k zero cur Hin; cbn [for_until List.length] in *.
  - exists cur. split; [reflexivity|].
    eapply in_state_weaken; [|exact Hin]. intros s t.
    apply not_vetoing_weaken. cbn. rewrite orb_false_r. auto.
  - replace ((Datatypes.S (List.length l)) * Z.to_nat veto_security + k)%nat
      with (Z.to_nat veto_security + (List.length l * Z.to_nat veto_security + k))%nat
      in Hin by lia.
    destruct (veto_rounds_for_state _ j _ _ _ Hin) as (cur1 & E1 & H1).
    destruct (IH k _ cur1 H1) as (cur2 & E2 & H2).
    exists cur2. split.
    + rewrite (bind_done _ E1). exact E2.
    + eapply in_state_weaken; [|exact H2]. intros s t.
      apply not_vetoing_weaken. cbn [nonempty andb].
      destruct zero, (nonempty (range 1 (veto_security + 1))), (nonempty l);
        cbn; auto.
Qed.

(** [execute_veto] when nobody vetoes: all return, and the result is 0 as
    soon as one round has run or the result was 0 before. *)
Lemma execute_veto_state (veto_security : Z) (zero : bool) (cur : Net) :
  in_state (not_vetoing ids0 (List.length ids0 * Z.to_nat veto_security) None zero)
    cur ->
  exists cur',
    execute_veto veto_security cur = Done tt cur'
    /\ in_state (not_vetoing ids0 0 None
                   (zero || (nonempty ids0 && nonempty (range 1 (veto_security + 1)))))
         cur'.
Proof.
  intros Hin. unfold execute_veto.
  assert (Er : rounds_of_all_node_ids cur = Done (seq 0 (List.length ids0)) cur).
  { unfold rounds_of_all_node_ids.
    rewrite (bind_done _ (agree_state _ Nat.eqb
                            (fun p => List.length (all_node_ids p)) (List.length ids0)
                            cur Hin
                            ltac:(intros s t (_ & _ & _ & Ha & _); rewrite Ha; reflexivity)
                            (Nat.eqb_refl _))).
    reflexivity. }
  rewrite (bind_done _ Er).
  replace (List.length ids0 * Z.to_nat veto_security)%nat
    with (List.length (seq 0 (List.length ids0)) * Z.to_nat veto_security + 0)%nat
    in Hin by (rewrite length_seq; lia).
  destruct (veto_outer_loop veto_security (seq 0 (List.length ids0)) 0 zero cur Hin)
    as (cur1 & E1 & H1).
  rewrite (bind_done _ E1).
  destruct (send_veto_finished_state _ cur1 H1) as (cur2 & E2 & H2).
  { intros s t (_ & _ & Hf & _). exact Hf. }
  exists cur2. split; [exact E2|].
  eapply in_state_weaken; [|exact H2]. intros s t.
  apply not_vetoing_weaken.
  destruct ids0; cbn [nonempty seq List.length]; auto.
Qed.

End NoVeto.

Lemma range_nonempty (hi : Z) : 1 <= hi -> nonempty (range 1 (hi + 1)) = true.
Proof.
  intros H. unfold range. replace (hi + 1 - 1) with hi by lia.
  destruct (Z.to_nat hi) eqn:E; [lia | reflexivity].
Qed.

(** C8: in a connected group in which nobody vetoes, with a security
    parameter of at least 1, every participant returns from [execute_veto]
    with [veto_result = 0], whatever the random bits are, as long as the
    tapes hold enough of them for the share vectors of all rounds. The rounds
    follow [all_node_ids], the same list [ids0] at every participant; with an
    empty list no round is run and the result is the one before, so the
    result must have been 0 then. *)
Theorem veto_sound (veto_security : Z) (ids0 : list string) (net : Net) :
  1 <= veto_security ->
  net <> [] ->
  connected net ->
  (forall p, In p net ->
     idle p /\ veto_finished (self p) = []
     /\ parity_broadcasts_last (self p) = false
     /\ all_node_ids (self p) = ids0) ->
  (ids0 <> [] \/ forall p, In p net -> veto_result (self p) = 0) ->
  (forall p, In p net -> veto_input (self p) = 0) ->
  (forall p, In p net ->
     lasts (List.length ids0 * Z.to_nat veto_security)
       (len (all_nodes (self p)) + 1) 0 (tape p) = true) ->
  exists net',
    execute_veto veto_security net = Done tt net'
    /\ forall q, In q net' -> veto_result (self q) = 0.
Proof.
  intros Hsec Hne Hconn Hready Hzero Hinput Htape.
  destruct (execute_veto_state ids0 veto_security (negb (nonempty ids0)) net)
    as (net' & E & H).
  - split; [exact Hne|]. split; [exact Hconn|]. intros q Hq.
    destruct (Hready q Hq) as ((Hquiet & Hout) & Hf & Hl & Ha).
    split; [|exact Hout].
    repeat split; try assumption; try apply Hquiet; auto.
    + intros H. congruence.
    + destruct Hzero as [H0|H0]; [|auto].
      destruct ids0; [congruence | discriminate].
  - exists net'. split; [exact E|]. intros q Hq.
    destruct (proj2 (proj2 H) q Hq) as [(_ & _ & _ & _ & _ & _ & Hz) _].
    apply Hz. rewrite (range_nonempty _ Hsec). destruct ids0; reflexivity.
Qed.

Lemma veto_sound_witness :
  exists net',
    execute_veto 3 veto_example = Done tt net'
    /\ forall q, In q net' -> veto_result (self q) = 0.
Proof.
  apply (veto_sound 3 ["1"; "2"]%string veto_example).
  - lia.
  - discriminate.
  - apply connectedb_sound. vm_compute. reflexivity.
  - intros p [<-|[<-|[]]]; vm_compute; auto.
  - left. discriminate.
  - intros p [<-|[<-|[]]]; vm_compute; reflexivity.
  - intros p [<-|[<-|[]]]; vm_compute; reflexivity.
Defined.

(** ** Notification *)

Lemma runs_send_to_some (data : message) (c : string -> bool) s t (nodes : list string) :
  (forall n, In n nodes -> In n (all_nodes s)) ->
  forall o,
    runs (for_each nodes (fun n => if c n then send_to_node n data else ret tt))
      s t o tt s t (o ++ map (fun n => (n, data)) (filter c nodes)).
Proof.
  induction nodes as [|n nodes IH]; intros Hin o; cbn [for_each filter].
  - rewrite app_nil_r. apply runs_ret.
  - assert (Hrest : forall m, In m nodes -> In m (all_nodes s))
      by (intros m Hm; apply Hin; right; exact Hm).
    destruct (c n); cbn [map].
    + replace (o ++ (n, data) :: map (fun n0 => (n0, data)) (filter c nodes))
        with ((o ++ [(n, data)]) ++ map (fun n0 => (n0, data)) (filter c nodes))
        by (rewrite <- app_assoc; reflexivity).
      eapply runs_bind; [|apply (IH Hrest)].
      pose proof (runs_send_to_each data s t [n]) as H. cbn [for_each map] in H.
      intros l. destruct (H ltac:(intros m [<-|[]]; apply Hin; left; reflexivity) o l)
        as [l' E].
      exists l'. unfold bind, ret in E.
      destruct (send_to_node n data {| self := s; tape := t; outbox := o; log := l |})
        as [[] ?| | |]; first [exact E | discriminate E].
    + eapply runs_bind; [apply runs_ret | apply (IH Hrest)].
Qed.

Lemma runs_send_to_node_by_id (receiver_id : string) (data : message) s t :
  runs (send_to_node_by_id receiver_id data) s t [] tt s t
    (map (fun n => (n, data)) (filter (fun n => String.eqb n receiver_id) (all_nodes s))).
Proof.
  unfold send_to_node_by_id. eapply runs_bind; [apply runs_the|].
  apply (runs_send_to_some data (fun n => String.eqb n receiver_id) s t (all_nodes s)
           (fun n Hn => Hn) []).
Qed.

Lemma count_occ_filter_eq (id e : string) (l : list string) :
  count_occ string_dec (filter (fun n => String.eqb n e) l) id
  = if String.eqb id e then count_occ string_dec l id else 0%nat.
Proof.
  induction l as [|n l IH]; cbn [filter count_occ].
  - destruct (String.eqb id e); reflexivity.
  - destruct (String.eqb n e) eqn:En; cbn [count_occ].
    + apply String.eqb_eq in En. subst n. rewrite IH.
      destruct (String.eqb id e) eqn:Ei.
      * reflexivity.
      * apply String.eqb_neq in Ei.
        destruct (string_dec e id); [congruence | reflexivity].
    + rewrite IH. destruct (String.eqb id e) eqn:Ei; [|reflexivity].
      apply String.eqb_eq in Ei. subst id. apply String.eqb_neq in En.
      destruct (string_dec n e); [congruence | reflexivity].
Qed.

Section Whispers.

Variable net : Net.
Hypothesis Hconn : connected net.

(** The spectator hears every other participant once; nobody else hears
    anything. *)
Lemma inbox_of_whispers (e : string) (p : Process) (data : Process -> message)
    (l : list Process) :
  In p net -> (forall q, In q l -> In q net) ->
  inbox (node_id (self p))
    (flat_map (fun q =>
                 if String.eqb e (node_id (self q)) then []
                 else map (fun n => (n, data q))
                        (filter (fun n => String.eqb n e) (all_nodes (self q))))
       l)
  = if String.eqb (node_id (self p)) e
    then map data
           (filter (fun q => negb (String.eqb (node_id (self q)) (node_id (self p)))) l)
    else [].
Proof.
  intros Hp. rewrite inbox_flat_map.
  induction l as [|q l IH]; intros Hsub; cbn [flat_map filter map].
  - destruct (String.eqb (node_id (self p)) e); reflexivity.
  - rewrite IH by (intros r Hr; apply Hsub; right; assumption).
    assert (Hq : In q net) by (apply Hsub; left; reflexivity).
    destruct (String.eqb e (node_id (self q))) eqn:Eq.
    + apply String.eqb_eq in Eq. subst e.
      change (inbox (node_id (self p)) []) with (@nil message). cbn [app].
      destruct (String.eqb (node_id (self p)) (node_id (self q))) eqn:Ep; [|reflexivity].
      rewrite String.eqb_sym, Ep. reflexivity.
    + rewrite inbox_to_all, count_occ_filter_eq.
      destruct (String.eqb (node_id (self p)) e) eqn:Ep; [|reflexivity].
      apply String.eqb_eq in Ep. subst e.
      rewrite (count_connection net Hconn p q Hp Hq), Eq.
      rewrite String.eqb_sym, Eq. reflexivity.
Qed.

End Whispers.

Lemma randbits1_bit (t : list bool) (bit : Z) (t' : list bool) :
  randbits1 t = Done bit t' -> parity_input_setter bit = modify (upd_parity_input bit).
Proof.
  destruct t as [|b t]; [discriminate|]. cbn. intros E. injection E as <- _.
  destruct b; reflexivity.
Qed.

Section NotificationRound.

Variables (ids0 : list string) (target : string).

Lemma notification_choice (e : string) (rest : list string) (cur : Net) :
  e <> ""%string ->
  in_state (notifying ids0 target (e :: rest)) cur ->
  forall k, e = entry k ids0 ->
  exists cur1,
    each (ids <- the all_node_ids ;;
          set_notification_parity_by_notification_input (entry k ids))%py cur
    = Done tt cur1
    /\ in_state (notifying_chosen ids0 target e rest) cur1.
Proof.
  intros He Hin k Hk.
  apply (each_state (notifying ids0 target (e :: rest))
           (notifying_chosen ids0 target e rest)
           (fun s t => upd_parity_input (fst (chosen e s t)) s)
           (fun s t => snd (chosen e s t)) _ cur Hin).
  intros s t (Hq & Ha & Hf & Hb & Hi & Hr & Hl).
  cbn [lasts_notification] in Hl. unfold chosen.
  split; [|split; [|split; reflexivity]].
  - eapply runs_bind; [apply runs_the|]. rewrite Ha, <- Hk.
    unfold set_notification_parity_by_notification_input.
    eapply runs_bind; [apply runs_the|].
    destruct (String.eqb e (notification_input s)).
    + destruct (randbits1 t) as [bit t1| | |] eqn:Er; try discriminate.
      eapply runs_bind; [apply runs_on_tape; exact Er|].
      apply runs_on_self. rewrite (randbits1_bit _ _ _ Er). reflexivity.
    + apply runs_on_self. reflexivity.
  - destruct (String.eqb e (notification_input s)) eqn:Ee.
    + apply String.eqb_eq in Ee.
      destruct (randbits1 t) as [bit t1| | |] eqn:Er; try discriminate.
      cbn [fst snd]. repeat split; try assumption; try apply Hq.
      * intros Hne. destruct Hi as [Hi|Hi]; congruence.
      * change (parity_input (upd_parity_input bit s)) with bit.
        change (all_nodes (upd_parity_input bit s)) with (all_nodes s).
        change (notification_input (upd_parity_input bit s))
          with (notification_input s).
        destruct (draw_bitstring (len (all_nodes s) + 1) bit t1);
          [exact Hl | discriminate..].
    + cbn [fst snd]. repeat split; try assumption; try apply Hq.
      change (parity_input (upd_parity_input 0 s)) with 0.
      change (all_nodes (upd_parity_input 0 s)) with (all_nodes s).
      change (notification_input (upd_parity_input 0 s)) with (notification_input s).
      destruct (draw_bitstring (len (all_nodes s) + 1) 0 t);
        [exact Hl | discriminate..].
Qed.

Lemma whispers_kind (e : string) (net : Net) :
  Forall (fun m => exists v, snd m = msg_parity_key_xor_result v) (whispers e net).
Proof.
  apply Forall_forall. intros m Hm. apply in_flat_map in Hm.
  destruct Hm as (q & _ & Hm). destruct (String.eqb e (node_id (self q)));
    [contradiction|].
  apply in_map_iff in Hm. destruct Hm as (n & <- & _). eexists. reflexivity.
Qed.

Lemma whispers_known (e : string) (net : Net) :
  forallb (fun m => known (snd m)) (whispers e net) = true.
Proof.
  apply forallb_forall. intros m Hm.
  pose proof (whispers_kind e net) as Hk. rewrite Forall_forall in Hk.
  destruct (Hk m Hm) as [v ->]. reflexivity.
Qed.

(** The rest of a round of [execute_notification_parity]: the shares, the
    results sent to the spectator alone, its result, and the barrier. *)
Lemma notification_rest_of_round (k : nat) (rest : list string) (cur1 : Net) :
  entry k ids0 <> ""%string ->
  in_state (notifying_chosen ids0 target (entry k ids0) rest) cur1 ->
  exists cur5,
    (distribute_key_bits ;;
     results <- each_local (
       ids <- the all_node_ids ;;
       id <- the node_id ;;
       let p := entry k ids in
       parity_key_xor_result <- calculate_parity_xor_key_result ;;
       (if String.eqb p id then ret tt
        else send_to_node_by_id p (msg_parity_key_xor_result parity_key_xor_result)) ;;
       ret parity_key_xor_result) ;;
     each_with results (fun parity_key_xor_result =>
       ids <- the all_node_ids ;;
       id <- the node_id ;;
       nodes <- the all_nodes ;;
       let p := entry k ids in
       (if String.eqb p id
        then
          wait_while_receiving in_parity_received_broadcast_values (len nodes) ;;
          append_parity_received_broadcast_value parity_key_xor_result ;;
          calculate_parity_result ;;
          set_notification_result_by_parity_result
        else ret tt) ;;
       assign (upd_parity_shared_keys []) ;;
       assign (upd_parity_received_broadcast_values []) ;;
       on_self (parity_input_setter 0) ;;
       send_parity_finished_send) ;;
     each (
       send_parity_finished_wait ;;
       assign (upd_parity_finished [])))%py cur1 = Done tt cur5
    /\ in_state (notifying ids0 target rest) cur5.
Proof.
  set (e := entry k ids0). intros He Hin.
  pose proof (proj1 (proj2 Hin)) as Hconn.
  assert (HP : forall p, In p cur1 ->
                 notifying_chosen ids0 target e rest (self p) (tape p))
    by (intros p Hp; apply (proj2 (proj2 Hin) p Hp)).
  assert (Hquiet : forall p, In p cur1 -> quiet (self p))
    by (intros p Hp; apply (HP p Hp)).
  assert (Hdraws : forall p, In p cur1 -> draws p = true).
  { intros p Hp. destruct (HP p Hp) as (_ & _ & _ & _ & _ & _ & _ & Hl).
    unfold draws.
    destruct (draw_bitstring (len (all_nodes (self p)) + 1) (parity_input (self p))
                (tape p)); [reflexivity | contradiction..]. }
  assert (Hlast : one_broadcasts_last cur1).
  { intros p q Hp _ Hl _. destruct (HP p Hp) as (_ & _ & _ & Hb & _). congruence. }
  destruct (distribute_key_bits_returns cur1 Hconn Hquiet Hdraws Hlast cur1
              (in_state_looks _ cur1 Hin)) as (cur2 & E2 & H2).
  set (S2 := fun p => upd_parity_shared_keys (keys_of cur1 p) (self p)) in *.
  set (T2 := fun p : Process => snd (drawn p)) in *.
  (* everybody but the spectator sends its result to the spectator *)
  destruct (@each_local_yields Z S2 S2 T2 T2
              (fun q => if String.eqb e (node_id (self q)) then []
                        else map (fun n => (n, msg_parity_key_xor_result
                                                 (xor_key_result cur1 q)))
                               (filter (fun n => String.eqb n e) (all_nodes (self q))))
              cur1 cur2 H2 (whispers_known e cur1)
              (ids <- the all_node_ids ;;
               id <- the node_id ;;
               let p := entry k ids in
               parity_key_xor_result <- calculate_parity_xor_key_result ;;
               (if String.eqb p id then ret tt
                else send_to_node_by_id p
                       (msg_parity_key_xor_result parity_key_xor_result)) ;;
               ret parity_key_xor_result)%py
              (xor_key_result cur1)) as (cur3 & E3 & H3).
  { intros p q Hp Hq. eapply runs_yields; [|exact Hq].
    destruct (HP p Hp) as (_ & Ha & _).
    eapply runs_bind; [apply runs_the|]. eapply runs_bind; [apply runs_the|].
    cbn zeta. change (all_node_ids (S2 p)) with (all_node_ids (self p)).
    change (node_id (S2 p)) with (node_id (self p)). rewrite Ha. fold e.
    eapply runs_bind.
    { unfold calculate_parity_xor_key_result.
      eapply runs_bind; [apply runs_the | apply runs_ret]. }
    change (bitwise_xor_reduce (parity_shared_keys (S2 p))) with (xor_key_result cur1 p).
    destruct (String.eqb e (node_id (self p))).
    - eapply runs_bind; apply runs_ret.
    - eapply runs_bind; [apply runs_send_to_node_by_id | apply runs_ret]. }
  fold (whispers e cur1) in H3.
  set (S3 := fun p => upd_parity_received_broadcast_values (heard e cur1 p) (S2 p)).
  apply (Forall2_looks_ext _ S3) in H3.
  2:{ intros p Hp. rewrite (receive_all_results _ _ (whispers_kind e cur1)).
      destruct (Hquiet p Hp) as (_ & Hr & _).
      change (parity_received_broadcast_values (S2 p))
        with (parity_received_broadcast_values (self p)).
      rewrite Hr. reflexivity. }
  (* what the spectator hears *)
  assert (Hheard : forall p, In p cur1 ->
            heard e cur1 p
            = if String.eqb (node_id (self p)) e
              then map (xor_key_result cur1)
                     (filter (fun q => negb (String.eqb (node_id (self q))
                                               (node_id (self p)))) cur1)
              else []).
  { intros p Hp. unfold heard, whispers.
    rewrite (inbox_of_whispers cur1 Hconn e p
               (fun q => msg_parity_key_xor_result (xor_key_result cur1 q)) cur1 Hp
               (fun q Hq => Hq)).
    destruct (String.eqb (node_id (self p)) e); [|reflexivity].
    rewrite map_map. reflexivity. }
  set (R' := fun p => bitwise_xor_reduce (heard e cur1 p ++ [xor_key_result cur1 p])).
  set (S4 := fun p =>
               if String.eqb e (node_id (self p))
               then upd_parity_input 0
                      (upd_parity_received_broadcast_values []
                         (upd_parity_shared_keys []
                            (upd_notification_result
                               (Z.lor (notification_result (self p)) (R' p))
                               (upd_parity_result (R' p)
                                  (upd_parity_received_broadcast_values
                                     (heard e cur1 p ++ [xor_key_result cur1 p])
                                     (S3 p))))))
               else upd_parity_input 0
                      (upd_parity_received_broadcast_values []
                         (upd_parity_shared_keys [] (S3 p)))).
  destruct (each_with_unit_yields S3 S4 T2 T2
              (fun q => to_all q (msg_parity_finished true)) cur1 cur3
              (xor_key_result cur1)
              (fun parity_key_xor_result =>
                 ids <- the all_node_ids ;;
                 id <- the node_id ;;
                 nodes <- the all_nodes ;;
                 let p := entry k ids in
                 (if String.eqb p id
                  then
                    wait_while_receiving in_parity_received_broadcast_values
                      (len nodes) ;;
                    append_parity_received_broadcast_value parity_key_xor_result ;;
                    calculate_parity_result ;;
                    set_notification_result_by_parity_result
                  else ret tt) ;;
                 assign (upd_parity_shared_keys []) ;;
                 assign (upd_parity_received_broadcast_values []) ;;
                 on_self (parity_input_setter 0) ;;
                 send_parity_finished_send)%py H3) as (cur4 & E4 & H4).
  { apply (broadcasts_known (fun _ => true)). reflexivity. }
  { intros p q Hp Hq. eapply runs_yields; [|exact Hq].
    destruct (HP p Hp) as (_ & Ha & _).
    eapply runs_bind; [apply runs_the|]. eapply runs_bind; [apply runs_the|].
    eapply runs_bind; [apply runs_the|].
    cbn zeta. change (all_node_ids (S3 p)) with (all_node_ids (self p)).
    change (node_id (S3 p)) with (node_id (self p)). rewrite Ha. fold e.
    unfold S4. destruct (String.eqb e (node_id (self p))) eqn:Ee.
    - eapply runs_bind.
      { eapply runs_bind.
        { apply runs_wait. cbn [bucket_len].
          change (parity_received_broadcast_values (S3 p)) with (heard e cur1 p).
          change (all_nodes (S3 p)) with (all_nodes (self p)).
          rewrite (Hheard p Hp), String.eqb_sym, Ee. unfold len.
          rewrite length_map, (others cur1 Hconn p Hp), (connections cur1 Hconn p Hp).
          reflexivity. }
        eapply runs_bind.
        { unfold append_parity_received_broadcast_value.
          eapply runs_bind; [apply runs_the | apply runs_assign]. }
        eapply runs_bind.
        { unfold calculate_parity_result.
          eapply runs_bind; [apply runs_the | apply runs_assign]. }
        unfold set_notification_result_by_parity_result.
        eapply runs_bind; [apply runs_the|]. eapply runs_bind; [apply runs_the|].
        apply runs_assign. }
      eapply runs_bind; [apply runs_assign|].
      eapply runs_bind; [apply runs_assign|].
      eapply runs_bind; [apply runs_on_self; reflexivity|].
      apply runs_broadcast. reflexivity.
    - eapply runs_bind; [apply runs_ret|].
      eapply runs_bind; [apply runs_assign|].
      eapply runs_bind; [apply runs_assign|].
      eapply runs_bind; [apply runs_on_self; reflexivity|].
      apply runs_broadcast. reflexivity. }
  apply (Forall2_looks_ext _
           (fun p => upd_parity_finished
                       (map flag_payload
                          (inbox (node_id (self p))
                             (flat_map (fun q => to_all q (msg_parity_finished true))
                                cur1)))
                       (S4 p))) in H4.
  2:{ intros p Hp. rewrite receive_all_parity_finished.
      - destruct (Hquiet p Hp) as (_ & _ & Hf).
        assert (Hid : node_id (S4 p) = node_id (self p))
          by (unfold S4; destruct (String.eqb e (node_id (self p))); reflexivity).
        assert (Hpf : parity_finished (S4 p) = parity_finished (self p))
          by (unfold S4; destruct (String.eqb e (node_id (self p))); reflexivity).
        rewrite Hid, Hpf, Hf. reflexivity.
      - apply (broadcasts_kind (fun _ => true) _ _
                 (fun d => exists v, d = msg_parity_finished v)).
        intros q. eexists. reflexivity. }
  (* the barrier *)
  destruct (each_yields _ (fun p => notified e (parity_of cur1) (self p))
              T2 T2 (fun _ => []) cur1 cur4
              (send_parity_finished_wait ;; assign (upd_parity_finished []))%py H4)
    as (cur5 & E5 & H5).
  { rewrite flat_map_nil. reflexivity. }
  { intros p q Hp Hq. eapply runs_yields; [|exact Hq].
    assert (Hnodes : all_nodes (S4 p) = all_nodes (self p))
      by (unfold S4; destruct (String.eqb e (node_id (self p))); reflexivity).
    eapply runs_bind.
    { unfold send_parity_finished_wait.
      eapply runs_bind; [apply runs_the|].
      eapply runs_bind; [|apply runs_assign].
      apply runs_wait. cbn [bucket_len].
      change (all_nodes (upd_parity_finished _ (S4 p))) with (all_nodes (S4 p)).
      rewrite Hnodes.
      apply (finished_complete cur1 Hconn p _ Hp). }
    apply runs_assign_to.
    destruct (Hquiet p Hp) as (Hk' & Hr & Hf).
    unfold notified, S4, S3, S2.
    destruct (String.eqb e (node_id (self p))) eqn:Ee.
    - assert (HR : R' p = parity_of cur1).
      { unfold R'. rewrite xor_reduce_app, (Hheard p Hp), String.eqb_sym, Ee.
        rewrite xor_reduce_cons. change (bitwise_xor_reduce []) with 0.
        rewrite Z.lxor_0_r, xor_with_others by (apply Hconn || assumption).
        apply (xor_of_results cur1 Hconn Hdraws). }
      rewrite HR. destruct (self p). cbn in Hk', Hr, Hf. subst. reflexivity.
    - destruct (self p). cbn in Hk', Hr, Hf. subst. reflexivity. }
  exists cur5. split.
  - rewrite (bind_done _ E2), (bind_done _ E3), (bind_done _ E4). exact E5.
  - assert (HR0 : e <> target -> parity_of cur1 = 0).
    { intros Hne. apply parity_of_zeros. intros q Hq.
      destruct (HP q Hq) as (_ & _ & _ & _ & _ & _ & Hz & _). auto. }
    apply (step_state _ _ (fun p => notified e (parity_of cur1) (self p)) T2
             cur1 cur5 Hin).
    + eapply Forall2_looks_ext; [|exact H5]. intros p Hp.
      rewrite flat_map_nil. reflexivity.
    + intros p Hp (Hq & Ha & Hf & Hb & Hi & Hr & Hz & Hl).
      unfold notified, T2, drawn.
      destruct (draw_bitstring (len (all_nodes (self p)) + 1) (parity_input (self p))
                  (tape p)) as [bs t'| | |]; try contradiction.
      cbn [snd].
      destruct (String.eqb e (node_id (self p))) eqn:Ee;
        (split; [|split; reflexivity]);
        repeat split; try assumption; try apply Hq.
      intros Hne. cbn in Hne |- *. apply String.eqb_eq in Ee.
      rewrite (Hr Hne), HR0 by congruence. reflexivity.
Qed.

End NotificationRound.

Section NotificationRounds.

Variables (ids0 : list string) (target : string).
Hypothesis Hnamed : ~ In ""%string ids0.

Lemma notification_parity_round_state (k : nat) (rest : list string) (cur : Net) :
  (k < List.length ids0)%nat ->
  in_state (notifying ids0 target (entry k ids0 :: rest)) cur ->
  exists cur',
    notification_parity_round k cur = Done tt cur'
    /\ in_state (notifying ids0 target rest) cur'.
Proof.
  intros Hk Hin.
  assert (He : entry k ids0 <> ""%string).
  { intros E. apply Hnamed. rewrite <- E. apply nth_In. exact Hk. }
  destruct (notification_choice ids0 target _ rest cur He Hin k eq_refl)
    as (cur1 & E1 & H1).
  destruct (notification_rest_of_round ids0 target k rest cur1 He H1)
    as (cur5 & E5 & H5).
  exists cur5. split; [|exact H5].
  unfold notification_parity_round. rewrite (bind_done _ E1). exact E5.
Qed.

Lemma notification_inner_loop (k : nat) (l : list Z) :
  (k < List.length ids0)%nat ->
  forall (rest : list string) (cur : Net),
    in_state (notifying ids0 target (map (fun _ => entry k ids0) l ++ rest)) cur ->
    exists cur',
      for_each l (fun _ => notification_parity_round k) cur = Done tt cur'
      /\ in_state (notifying ids0 target rest) cur'.
Proof.
  intros Hk. induction l as [|i l IH]; intros rest cur Hin; cbn [for_each map app] in *.
  - exists cur. split; [reflexivity | exact Hin].
  - destruct (notification_parity_round_state k _ cur Hk Hin) as (cur1 & E1 & H1).
    destruct (IH rest cur1 H1) as (cur2 & E2 & H2).
    exists cur2. split; [|exact H2]. rewrite (bind_done _ E1). exact E2.
Qed.

Lemma notification_outer_loop (notification_security : Z) (l : list nat) :
  (forall k, In k l -> (k < List.length ids0)%nat) ->
  forall (rest : list string) (cur : Net),
    in_state (notifying ids0 target
                (flat_map (fun k => map (fun _ => entry k ids0)
                                      (range 1 (notification_security + 1))) l
                 ++ rest)) cur ->
    exists cur',
      for_each l (fun k =>
        for_each (range 1 (notification_security + 1)) (fun _ =>
          notification_parity_round k)) cur = Done tt cur'
      /\ in_state (notifying ids0 target rest) cur'.
Proof.
  induction l as [|k l IH]; intros Hl rest cur Hin; cbn [for_each flat_map] in *.
  - exists cur. split; [reflexivity | exact Hin].
  - rewrite <- app_assoc in Hin.
    destruct (notification_inner_loop k _ (Hl k (or_introl eq_refl)) _ cur Hin)
      as (cur1 & E1 & H1).
    destruct (IH (fun j Hj => Hl j (or_intror Hj)) rest cur1 H1) as (cur2 & E2 & H2).
    exists cur2. split; [|exact H2]. rewrite (bind_done _ E1). exact E2.
Qed.

Lemma send_notification_finished_state (P : ParticipantNode -> list bool -> Prop)
    (cur : Net) :
  in_state P cur ->
  (forall s t, P s t -> notification_finished s = []) ->
  exists cur', send_notification_finished cur = Done tt cur' /\ in_state P cur'.
Proof.
  intros Hin Hempty. unfold send_notification_finished.
  apply (barrier_state (msg_notification_finished true) in_notification_finished
           notification_finished upd_notification_finished); auto.
  - intros id msgs Hk s. apply receive_all_notification_finished.
    eapply Forall_impl; [|exact Hk]. intros m ->. eexists. reflexivity.
  - intros l s Hs. destruct s. cbn in Hs. subst. reflexivity.
Qed.

Lemma execute_notification_state (notification_security : Z) (cur : Net) :
  in_state (notifying ids0 target (spectators_of ids0 notification_security)) cur ->
  exists cur',
    execute_notification notification_security cur = Done tt cur'
    /\ in_state (notifying ids0 target []) cur'.
Proof.
  intros Hin. unfold execute_notification, execute_notification_parity.
  assert (Er : rounds_of_all_node_ids cur = Done (seq 0 (List.length ids0)) cur).
  { unfold rounds_of_all_node_ids.
    rewrite (bind_done _ (agree_state _ Nat.eqb
                            (fun p => List.length (all_node_ids p)) (List.length ids0)
                            cur Hin
                            ltac:(intros s t (_ & Ha & _); rewrite Ha; reflexivity)
                            (Nat.eqb_refl _))).
    reflexivity. }
  unfold spectators_of in Hin.
  rewrite <- (app_nil_r (flat_map _ _)) in Hin.
  destruct (notification_outer_loop notification_security (seq 0 (List.length ids0))
              ltac:(intros k Hk; apply in_seq in Hk; lia) [] cur Hin)
    as (cur1 & E1 & H1).
  destruct (send_notification_finished_state _ cur1 H1) as (cur2 & E2 & H2).
  { intros s t (_ & _ & Hf & _). exact Hf. }
  exists cur2. split; [|exact H2].
  assert (E1' : (rounds <- rounds_of_all_node_ids ;;
                 for_each rounds (fun k =>
                   for_each (range 1 (notification_security + 1)) (fun _ =>
                     notification_parity_round k)))%py cur = Done tt cur1)
    by (rewrite (bind_done _ Er); exact E1).
  clear E1. rename E1' into E1.
  rewrite (bind_done _ E1). exact E2.
Qed.

End NotificationRounds.

(** C9. In [execute_notification] with exactly one sender, whose
    [notification_input] names the participant [target], the protocol returns
    at every participant and every participant whose [node_id] differs from
    [target] has [notification_result] 0, whatever the random bits are (the
    tapes of the participants are arbitrary, as long as they last for the
    draws of the rounds). The entries of [all_node_ids] are identifiers of
    participants, none of them the empty string. *)
Theorem notification_others_zero (notification_security : Z) (ids0 : list string)
    (sender target : string) (net : Net) :
  net <> [] ->
  connected net ->
  ~ In ""%string ids0 ->
  In sender (ids net) ->
  In target (ids net) ->
  target <> ""%string ->
  (forall p, In p net ->
     idle p /\ notification_finished (self p) = []
     /\ parity_broadcasts_last (self p) = false
     /\ all_node_ids (self p) = ids0
     /\ notification_result (self p) = 0) ->
  (forall p, In p net ->
     notification_input (self p)
     = if String.eqb (node_id (self p)) sender then target else ""%string) ->
  (forall p, In p net ->
     lasts_notification (spectators_of ids0 notification_security)
       (notification_input (self p)) (len (all_nodes (self p)) + 1) (tape p) = true) ->
  exists net',
    execute_notification notification_security net = Done tt net'
    /\ forall q, In q net' ->
         node_id (self q) <> target -> notification_result (self q) = 0.
Proof.
  intros Hne Hconn Hnamed _ _ _ Hready Hinput Htape.
  destruct (execute_notification_state ids0 target Hnamed notification_security net)
    as (net' & E & H).
  - split; [exact Hne|]. split; [exact Hconn|]. intros q Hq.
    destruct (Hready q Hq) as ((Hquiet & Hout) & Hf & Hl & Ha & Hr).
    split; [|exact Hout].
    repeat split; try assumption; try apply Hquiet; auto.
    rewrite (Hinput q Hq). destruct (String.eqb (node_id (self q)) sender); auto.
  - exists net'. split; [exact E|]. intros q Hq.
    destruct (proj2 (proj2 H) q Hq) as [(_ & _ & _ & _ & _ & Hz & _) _].
    exact Hz.
Qed.

Lemma notification_others_zero_witness :
  exists net',
    execute_notification 2 notification_example = Done tt net'
    /\ forall q, In q net' ->
         node_id (self q) <> "2"%string -> notification_result (self q) = 0.
Proof.
  apply (notification_others_zero 2 ["1"; "2"; "3"]%string "1"%string "2"%string
           notification_example).
  - discriminate.
  - apply connectedb_sound. vm_compute. reflexivity.
  - intros [H|[H|[H|[]]]]; discriminate H.
  - vm_compute. auto.
  - vm_compute. auto.
  - discriminate.
  - intros p [<-|[<-|[<-|[]]]]; vm_compute; auto 10.
  - intros p [<-|[<-|[<-|[]]]]; vm_compute; reflexivity.
  - intros p [<-|[<-|[<-|[]]]]; vm_compute; reflexivity.
Defined.

(** * What the protocols leave as it is *)

Section Keeps.

Context {S B : Type} (view : S -> B).

Lemma keeps_ret {A : Type} (a : A) : keeps view (ret a).
Proof. intros s. reflexivity. Qed.

Lemma keeps_raise {A : Type} (e : exception) : keeps view (@raise S A e).
Proof. intros s. reflexivity. Qed.

Lemma keeps_get : keeps view get.
Proof. intros s. reflexivity. Qed.

Lemma keeps_bind {A C : Type} (m : M S A) (k : A -> M S C) :
  keeps view m -> (forall a, keeps view (k a)) -> keeps view (bind m k).
Proof.
  intros Hm Hk s. unfold bind. specialize (Hm s).
  destruct (m s) as [a s'|e s'|s'|s']; cbn [state_of] in *; try exact Hm.
  rewrite Hk. exact Hm.
Qed.

Lemma keeps_for_each {A : Type} (l : list A) (body : A -> M S unit) :
  (forall x, keeps view (body x)) -> keeps view (for_each l body).
Proof.
  intros Hbody. induction l as [|x l IH]; cbn [for_each].
  - apply keeps_ret.
  - apply keeps_bind; [apply Hbody | intros _; exact IH].
Qed.

Lemma keeps_for_until {A : Type} (l : list A) (body : A -> M S flow) :
  (forall x, keeps view (body x)) -> keeps view (for_until l body).
Proof.
  intros Hbody. induction l as [|x l IH]; cbn [for_until].
  - apply keeps_ret.
  - apply keeps_bind; [apply Hbody|]. intros [|]; [exact IH | apply keeps_ret].
Qed.

End Keeps.

Section KeepsOfSelf.

Context {B : Type} (view : ParticipantNode -> B).

Lemma keeps_on_self {A : Type} (m : M ParticipantNode A) :
  keeps view m -> keeps (of_self view) (on_self m).
Proof.
  intros Hm p. unfold on_self, of_self. specialize (Hm (self p)).
  destruct (m (self p)); exact Hm.
Qed.

Lemma keeps_on_tape {A : Type} (m : M (list bool) A) : keeps (of_self view) (on_tape m).
Proof. intros p. unfold on_tape. destruct (m (tape p)); reflexivity. Qed.

Lemma keeps_the {A : Type} (f : ParticipantNode -> A) : keeps (of_self view) (the f).
Proof. intros p. reflexivity. Qed.

Lemma keeps_assign (f : ParticipantNode -> ParticipantNode) :
  (forall s, view (f s) = view s) -> keeps (of_self view) (assign f).
Proof. intros Hf p. apply Hf. Qed.

Lemma keeps_send_to_node (n : string) (data : message) :
  keeps (of_self view) (send_to_node n data).
Proof.
  intros p. unfold send_to_node.
  destruct (existsb (String.eqb n) (all_nodes (self p))); reflexivity.
Qed.

Lemma keeps_send_to_nodes (data : message) : keeps (of_self view) (send_to_nodes data).
Proof.
  unfold send_to_nodes. apply keeps_bind; [apply keeps_the|]. intros nodes.
  apply keeps_for_each. intros n. apply keeps_send_to_node.
Qed.

Lemma keeps_wait_while_receiving (element_list : bucket) (amount_of_elements : Z) :
  keeps (of_self view) (wait_while_receiving element_list amount_of_elements).
Proof.
  intros p. unfold wait_while_receiving.
  destruct (bucket_len element_list (self p) =? amount_of_elements); reflexivity.
Qed.

Lemma keeps_run_each {A : Type} (bodies : list (M Process A)) :
  Forall (keeps (of_self view)) bodies -> keeps (of_all view) (run_each bodies).
Proof.
  induction 1 as [|body bodies Hbody _ IH]; intros net; [reflexivity|].
  destruct net as [|p net]; [reflexivity|]. cbn [run_each].
  specialize (Hbody p). specialize (IH net).
  destruct (body p) as [a p'|e p'|p'|p']; cbn [state_of] in Hbody;
    try (cbn; f_equal; exact Hbody).
  destruct (run_each bodies net) as [l net'|e net'|net'|net'];
    cbn [state_of of_all map] in *; f_equal; assumption.
Qed.

Hypothesis Hsort : forall data, keeps view (sort_incoming_messages data).

Lemma keeps_deliver (n : string) (data : message) :
  keeps (of_all view) (deliver n data).
Proof.
  intros net. induction net as [|p net IH]; [reflexivity|]. cbn [deliver].
  destruct (deliver n data net) as [[] net'|e net'|net'|net'];
    cbn [state_of of_all map] in *; try (f_equal; exact IH).
  destruct (String.eqb (node_id (self p)) n).
  - pose proof (keeps_on_self _ (Hsort data) p) as Hp.
    destruct (on_self (sort_incoming_messages data) p) as [[] p'|e p'|p'|p'];
      cbn [state_of of_all map] in *; f_equal; assumption.
  - cbn. f_equal. exact IH.
Qed.

Lemma keeps_deliver_outboxes : keeps (of_all view) deliver_outboxes.
Proof.
  intros net. unfold deliver_outboxes.
  rewrite (keeps_for_each (of_all view) _ _
             (fun m => keeps_deliver (fst m) (snd m)) (map take_outbox net)).
  unfold of_all. rewrite map_map. reflexivity.
Qed.

Lemma keeps_each_of {A : Type} (bodies : list (M Process A)) :
  Forall (keeps (of_self view)) bodies -> keeps (of_all view) (each_of bodies).
Proof.
  intros Hbodies. unfold each_of.
  apply keeps_bind; [apply keeps_run_each; exact Hbodies|]. intros l.
  apply keeps_bind; [apply keeps_deliver_outboxes|]. intros _. apply keeps_ret.
Qed.

Lemma keeps_each (body : M Process unit) :
  keeps (of_self view) body -> keeps (of_all view) (each body).
Proof.
  intros Hbody. unfold each. apply keeps_bind; [apply keeps_get|]. intros net.
  apply keeps_bind; [|intros _; apply keeps_ret].
  apply keeps_each_of. apply Forall_forall. intros b Hb.
  apply in_map_iff in Hb. destruct Hb as (_ & <- & _). exact Hbody.
Qed.

Lemma keeps_each_local {A : Type} (body : M Process A) :
  keeps (of_self view) body -> keeps (of_all view) (each_local body).
Proof.
  intros Hbody. unfold each_local. apply keeps_bind; [apply keeps_get|]. intros net.
  apply keeps_each_of. apply Forall_forall. intros b Hb.
  apply in_map_iff in Hb. destruct Hb as (_ & <- & _). exact Hbody.
Qed.

Lemma keeps_each_with {A : Type} (locals : list A) (body : A -> M Process unit) :
  (forall a, keeps (of_self view) (body a)) ->
  keeps (of_all view) (each_with locals body).
Proof.
  intros Hbody. unfold each_with. apply keeps_bind; [|intros _; apply keeps_ret].
  apply keeps_each_of. apply Forall_forall. intros b Hb.
  apply in_map_iff in Hb. destruct Hb as (a & <- & _). apply Hbody.
Qed.

Lemma keeps_agree {A : Type} (eqb : A -> A -> bool) (f : ParticipantNode -> A) :
  keeps (of_all view) (agree eqb f).
Proof.
  intros [|p net]; [reflexivity|]. unfold agree.
  destruct (forallb _ net); reflexivity.
Qed.

Lemma run_each_done {A : Type} (body : M Process A) (net : Net) :
  forall (l : list A) (net1 : Net),
    run_each (map (fun _ => body) net) net = Done l net1 ->
    Forall2 (fun p p1 => exists a, body p = Done a p1) net net1.
Proof.
  induction net as [|p net IH]; intros l net1 E; cbn [map run_each] in E.
  - injection E as _ <-. constructor.
  - destruct (body p) as [a p'|e p'|p'|p'] eqn:Ep; try discriminate E.
    destruct (run_each (map (fun _ => body) net) net) as [l' net'|e net'|net'|net']
      eqn:En; try discriminate E.
    injection E as _ <-. constructor; [exists a; exact Ep | exact (IH _ _ eq_refl)].
Qed.

(** After a stretch every participant has run [body], and the deliveries have
    left [view] as it was. *)
Lemma each_done (body : M Process unit) (net net' : Net) :
  each body net = Done tt net' ->
  Forall2 (fun p q => exists p1, body p = Done tt p1 /\ view (self q) = view (self p1))
    net net'.
Proof.
  unfold each, each_of, bind, get. intros E.
  destruct (run_each (map (fun _ => body) net) net) as [l net1|e net1|net1|net1] eqn:E1;
    try discriminate E.
  pose proof (run_each_done body net l net1 E1) as H1.
  pose proof (keeps_deliver_outboxes net1) as Hd.
  destruct (deliver_outboxes net1) as [[] net2|e net2|net2|net2]; try discriminate E.
  injection E as <-. cbn [state_of] in Hd. clear E1.
  revert net2 Hd. induction H1 as [|p p1 net net1 (a & Hp) _ IH]; intros net2 Hd.
  - destruct net2; [constructor | discriminate Hd].
  - destruct net2 as [|q net2]; [discriminate Hd|].
    injection Hd as Hq Hd. constructor; [|exact (IH net2 Hd)].
    exists p1. split; [destruct a; exact Hp | exact Hq].
Qed.

End KeepsOfSelf.

(** ** The inputs of the rounds of collision detection *)

Lemma sort_keeps_round_inputs (data : message) :
  keeps round_inputs (sort_incoming_messages data).
Proof. intros s. destruct data; reflexivity. Qed.

Lemma parity_input_setter_keeps_round_inputs (bit : Z) :
  keeps round_inputs (parity_input_setter bit).
Proof.
  intros s. unfold parity_input_setter.
  destruct (negb (bit =? 1) && negb (bit =? 0)); reflexivity.
Qed.

Ltac keeps_step :=
  lazymatch goal with
  | |- keeps _ (bind _ _) => apply keeps_bind; [|intro]
  | |- keeps _ (ret _) => apply keeps_ret
  | |- keeps _ (raise _) => apply keeps_raise
  | |- keeps _ (the _) => apply keeps_the
  | |- keeps _ (on_tape _) => apply keeps_on_tape
  | |- keeps _ (assign _) => apply keeps_assign; intro; reflexivity
  | |- keeps _ (send_to_nodes _) => apply keeps_send_to_nodes
  | |- keeps _ (send_to_node _ _) => apply keeps_send_to_node
  | |- keeps _ (wait_while_receiving _ _) => apply keeps_wait_while_receiving
  | |- keeps _ (on_self (parity_input_setter _)) =>
      apply keeps_on_self, parity_input_setter_keeps_round_inputs
  | |- keeps _ (each _) => apply (keeps_each _ sort_keeps_round_inputs)
  | |- keeps _ (each_local _) => apply (keeps_each_local _ sort_keeps_round_inputs)
  | |- keeps _ (each_with _ _) =>
      apply (keeps_each_with _ sort_keeps_round_inputs); intro
  | |- keeps _ (agree _ _) => apply keeps_agree
  | |- keeps _ (if ?b then _ else _) => destruct b
  | |- keeps _ (match ?x with _ => _ end) => destruct x
  end.

Lemma send_key_bits_keeps_round_inputs (nodes : list string) :
  forall bitstring, keeps (of_self round_inputs) (send_key_bits nodes bitstring).
Proof.
  induction nodes as [|n nodes IH]; intros bitstring; cbn [send_key_bits].
  - apply keeps_ret.
  - destruct bitstring; [apply keeps_raise|].
    apply keeps_bind; [apply keeps_send_to_node | intros _; apply IH].
Qed.

Lemma execute_parity_keeps_round_inputs : keeps (of_all round_inputs) execute_parity.
Proof.
  unfold execute_parity, distribute_key_bits, distribute_key_bits_send,
    distribute_key_bits_wait, create_bitstring, calculate_and_broadcast_keys,
    calculate_parity_xor_key_result, calculate_parity_result,
    append_parity_received_broadcast_value, send_parity_finished_send,
    send_parity_finished_wait.
  repeat first [apply send_key_bits_keeps_round_inputs | keeps_step].
Qed.

Lemma send_veto_finished_keeps_round_inputs :
  keeps (of_all round_inputs) send_veto_finished.
Proof. unfold send_veto_finished. repeat keeps_step. Qed.

Lemma veto_parity_round_keeps_round_inputs :
  keeps (of_all round_inputs) veto_parity_round.
Proof.
  unfold veto_parity_round, set_parity_input_by_veto_input.
  repeat first [apply execute_parity_keeps_round_inputs
               | apply send_veto_finished_keeps_round_inputs | keeps_step].
Qed.

Lemma execute_veto_keeps_round_inputs (veto_security : Z) :
  keeps (of_all round_inputs) (execute_veto veto_security).
Proof.
  unfold execute_veto, rounds_of_all_node_ids.
  apply keeps_bind; [repeat keeps_step|]. intros rounds.
  apply keeps_bind.
  - apply keeps_for_until. intros k. unfold veto_rounds_for.
    apply keeps_bind; [repeat keeps_step|]. intros _.
    apply keeps_bind.
    + apply keeps_for_until. intros _. apply veto_parity_round_keeps_round_inputs.
    + intros [|]; repeat keeps_step.
  - intros [|]; [apply send_veto_finished_keeps_round_inputs | apply keeps_ret].
Qed.

(** * Collision detection *)

Lemma bind_inv {S A B : Type} (m : M S A) (k : A -> M S B) (s s' : S) (b : B) :
  bind m k s = Done b s' ->
  exists a s1, m s = Done a s1 /\ k a s1 = Done b s'.
Proof.
  unfold bind. intros E. destruct (m s) as [a s1| | |]; try discriminate E.
  exists a, s1. split; [reflexivity | exact E].
Qed.

Lemma set_inputs_for_round_a_done (p p1 : Process) :
  set_inputs_for_round_a p = Done tt p1 ->
  veto_input (self p1) = collision_detection_input (self p1)
  /\ (collision_detection_input (self p1) = 0 \/ collision_detection_input (self p1) = 1).
Proof.
  unfold set_inputs_for_round_a, bind, the.
  destruct (is_message_sender (self p)); cbn; intros E; injection E as <-; cbn; auto.
Qed.

Lemma set_veto_input_for_round_b_done (p p1 : Process) :
  set_veto_input_for_round_b p = Done tt p1 ->
  (veto_input (self p1) = 1 <-> veto_input (self p) = 1 /\ parity_input (self p) = 0)
  /\ (veto_input (self p1) = 0 \/ veto_input (self p1) = 1)
  /\ collision_detection_input (self p1) = collision_detection_input (self p)
  /\ parity_input (self p1) = parity_input (self p).
Proof.
  unfold set_veto_input_for_round_b, bind, the.
  destruct (veto_input (self p) =? 1) eqn:Ev;
    destruct (parity_input (self p) =? 0) eqn:Ep; cbn;
    intros E; injection E as <-; cbn; repeat split; auto; try lia;
    intros [? ?]; lia.
Qed.

Lemma sort_keeps_round_b_view (data : message) :
  keeps (fun s => (veto_input s, collision_detection_input s, parity_input s))
    (sort_incoming_messages data).
Proof. intros s. destruct data; reflexivity. Qed.

Lemma in_of_all {B : Type} (view : ParticipantNode -> B) (net net' : Net) :
  of_all view net' = of_all view net ->
  forall q, In q net' -> exists p, In p net /\ view (self q) = view (self p).
Proof.
  intros E q Hq.
  assert (H : In (view (self q)) (of_all view net)).
  { rewrite <- E. apply (in_map (of_self view)). exact Hq. }
  apply in_map_iff in H. destruct H as (p & Hp & Hin). exists p. auto.
Qed.

(** C2, counterexample: in the group [collision_example] the participant "2"
    did not veto in round A, round A returns 1, and "2" enters round B with
    [veto_input] 0. *)
Lemma round_b_veto_not_of_the_silent : ~ round_b_veto_iff_silent_in_round_a.
Proof.
  intros H.
  assert (E : collision_detection_until_round_b 2 collision_example
              = Done tt (state_of (collision_detection_until_round_b 2 collision_example)))
    by (vm_compute; reflexivity).
  pose proof (H 2 collision_example _ E
                (nth 1 (state_of (collision_detection_until_round_b 2 collision_example))
                   (participant "" [] []))) as Hq.
  assert (H0 : (0 = 1 <-> 0 = 0) -> False) by (intros [_ H0]; discriminate (H0 eq_refl)).
  apply H0.
  assert (Ei : veto_input
                 (self (nth 1 (state_of (collision_detection_until_round_b 2
                                           collision_example))
                          (participant "" [] []))) = 0) by (vm_compute; reflexivity).
  assert (Ec : collision_detection_input
                 (self (nth 1 (state_of (collision_detection_until_round_b 2
                                           collision_example))
                          (participant "" [] []))) = 0) by (vm_compute; reflexivity).
  rewrite <- Ei at 1. rewrite <- Ec at 2. apply Hq.
  - vm_compute. auto.
  - vm_compute. reflexivity.
Qed.

(** C2, as the code has it: whenever the statements of [execute_collision_detection] up
    to round B return, a participant enters round B with [veto_input] 1 if and
    only if it did veto in round A (its [collision_detection_input] is 1) and
    its [parity_input] of the last parity round of round A is 0; otherwise it
    enters with [veto_input] 0. *)
Theorem round_b_veto_of_the_vetoing (collision_detection_security : Z)
    (net net' : Net) :
  collision_detection_until_round_b collision_detection_security net = Done tt net' ->
  forall q, In q net' ->
    (veto_input (self q) = 1
     <-> collision_detection_input (self q) = 1 /\ parity_input (self q) = 0)
    /\ (veto_input (self q) = 0 \/ veto_input (self q) = 1).
Proof.
  unfold collision_detection_until_round_b. intros E q Hq.
  apply bind_inv in E. destruct E as ([] & net1 & E1 & E).
  apply bind_inv in E. destruct E as ([] & net2 & E2 & E3).
  (* round A leaves the inputs as they are set *)
  assert (H2 : forall p, In p net2 ->
                 veto_input (self p) = collision_detection_input (self p)).
  { intros p Hp.
    pose proof (execute_veto_keeps_round_inputs collision_detection_security net1) as Hk.
    rewrite E2 in Hk. cbn [state_of] in Hk.
    destruct (in_of_all _ _ _ Hk p Hp) as (p1 & Hp1 & Hv).
    destruct (Forall2_in_r _ _ _ p1
                (each_done round_inputs sort_keeps_round_inputs _ _ _ E1) Hp1)
      as (p0 & _ & p0' & Hbody & Hv1).
    destruct (set_inputs_for_round_a_done _ _ Hbody) as [Heq _].
    unfold round_inputs in Hv, Hv1.
    injection Hv as Hv Hc. injection Hv1 as Hv1 Hc1. congruence. }
  destruct (Forall2_in_r _ _ _ q
              (each_done (fun s => (veto_input s, collision_detection_input s,
                                    parity_input s))
                 sort_keeps_round_b_view _ _ _ E3) Hq)
    as (p2 & Hp2 & p2' & Hbody & Hv).
  destruct (set_veto_input_for_round_b_done _ _ Hbody) as (Hiff & Hbit & Hc & Hpar).
  injection Hv as Hv Hcq Hparq.
  rewrite Hv, Hcq, Hparq, Hc, Hpar, <- (H2 p2 Hp2). split; assumption.
Qed.

Lemma round_b_veto_of_the_vetoing_witness :
  exists net',
    collision_detection_until_round_b 2 collision_example = Done tt net'
    /\ forall q, In q net' ->
         (veto_input (self q) = 1
          <-> collision_detection_input (self q) = 1 /\ parity_input (self q) = 0)
         /\ (veto_input (self q) = 0 \/ veto_input (self q) = 1).
Proof.
  assert (E : collision_detection_until_round_b 2 collision_example
              = Done tt (state_of (collision_detection_until_round_b 2 collision_example)))
    by (vm_compute; reflexivity).
  eexists. split; [exact E|].
  exact (round_b_veto_of_the_vetoing 2 collision_example _ E).
Defined.

(** * Message transmission *)

(** ** The barriers on the early returns *)

(** C3: the early returns leave out the barrier. When nobody sends,
    [execute_collision_detection] returns after round A, and
    [execute_message_transmission] after it: every participant has passed the
    barrier of the veto, and none has sent [collision_detection_finished] or
    [message_finished], or waited for them. When two participants send,
    [execute_message_transmission] returns after the collision detection,
    without [message_finished]. Neither run gets as far as the table of
    polynomials. In the run of one sender all three barriers are passed. *)
Theorem early_returns_skip_the_barrier :
  (forall irreducible_binary_polynomial_dict,
     exists net',
       execute_message_transmission irreducible_binary_polynomial_dict 5 silent_example
       = Done tt net'
       /\ forall q, In q net' ->
            collision_detection_result (self q) = 0
            /\ passed is_veto_finished for_veto_finished q = true
            /\ skipped is_collision_detection_finished
                 for_collision_detection_finished q = true
            /\ skipped is_message_finished for_message_finished q = true)
  /\ (forall irreducible_binary_polynomial_dict,
        exists net',
          execute_message_transmission irreducible_binary_polynomial_dict 5
            colliding_example
          = Done tt net'
          /\ forall q, In q net' ->
               passed is_collision_detection_finished
                 for_collision_detection_finished q = true
               /\ skipped is_message_finished for_message_finished q = true)
  /\ (exists net',
        execute_message_transmission example_polynomial_dict 5 transmission_example
        = Done tt net'
        /\ forall q, In q net' ->
             passed is_veto_finished for_veto_finished q = true
             /\ passed is_collision_detection_finished
                  for_collision_detection_finished q = true
             /\ passed is_message_finished for_message_finished q = true).
Proof.
  split; [|split]; try intros table;
    (eexists; split; [vm_compute; reflexivity|];
     intros q [<-|[<-|[<-|[]]]]; vm_compute; auto).
Qed.

(** ** The state after a transmission *)

(** C4: [execute_message_transmission] does not leave the state that
    [clear_all] leaves. After the run of one sender every participant still
    has its [all_node_ids], so it is not in the state after [clear_all]; the
    sender is still a sender, the receiver still a receiver. A second
    invocation then waits for ever in [create_order_in_all_node_ids], for a
    list of identifiers that is too long already. The same holds after the
    early return of a run in which two participants send, whatever the table
    of polynomials is. *)
Theorem transmission_leaves_its_state :
  (exists net',
     execute_message_transmission example_polynomial_dict 5 transmission_example
     = Done tt net'
     /\ (forall q, In q net' ->
           all_node_ids (self q) = ["1"; "2"; "3"]%string
           /\ state_of (clear_all (self q)) <> self q)
     /\ map (fun q => (is_message_sender (self q), is_message_receiver (self q),
                       notification_result (self q),
                       collision_detection_result (self q)))
          net'
        = [(true, false, 0, 1); (false, true, 1, 1); (false, false, 0, 1)]
     /\ exists net'',
          execute_message_transmission example_polynomial_dict 5 net' = Blocked net'')
  /\ (forall irreducible_binary_polynomial_dict,
        exists net',
          execute_message_transmission irreducible_binary_polynomial_dict 5
            colliding_example
          = Done tt net'
          /\ (forall q, In q net' ->
                all_node_ids (self q) = ["1"; "2"; "3"]%string
                /\ state_of (clear_all (self q)) <> self q)
          /\ map (fun q => (is_message_sender (self q), veto_result (self q))) net'
             = [(true, 1); (false, 1); (true, 1)]
          /\ exists net'',
               execute_message_transmission irreducible_binary_polynomial_dict 5 net'
               = Blocked net'').
Proof.
  split; [|intros table];
    (eexists; split; [vm_compute; reflexivity|]; split; [|split];
     [ intros q [<-|[<-|[<-|[]]]]; (split; [vm_compute; reflexivity|]);
       intros E; apply (f_equal all_node_ids) in E; vm_compute in E; discriminate E
     | vm_compute; reflexivity
     | eexists; vm_compute; reflexivity ]).
Qed.

(** ** The length of the code word *)

(** The lengths of the code words of messages of 64 bits *)
Lemma encoded_length_of_64 (security : Z) :
  1 <= security <= 15 ->
  (encoded_length security 64 = Some 99 <-> security = 5 \/ security = 8).
Proof.
  intros H.
  assert (Hs : In security (range 1 16)) by (apply range_spec; lia).
  vm_compute in Hs.
  repeat (destruct Hs as [<-|Hs];
          [vm_compute; split; [intros E; try discriminate E; auto
                              | intros [E|E]; try discriminate E; reflexivity]|]).
  contradiction.
Qed.

(** C5, counterexample: with the security parameter 3 the sender of
    [transmission_example] has a code word of 91 bits and raises
    [ValueError]. *)
Lemma sender_check_fails_for_3 :
  ~ sender_check_succeeds_for_every_security example_polynomial_dict.
Proof.
  intros H.
  apply (H 3 1500%nat ["1"; "2"; "3"]%string ["1"]%string "2"%string "Hello 2!"%string
           (state_of (execute_message_transmission example_polynomial_dict 3
                        transmission_example))
           ltac:(lia)).
  vm_compute. reflexivity.
Qed.

Section SenderCheck.

Variable irreducible_binary_polynomial_dict : Z -> option string.

(** C5, as the code has it: [execute_message_transmission] passes on the
    attribute [encoded_message_length], which [__init__] sets to 99, whatever
    the security parameter is. A sender whose message is a list of bits then
    passes the check of the length if the code word for the security parameter
    and the length of the message, of [d * gamma + 2 * gamma] bits, is as
    long as the attribute says, and raises [ValueError] if it is not. *)
Theorem sender_check_by_length (security d gamma : Z) (p : Process) :
  1 <= security ->
  is_message_sender (self p) = true ->
  is_message_receiver (self p) = false ->
  forallb is_bit (message_input (self p)) = true ->
  d_and_gamma security (len (message_input (self p))) = Some (d, gamma) ->
  entry_of_degree gamma (irreducible_binary_polynomial_dict gamma) = true ->
  gamma <= len (tape p) ->
  exists p',
    prepare_roles irreducible_binary_polynomial_dict security
      (encoded_message_length (self p)) p
    = if d * gamma + 2 * gamma =? encoded_message_length (self p)
      then Done tt p'
      else Raised ValueError p'.
Proof.
  intros Hsec Hsender Hreceiver Hbits Hdg Hentry Htape.
  destruct (amdc_encode_message_returns irreducible_binary_polynomial_dict
              (message_input (self p)) security d gamma (tape p)
              Hsec Hbits Hdg Hentry Htape)
    as (tau_binary & Hlen_tau & Hlen_theta & Hlen_padded & _ & Eenc).
  set (encoded := (message_input (self p)
                   ++ replicate 0 (d * gamma - len (message_input (self p))))
                  ++ map Z.b2z (firstn (Z.to_nat gamma) (tape p)) ++ tau_binary) in *.
  set (tape' := skipn (Z.to_nat gamma) (tape p)) in *.
  assert (Hlen : len encoded = d * gamma + 2 * gamma)
    by (unfold encoded; rewrite len_app, Hlen_padded, len_app; lia).
  exists (Build_Process (upd_message_amdc_encoded_input encoded (self p)) tape'
            (outbox p) (log p)).
  unfold prepare_roles, bind, the, on_tape, assign, on_self, modify, ret, raise.
  rewrite Hreceiver, Hsender. cbn [self tape outbox log].
  rewrite Eenc. cbn [self tape outbox log].
  change (encoded_message_length (upd_message_amdc_encoded_input encoded (self p)))
    with (encoded_message_length (self p)).
  rewrite Hlen.
  destruct (d * gamma + 2 * gamma =? encoded_message_length (self p)); reflexivity.
Qed.

End SenderCheck.

Lemma sender_check_by_length_witness :
  exists p',
    prepare_roles example_polynomial_dict 5
      (encoded_message_length (self sender_example)) sender_example
    = if 9 * 9 + 2 * 9 =? encoded_message_length (self sender_example)
      then Done tt p'
      else Raised ValueError p'.
Proof.
  apply (sender_check_by_length example_polynomial_dict 5 9 9 sender_example).
  - lia.
  - vm_compute. reflexivity.
  - vm_compute. reflexivity.
  - vm_compute. reflexivity.
  - vm_compute. reflexivity.
  - vm_compute. reflexivity.
  - vm_compute. discriminate.
Defined.

(** * Further properties of the codec *)

(** ** The parameters *)




(** ** The code word *)

Lemma bits_of_pos_bits (p : positive) :
  forall acc, forallb is_bit acc = true -> forallb is_bit (GF2.bits_of_pos p acc) = true.
Proof.
  induction p as [p IH|p IH|]; intros acc Hacc; cbn [GF2.bits_of_pos].
  - apply IH. cbn. exact Hacc.
  - apply IH. cbn. exact Hacc.
  - cbn. exact Hacc.
Qed.

Lemma bin_digits_bits (a : N) : forallb is_bit (GF2.bin_digits a) = true.
Proof. destruct a as [|p]; [reflexivity|]. apply bits_of_pos_bits. reflexivity. Qed.

Section CodeWord.

Variable irreducible_binary_polynomial_dict : Z -> option string.

(** Whatever tag [calculate_tau] returns is a list of bits. *)
Lemma calculate_tau_bits (S : Type) (padded_message theta_binary : list Z)
    (d gamma : Z) (s s' : S) (tau_binary : list Z) :
  calculate_tau irreducible_binary_polynomial_dict padded_message theta_binary
    d gamma s = Done tau_binary s' ->
  forallb is_bit tau_binary = true.
Proof.
  unfold calculate_tau. intros E.
  repeat (apply bind_inv in E; destruct E as (? & ? & _ & E)).
  injection E as <- _.
  apply bits_app; [apply bits_replicate_0 | apply bin_digits_bits].
Qed.

(** X2: the code word starts with the message itself, goes on with zeros up to
    [d * gamma] entries, then the [gamma] bits of the key, which are the next
    [gamma] bits that [randbits] gives, and ends with [gamma] bits of tag. It
    consists of bits, and no other random bit is drawn. *)
Theorem amdc_encode_message_systematic (message : list Z) (beta d gamma : Z)
    (tape : list bool) :
  1 <= beta ->
  forallb is_bit message = true ->
  d_and_gamma beta (len message) = Some (d, gamma) ->
  entry_of_degree gamma (irreducible_binary_polynomial_dict gamma) = true ->
  gamma <= len tape ->
  exists tau_binary,
    amdc_encode_message irreducible_binary_polynomial_dict message beta tape
    = Done (message ++ replicate 0 (d * gamma - len message)
            ++ map Z.b2z (firstn (Z.to_nat gamma) tape) ++ tau_binary)
        (skipn (Z.to_nat gamma) tape)
    /\ 0 <= d * gamma - len message
    /\ len tau_binary = gamma
    /\ forallb is_bit tau_binary = true
    /\ forallb is_bit (message ++ replicate 0 (d * gamma - len message)
                       ++ map Z.b2z (firstn (Z.to_nat gamma) tape) ++ tau_binary)
       = true.
Proof.
  intros Hbeta Hbits Hdg Hentry Htape.
  destruct (amdc_encode_message_returns irreducible_binary_polynomial_dict
              message beta d gamma tape Hbeta Hbits Hdg Hentry Htape)
    as (tau_binary & Hlen_tau & Hlen_theta & Hlen_padded & Etau & Eenc).
  assert (Htau : forallb is_bit tau_binary = true)
    by (apply (calculate_tau_bits unit _ _ _ _ tt tt _ (Etau unit tt))).
  exists tau_binary. rewrite <- app_assoc in Eenc.
  split; [exact Eenc|]. split; [|split; [exact Hlen_tau|split; [exact Htau|]]].
  - rewrite len_app, len_replicate in Hlen_padded.
    destruct (d_and_gamma_returns beta (len message) ltac:(lia) (len_nonneg message))
      as (d' & gamma' & Hdg' & _ & _ & Hcover).
    rewrite Hdg in Hdg'. injection Hdg' as <- <-. lia.
  - repeat apply bits_app; auto using bits_replicate_0, bits_b2z.
Qed.

End CodeWord.

Lemma amdc_encode_message_systematic_witness :
  exists tau_binary,
    amdc_encode_message example_polynomial_dict [1; 0; 1] 1
      [true; false; true; true; false]
    = Done ([1; 0; 1] ++ replicate 0 (3 * 3 - len [1; 0; 1])
            ++ map Z.b2z (firstn (Z.to_nat 3) [true; false; true; true; false])
            ++ tau_binary)
        (skipn (Z.to_nat 3) [true; false; true; true; false])
    /\ 0 <= 3 * 3 - len [1; 0; 1]
    /\ len tau_binary = 3
    /\ forallb is_bit tau_binary = true
    /\ forallb is_bit ([1; 0; 1] ++ replicate 0 (3 * 3 - len [1; 0; 1])
                       ++ map Z.b2z (firstn (Z.to_nat 3)
                                       [true; false; true; true; false])
                       ++ tau_binary)
       = true.
Proof.
  apply (amdc_encode_message_systematic example_polynomial_dict [1; 0; 1] 1 3 3
           [true; false; true; true; false]).
  - lia.
  - reflexivity.
  - reflexivity.
  - reflexivity.
  - vm_compute. discriminate.
Defined.

(** ** The tag *)

Lemma list_eqb_neq (l1 : list Z) :
  forall l2, l1 <> l2 -> list_eqb l1 l2 = false.
Proof.
  induction l1 as [|x l1 IH]; intros [|y l2] H; cbn [list_eqb]; try reflexivity.
  - congruence.
  - destruct (x =? y) eqn:E; [|reflexivity]. apply Z.eqb_eq in E. subst y.
    cbn. apply IH. congruence.
Qed.

Section Tag.

Variable irreducible_binary_polynomial_dict : Z -> option string.

(** X3: a code word whose tag has been replaced by another [gamma] entries is
    rejected: the decoder returns [False] with the message, whatever the key
    was. *)
Theorem amdc_decode_message_rejects_other_tag (message : list Z) (beta d gamma : Z)
    (tape : list bool) :
  1 <= beta ->
  forallb is_bit message = true ->
  d_and_gamma beta (len message) = Some (d, gamma) ->
  entry_of_degree gamma (irreducible_binary_polynomial_dict gamma) = true ->
  gamma <= len tape ->
  exists body tau_binary tape',
    amdc_encode_message irreducible_binary_polynomial_dict message beta tape
    = Done (body ++ tau_binary) tape'
    /\ len tau_binary = gamma
    /\ forall (tau_binary_received : list Z) (S : Type) (s : S),
         len tau_binary_received = gamma ->
         tau_binary_received <> tau_binary ->
         amdc_decode_message irreducible_binary_polynomial_dict
           (body ++ tau_binary_received) (len message) beta s
         = Done (false, message) s.
Proof.
  intros Hbeta Hbits Hdg Hentry Htape.
  destruct (amdc_encode_message_returns irreducible_binary_polynomial_dict
              message beta d gamma tape Hbeta Hbits Hdg Hentry Htape)
    as (tau_binary & Hlen_tau & Hlen_theta & Hlen_padded & Etau & Eenc).
  destruct (d_and_gamma_returns beta (len message) ltac:(lia) (len_nonneg message))
    as (d' & gamma' & Hdg' & Hd & Hgamma & Hcover).
  rewrite Hdg in Hdg'. injection Hdg' as <- <-.
  set (theta_binary := map Z.b2z (firstn (Z.to_nat gamma) tape)) in *.
  set (padded_message := message ++ replicate 0 (d * gamma - len message)) in *.
  exists (padded_message ++ theta_binary), tau_binary, (skipn (Z.to_nat gamma) tape).
  split; [rewrite <- app_assoc; exact Eenc|]. split; [exact Hlen_tau|].
  intros tau' S s Hlen' Hneq.
  unfold amdc_decode_message, find_d_and_gamma. rewrite Hdg.
  unfold bind at 1, ret at 1.
  replace (- 2 * gamma) with (- (2 * gamma)) by lia.
  rewrite slice_suffix by (lia || assumption).
  rewrite <- app_assoc.
  rewrite slice_middle by (lia || assumption).
  replace (- (2 * gamma)) with (- (gamma + gamma)) by lia.
  rewrite slice_prefix by (rewrite ?len_app; lia).
  rewrite (bind_done _ (Etau S s)). unfold ret.
  rewrite list_eqb_neq by congruence.
  unfold padded_message. rewrite slice_head. reflexivity.
Qed.

(** ** A table without the entry *)

(** X4: when the table has no entry for [gamma], [str] makes "None" of the
    answer of [dict.get] and [int] raises [ValueError] on its first
    character: the encoder raises after it has drawn the key, the decoder
    raises whatever it is given. *)
Theorem amdc_missing_polynomial (message encoded_message : list Z)
    (message_length beta d gamma d' : Z) (tape : list bool) :
  irreducible_binary_polynomial_dict gamma = None ->
  d_and_gamma beta (len message) = Some (d, gamma) ->
  d_and_gamma beta message_length = Some (d', gamma) ->
  gamma <= len tape ->
  amdc_encode_message irreducible_binary_polynomial_dict message beta tape
  = Raised ValueError (skipn (Z.to_nat gamma) tape)
  /\ forall (S : Type) (s : S),
       amdc_decode_message irreducible_binary_polynomial_dict encoded_message
         message_length beta s
       = Raised ValueError s.
Proof.
  intros Hnone Hdg Hdg' Htape. split.
  - unfold amdc_encode_message, find_d_and_gamma. rewrite Hdg.
    unfold bind at 1, ret at 1. unfold randbits_list.
    rewrite (bind_done _ (randbits_list_returns (Z.to_nat gamma) tape
                            ltac:(unfold len in *; lia))).
    unfold calculate_tau, str_get_binary_irreducible. rewrite Hnone. reflexivity.
  - intros S s. unfold amdc_decode_message, find_d_and_gamma. rewrite Hdg'.
    unfold bind at 1, ret at 1.
    unfold calculate_tau, str_get_binary_irreducible. rewrite Hnone. reflexivity.
Qed.

End Tag.

Lemma amdc_decode_message_rejects_other_tag_witness :
  exists body tau_binary tape',
    amdc_encode_message example_polynomial_dict [1; 0; 1] 1
      [true; false; true; true; false]
    = Done (body ++ tau_binary) tape'
    /\ len tau_binary = 3
    /\ forall (tau_binary_received : list Z) (S : Type) (s : S),
         len tau_binary_received = 3 ->
         tau_binary_received <> tau_binary ->
         amdc_decode_message example_polynomial_dict
           (body ++ tau_binary_received) (len [1; 0; 1]) 1 s
         = Done (false, [1; 0; 1]) s.
Proof.
  apply (amdc_decode_message_rejects_other_tag example_polynomial_dict [1; 0; 1] 1 3 3
           [true; false; true; true; false]).
  - lia.
  - reflexivity.
  - reflexivity.
  - reflexivity.
  - vm_compute. discriminate.
Defined.

Lemma amdc_missing_polynomial_witness :
  amdc_encode_message example_polynomial_dict [1] 11
    (repeat true 12)
  = Raised ValueError (skipn (Z.to_nat 12) (repeat true 12))
  /\ forall (S : Type) (s : S),
       amdc_decode_message example_polynomial_dict [1; 1; 0] 1 11 s
       = Raised ValueError s.
Proof.
  apply (amdc_missing_polynomial example_polynomial_dict [1] [1; 1; 0] 1 11 1 12 1
           (repeat true 12)).
  - reflexivity.
  - reflexivity.
  - reflexivity.
  - vm_compute. discriminate.
Defined.

(** * Messages as bits and as text *)

(** ** The setter of [message_input] *)









(** ** From bits to text *)

Lemma str_of_bit (i : Z) :
  is_bit i = true -> list_ascii_of_string (str_of_int i) = [bit_char i].
Proof.
  unfold is_bit. intros H. apply orb_prop in H.
  destruct H as [H|H]; apply Z.eqb_eq in H; subst i; reflexivity.
Qed.

Lemma digits_of_bits (l : list Z) :
  forallb is_bit l = true ->
  flat_map (fun i => list_ascii_of_string (str_of_int i)) l = map bit_char l.
Proof.
  induction l as [|i l IH]; [reflexivity|]. cbn [forallb flat_map map]. intros H.
  apply andb_prop in H as [Hi Hl]. rewrite (str_of_bit i Hi), (IH Hl). reflexivity.
Qed.

Lemma int_base2_digits (chunk : list ascii) :
  forall acc, forallb is_bit_char chunk = true ->
  exists v, int_base2 acc chunk = Some v.
Proof.
  induction chunk as [|c chunk IH]; intros acc H; cbn [int_base2].
  - exists acc. reflexivity.
  - cbn [forallb] in H. apply andb_prop in H as [Hc H]. unfold is_bit_char in Hc.
    destruct (Ascii.eqb c "0"); [apply IH, H|].
    destruct (Ascii.eqb c "1"); [apply IH, H | discriminate Hc].
Qed.

Lemma bit_chars (l : list Z) : forallb is_bit_char (map bit_char l) = true.
Proof.
  induction l as [|i l IH]; [reflexivity|]. cbn [map forallb]. rewrite IH.
  unfold bit_char. destruct (i =? 0); reflexivity.
Qed.

Lemma chunks_of_8_members (fuel : nat) :
  forall (s : list ascii) (chunk : list ascii),
    In chunk (chunks_of_8 fuel s) ->
    chunk <> [] /\ forall c, In c chunk -> In c s.
Proof.
  induction fuel as [|fuel IH]; intros s chunk H; [contradiction|].
  destruct s as [|c0 s]; [contradiction|]. cbn [chunks_of_8] in H.
  destruct H as [<-|H].
  - split; [discriminate|]. intros c Hc.
    rewrite <- (firstn_skipn 8 (c0 :: s)). apply in_or_app. left. exact Hc.
  - destruct (IH _ _ H) as [Hne Hin]. split; [exact Hne|]. intros c Hc.
    rewrite <- (firstn_skipn 8 (c0 :: s)). apply in_or_app. right. auto.
Qed.

Lemma chunk_count (n : nat) :
  Datatypes.S ((Datatypes.S n - 8 + 7) / 8) = ((Datatypes.S n + 7) / 8)%nat.
Proof.
  destruct (Nat.le_gt_cases 8 (Datatypes.S n)) as [Hge|Hlt].
  - replace (Datatypes.S n + 7)%nat with (Datatypes.S n - 8 + 7 + 1 * 8)%nat by lia.
    rewrite Nat.div_add by lia. lia.
  - replace (Datatypes.S n - 8)%nat with 0%nat by lia.
    rewrite (Nat.div_small (0 + 7) 8) by lia.
    apply Nat.div_unique with (r := n); lia.
Qed.

Lemma chunks_of_8_length (fuel : nat) :
  forall s : list ascii, (List.length s <= fuel)%nat ->
  List.length (chunks_of_8 fuel s) = ((List.length s + 7) / 8)%nat.
Proof.
  induction fuel as [|fuel IH]; intros s Hs.
  - destruct s; [reflexivity | cbn in Hs; lia].
  - destruct s as [|c0 s]; [reflexivity|].
    change (chunks_of_8 (Datatypes.S fuel) (c0 :: s))
      with (firstn 8 (c0 :: s) :: chunks_of_8 fuel (skipn 8 (c0 :: s))).
    change (List.length (firstn 8 (c0 :: s) :: chunks_of_8 fuel (skipn 8 (c0 :: s))))
      with (Datatypes.S (List.length (chunks_of_8 fuel (skipn 8 (c0 :: s))))).
    rewrite IH by (rewrite length_skipn; cbn [List.length] in *; lia).
    rewrite length_skipn.
    change (List.length (c0 :: s)) with (Datatypes.S (List.length s)).
    apply chunk_count.
Qed.

(** X6: [received_message_to_string] on a list of bits of any length: it returns,
    with one character for every eight bits and one more for the bits that
    are left over. *)
Theorem received_message_to_string_returns (q : Process) :
  forallb is_bit (message_amdc_decoded_received_message (self q)) = true ->
  received_message_to_string q
  = Done tt (with_self
               (upd_message_received_str
                  (string_of_list_ascii
                     (chars_of_bits (message_amdc_decoded_received_message (self q)))))
               q)
  /\ List.length (chars_of_bits (message_amdc_decoded_received_message (self q)))
     = ((List.length (message_amdc_decoded_received_message (self q)) + 7) / 8)%nat.
Proof.
  intros Hbits. set (decoded := message_amdc_decoded_received_message (self q)) in *.
  split.
  - unfold received_message_to_string, bind at 1, the. fold decoded.
    rewrite (digits_of_bits decoded Hbits), length_map.
    assert (Hchunks : forall chunk,
               In chunk (chunks_of_8 (List.length decoded) (map bit_char decoded)) ->
               match chunk with
               | [] => raise ValueError
               | _ :: _ =>
                   match int_base2 0 chunk with
                   | Some v => ret (ascii_of_N (Z.to_N v))
                   | None => raise ValueError
                   end
               end q
               = Done (ascii_of_N (Z.to_N (chunk_value chunk))) q).
    { intros chunk Hchunk.
      destruct (chunks_of_8_members _ _ _ Hchunk) as [Hne Hin].
      destruct (int_base2_digits chunk 0) as [v Hv].
      { apply forallb_forall. intros c Hc.
        pose proof (bit_chars decoded) as Hall. rewrite forallb_forall in Hall. auto. }
      unfold chunk_value. rewrite Hv. destruct chunk; [congruence | reflexivity]. }
    rewrite (bind_done _ (map_m_done _ _ _ q Hchunks)). reflexivity.
  - unfold chars_of_bits. rewrite length_map, chunks_of_8_length, length_map by
      (rewrite length_map; lia).
    reflexivity.
Qed.

Lemma received_message_to_string_returns_witness :
  received_message_to_string reading_example
  = Done tt (with_self
               (upd_message_received_str
                  (string_of_list_ascii
                     (chars_of_bits
                        (message_amdc_decoded_received_message (self reading_example)))))
               reading_example)
  /\ List.length (chars_of_bits
                    (message_amdc_decoded_received_message (self reading_example)))
     = ((List.length (message_amdc_decoded_received_message (self reading_example)) + 7)
        / 8)%nat.
Proof. apply (received_message_to_string_returns reading_example). reflexivity. Defined.

(** ** From text to bits and back *)







(** * The participant by itself *)

(** ** [clear_all] and [__init__] *)

(** X8: [clear_all] returns for every participant whose identifier is not the
    empty string. It leaves [message_length], [encoded_message_length],
    [message_received_str] and [message_finished] as they are; with these four
    set as [__init__] sets them, the participant is as [__init__] leaves it.
    Done twice it does what it does once. With the empty string as identifier
    both raise [NameError], at the assignment to [notification_input]. *)
Theorem clear_all_resets (p : ParticipantNode) :
  if String.eqb (node_id p) ""
  then (exists p1, clear_all p = Raised NameError p1)
       /\ (exists p2, init p = Raised NameError p2)
  else exists p',
      clear_all p = Done tt p'
      /\ init p
         = Done tt (upd_message_length 64
                      (upd_encoded_message_length 99
                         (upd_message_received_str ""
                            (upd_message_finished [] p'))))
      /\ message_length p' = message_length p
      /\ encoded_message_length p' = encoded_message_length p
      /\ message_received_str p' = message_received_str p
      /\ message_finished p' = message_finished p
      /\ node_id p' = node_id p
      /\ all_nodes p' = all_nodes p
      /\ clear_all p' = Done tt p'.
Proof.
  destruct p as [id nodes ? ? ? ? ? ? ? ? ? ? ? ? ? ? ? ? ? ? ? ? ? ? ? ? ? ? ? ? ?].
  cbn [node_id]. destruct id as [|c id].
  - split; eexists; cbv; reflexivity.
  - cbn [String.eqb]. eexists. split; [cbv; reflexivity|].
    repeat split; cbv; reflexivity.
Qed.

(** ** The dispatcher of incoming messages *)

(** X9: a message with an unknown key raises [LookupError] and changes nothing.
    Messages for different lists can arrive in either order: the participant
    is the same afterwards. *)
Theorem sort_incoming_messages_commute (a b : message) (p : ParticipantNode) :
  bucket_of a <> None ->
  bucket_of b <> None ->
  bucket_of a <> bucket_of b ->
  (exists p',
     (sort_incoming_messages a ;; sort_incoming_messages b)%py p = Done tt p'
     /\ (sort_incoming_messages b ;; sort_incoming_messages a)%py p = Done tt p')
  /\ forall protocol,
       (sort_incoming_messages a ;; sort_incoming_messages (msg_other protocol))%py p
       = Raised LookupError (receive a p).
Proof.
  intros Ha Hb Hab. split.
  - destruct a, b; cbn in Ha, Hb, Hab; try congruence;
      (eexists; split; reflexivity).
  - intros protocol. destruct a; cbn in Ha; try congruence; reflexivity.
Qed.

Lemma sort_incoming_messages_commute_witness :
  (exists p',
     (sort_incoming_messages (msg_parity_shared_key 1) ;;
      sort_incoming_messages (msg_parity_finished true))%py typing_example = Done tt p'
     /\ (sort_incoming_messages (msg_parity_finished true) ;;
         sort_incoming_messages (msg_parity_shared_key 1))%py typing_example
        = Done tt p')
  /\ forall protocol,
       (sort_incoming_messages (msg_parity_shared_key 1) ;;
        sort_incoming_messages (msg_other protocol))%py typing_example
       = Raised LookupError (receive (msg_parity_shared_key 1) typing_example).
Proof.
  apply (sort_incoming_messages_commute (msg_parity_shared_key 1)
           (msg_parity_finished true) typing_example); discriminate.
Defined.

(** ** The share vector *)

(** X10: whenever [create_bitstring] returns, the vector has one bit for each
    participant of the network, the bits xor to [parity_input], and the
    participant is as before. So it cannot return for a [parity_input] that
    is not a bit. *)
Theorem create_bitstring_shares (p p' : Process) (bitstring : list Z) :
  create_bitstring p = Done bitstring p' ->
  len bitstring = len (all_nodes (self p)) + 1
  /\ forallb is_bit bitstring = true
  /\ bitwise_xor_reduce bitstring = parity_input (self p)
  /\ is_bit (parity_input (self p)) = true
  /\ self p' = self p /\ outbox p' = outbox p /\ log p' = log p.
Proof.
  unfold create_bitstring, bind, the, on_tape. intros E.
  destruct (draw_bitstring (len (all_nodes (self p)) + 1) (parity_input (self p))
              (tape p)) as [bits t'| | |] eqn:Ed; try discriminate E.
  injection E as <- <-.
  destruct (draw_bitstring_inv _ _ _ _ _ Ed) as (Hlen & Hbits & Hxor).
  assert (Hbit : is_bit (bitwise_xor_reduce bits) = true).
  { clear - Hbits. unfold bitwise_xor_reduce.
    assert (H : forall acc, is_bit acc = true -> is_bit (fold_left Z.lxor bits acc) = true).
    { induction bits as [|b bits IH]; intros acc Hacc; [exact Hacc|].
      cbn [forallb] in Hbits. apply andb_prop in Hbits as [Hb Hbits].
      cbn [fold_left]. apply IH; [exact Hbits|].
      unfold is_bit in *. apply orb_prop in Hb. apply orb_prop in Hacc.
      destruct Hb as [Hb|Hb], Hacc as [Hacc|Hacc];
        apply Z.eqb_eq in Hb; apply Z.eqb_eq in Hacc; subst; reflexivity. }
    apply H. reflexivity. }
  rewrite Hxor in Hbit.
  repeat split; try assumption; try reflexivity.
  unfold len in *. pose proof (len_nonneg (all_nodes (self p))). unfold len in *. lia.
Qed.

Lemma create_bitstring_shares_witness :
  len [1; 0; 1] = len (all_nodes (self sharing_example)) + 1
  /\ forallb is_bit [1; 0; 1] = true
  /\ bitwise_xor_reduce [1; 0; 1] = parity_input (self sharing_example)
  /\ is_bit (parity_input (self sharing_example)) = true
  /\ self (Build_Process (self sharing_example) [false; true; true] [] [])
     = self sharing_example
  /\ outbox (Build_Process (self sharing_example) [false; true; true] [] [])
     = outbox sharing_example
  /\ log (Build_Process (self sharing_example) [false; true; true] [] [])
     = log sharing_example.
Proof.
  apply (create_bitstring_shares sharing_example
           (Build_Process (self sharing_example) [false; true; true] [] [])
           [1; 0; 1]).
  reflexivity.
Defined.

(** * Further properties of the protocols *)

(** ** Parity with a participant that broadcasts last *)

(** X11: [execute_parity] with at most one participant that broadcasts last, as
    the veto runs it: in a connected group with empty mailboxes every
    participant returns with the xor of all inputs as [parity_result], nothing
    else of it has changed, and its tape has lost the bits of its share
    vector and no others. *)
Theorem parity_correct_with_last_broadcaster (net : Net) :
  connected net ->
  (forall p, In p net -> idle p) ->
  one_broadcasts_last net ->
  (forall p, In p net -> draws p = true) ->
  exists net',
    execute_parity net = Done tt net'
    /\ Forall2 (fun p q => self q = upd_parity_result (parity_of net) (self p)
                           /\ tape q = snd (drawn p) /\ outbox q = [])
         net net'.
Proof.
  intros Hconn Hidle Hlast Hdraws.
  destruct (execute_parity_from net Hconn (fun p Hp => proj1 (Hidle p Hp)) Hdraws
              Hlast net)
    as (net' & E & H).
  - apply looks_itself. intros p Hp. apply (Hidle p Hp).
  - exists net'. split; [exact E|].
    eapply Forall2_impl; [|exact H]. intros p q Hl. exact Hl.
Qed.

Lemma parity_correct_with_last_broadcaster_witness :
  exists net',
    execute_parity last_example = Done tt net'
    /\ Forall2 (fun p q => self q = upd_parity_result (parity_of last_example) (self p)
                           /\ tape q = snd (drawn p) /\ outbox q = [])
         last_example net'.
Proof.
  apply (parity_correct_with_last_broadcaster last_example).
  - apply connectedb_sound. vm_compute. reflexivity.
  - intros p [<-|[<-|[<-|[]]]]; vm_compute; auto.
  - intros p q [<-|[<-|[<-|[]]]] [<-|[<-|[<-|[]]]]; vm_compute; intros H1 H2;
      try reflexivity; discriminate.
  - intros p [<-|[<-|[<-|[]]]]; vm_compute; reflexivity.
Defined.

(** ** What the protocols leave alone *)

Lemma keeps_weaken {S A B C : Type} (view : S -> B) (g : B -> C) (m : M S A) :
  keeps view m -> keeps (fun s => g (view s)) m.
Proof. intros H s. unfold keeps in H. rewrite H. reflexivity. Qed.

Section KeepsCodec.

Context {S B : Type} (view : S -> B).

Lemma keeps_map_m {A C : Type} (f : A -> M S C) (l : list A) :
  (forall x, keeps view (f x)) -> keeps view (map_m f l).
Proof.
  intros Hf. induction l as [|x l IH]; cbn [map_m]; [apply keeps_ret|].
  apply keeps_bind; [apply Hf|]. intros y.
  apply keeps_bind; [exact IH|]. intros ys. apply keeps_ret.
Qed.

Lemma keeps_fold_m {A C : Type} (body : C -> A -> M S C) (l : list A) :
  (forall c x, keeps view (body c x)) -> forall c, keeps view (fold_m body l c).
Proof.
  intros Hbody. induction l as [|x l IH]; intros c; cbn [fold_m]; [apply keeps_ret|].
  apply keeps_bind; [apply Hbody | intros c'; apply IH].
Qed.

Lemma keeps_find_d_and_gamma (beta m_len : Z) :
  keeps view (find_d_and_gamma beta m_len).
Proof.
  intros s. unfold find_d_and_gamma. destruct (d_and_gamma beta m_len); reflexivity.
Qed.

Lemma keeps_Poly (coeffs : list Z) : keeps view (GF2.Poly coeffs).
Proof.
  intros s. unfold GF2.Poly. destruct coeffs; [reflexivity|].
  destruct (forallb _ _); reflexivity.
Qed.

Lemma keeps_int_of_char (c : ascii) : keeps view (int_of_char c).
Proof.
  intros s. unfold int_of_char. destruct (_ && _); reflexivity.
Qed.

Lemma keeps_array_split (l : list Z) (sections : Z) :
  keeps view (array_split l sections).
Proof.
  intros s. unfold array_split. destruct (sections <=? 0); reflexivity.
Qed.

Lemma keeps_add_term (u_poly_list : list N) (theta_poly f_poly : N) (i : Z) :
  keeps view (add_term u_poly_list theta_poly f_poly i).
Proof.
  intros s. unfold add_term. destruct (nth_error _ _); reflexivity.
Qed.

Lemma keeps_mod (a b : N) : keeps view (GF2.mod_ a b).
Proof. intros s. unfold GF2.mod_. destruct (b =? 0)%N; reflexivity. Qed.

Lemma keeps_item (l : list Z) (i : Z) : keeps view (item l i).
Proof. intros s. unfold item. destruct (nth_error _ _); reflexivity. Qed.

Lemma keeps_calculate_tau (dict : Z -> option string)
    (padded_message theta_binary : list Z) (d gamma : Z) :
  keeps view (calculate_tau dict padded_message theta_binary d gamma).
Proof.
  unfold calculate_tau.
  apply keeps_bind; [apply keeps_map_m, keeps_int_of_char | intro].
  apply keeps_bind; [apply keeps_Poly | intro].
  apply keeps_bind; [apply keeps_Poly | intro].
  apply keeps_bind; [apply keeps_array_split | intro].
  apply keeps_bind; [apply keeps_map_m, keeps_Poly | intro].
  apply keeps_bind; [apply keeps_fold_m; intros; apply keeps_add_term | intro].
  apply keeps_bind; [apply keeps_mod | intro]. apply keeps_ret.
Qed.

Lemma keeps_amdc_decode_message (dict : Z -> option string) (encoded_message : list Z)
    (message_length beta : Z) :
  keeps view (amdc_decode_message dict encoded_message message_length beta).
Proof.
  unfold amdc_decode_message.
  apply keeps_bind; [apply keeps_find_d_and_gamma|]. intros [d gamma].
  apply keeps_bind; [apply keeps_calculate_tau | intro]. apply keeps_ret.
Qed.

End KeepsCodec.

Lemma keeps_send_to_node_by_id {B : Type} (view : ParticipantNode -> B)
    (receiver_id : string) (data : message) :
  keeps (of_self view) (send_to_node_by_id receiver_id data).
Proof.
  unfold send_to_node_by_id. apply keeps_bind; [apply keeps_the|]. intros nodes.
  apply keeps_for_each. intros n.
  destruct (String.eqb n receiver_id); [apply keeps_send_to_node | apply keeps_ret].
Qed.

Lemma keeps_send_key_bits {B : Type} (view : ParticipantNode -> B) (nodes : list string) :
  forall bitstring, keeps (of_self view) (send_key_bits nodes bitstring).
Proof.
  induction nodes as [|n nodes IH]; intros bitstring; cbn [send_key_bits].
  - apply keeps_ret.
  - destruct bitstring; [apply keeps_raise|].
    apply keeps_bind; [apply keeps_send_to_node | intros _; apply IH].
Qed.

(** The setters of the bits leave alone what is not their bit. *)
Ltac keeps_setter :=
  let s := fresh "s" in
  intros s;
  unfold parity_input_setter, veto_input_setter, collision_detection_input_setter;
  match goal with
  | |- context [if ?c then _ else _] => destruct c
  end; reflexivity.

Ltac keeps_with sort_lemma :=
  lazymatch goal with
  | |- keeps _ (bind _ _) => apply keeps_bind; [|intro]
  | |- keeps _ (ret _) => apply keeps_ret
  | |- keeps _ (raise _) => apply keeps_raise
  | |- keeps _ (the _) => apply keeps_the
  | |- keeps _ (on_tape _) => apply keeps_on_tape
  | |- keeps _ (assign _) => apply keeps_assign; intro; reflexivity
  | |- keeps _ (send_to_nodes _) => apply keeps_send_to_nodes
  | |- keeps _ (send_to_node _ _) => apply keeps_send_to_node
  | |- keeps _ (send_to_node_by_id _ _) => apply keeps_send_to_node_by_id
  | |- keeps _ (send_key_bits _ _) => apply keeps_send_key_bits
  | |- keeps _ (wait_while_receiving _ _) => apply keeps_wait_while_receiving
  | |- keeps _ (item _ _) => apply keeps_item
  | |- keeps _ (amdc_decode_message _ _ _ _) => apply keeps_amdc_decode_message
  | |- keeps _ (map_m _ _) => apply keeps_map_m; intro
  | |- keeps _ (on_self _) => apply keeps_on_self; keeps_setter
  | |- keeps _ (each _) => apply (keeps_each _ sort_lemma)
  | |- keeps _ (each_local _) => apply (keeps_each_local _ sort_lemma)
  | |- keeps _ (each_with _ _) => apply (keeps_each_with _ sort_lemma); intro
  | |- keeps _ (agree _ _) => apply keeps_agree
  | |- keeps _ (for_each _ _) => apply keeps_for_each; intro
  | |- keeps _ (for_until _ _) => apply keeps_for_until; intro
  | |- keeps _ (if ?b then _ else _) => destruct b
  | |- keeps _ (match ?x with _ => _ end) => destruct x
  | |- keeps _ (let '(_, _) := ?x in _) => destruct x
  end.

(** *** Parity and veto *)

Lemma sort_keeps_beyond_veto (data : message) :
  keeps beyond_veto (sort_incoming_messages data).
Proof. intros s. destruct data; reflexivity. Qed.

Lemma execute_parity_keeps_beyond_veto : keeps (of_all beyond_veto) execute_parity.
Proof.
  unfold execute_parity, distribute_key_bits, distribute_key_bits_send,
    distribute_key_bits_wait, create_bitstring, calculate_and_broadcast_keys,
    calculate_parity_xor_key_result, calculate_parity_result,
    append_parity_received_broadcast_value, send_parity_finished_send,
    send_parity_finished_wait.
  repeat keeps_with sort_keeps_beyond_veto.
Qed.

Lemma veto_parity_round_keeps_beyond_veto :
  keeps (of_all beyond_veto) veto_parity_round.
Proof.
  unfold veto_parity_round, set_parity_input_by_veto_input, send_veto_finished.
  repeat first [apply execute_parity_keeps_beyond_veto
               | keeps_with sort_keeps_beyond_veto].
Qed.

Lemma execute_veto_keeps_beyond_veto (veto_security : Z) :
  keeps (of_all beyond_veto) (execute_veto veto_security).
Proof.
  unfold execute_veto, rounds_of_all_node_ids, veto_rounds_for, send_veto_finished.
  repeat first [apply veto_parity_round_keeps_beyond_veto
               | keeps_with sort_keeps_beyond_veto].
Qed.

(** X12: however [execute_parity] and [execute_veto] end at a group, returning or
    not, they have changed nothing of a participant but the attributes of the
    parity protocol, [veto_result], [veto_finished] and the lists that the
    dispatcher fills: identifier, connections, the inputs of veto, collision
    detection, notification and message, the roles and what has been received
    are as before. *)
Theorem parity_and_veto_keep_the_rest (veto_security : Z) (net : Net) :
  of_all beyond_veto (state_of (execute_parity net)) = of_all beyond_veto net
  /\ of_all beyond_veto (state_of (execute_veto veto_security net))
     = of_all beyond_veto net.
Proof.
  split.
  - apply execute_parity_keeps_beyond_veto.
  - apply execute_veto_keeps_beyond_veto.
Qed.

(** *** The whole transmission *)

Lemma keeps_of_all_weaken {A B C : Type} (view : ParticipantNode -> B) (g : B -> C)
    (m : M Net A) :
  keeps (of_all view) m -> keeps (of_all (fun s => g (view s))) m.
Proof.
  intros H net. unfold of_all, of_self in *.
  rewrite <- !(map_map (fun p => view (self p)) g). rewrite H. reflexivity.
Qed.

Lemma sort_keeps_user_inputs (data : message) :
  keeps user_inputs (sort_incoming_messages data).
Proof. intros s. destruct data; reflexivity. Qed.

Lemma execute_parity_keeps_user_inputs : keeps (of_all user_inputs) execute_parity.
Proof.
  apply (keeps_of_all_weaken beyond_veto
           (fun '(id, nodes, _, _, _, notification, _, message, _, _, _, _, _, _, _,
                  length, encoded_length) =>
              (id, nodes, notification, message, length, encoded_length))).
  apply execute_parity_keeps_beyond_veto.
Qed.

Lemma execute_veto_keeps_user_inputs (veto_security : Z) :
  keeps (of_all user_inputs) (execute_veto veto_security).
Proof.
  apply (keeps_of_all_weaken beyond_veto
           (fun '(id, nodes, _, _, _, notification, _, message, _, _, _, _, _, _, _,
                  length, encoded_length) =>
              (id, nodes, notification, message, length, encoded_length))).
  apply execute_veto_keeps_beyond_veto.
Qed.

Lemma create_order_keeps_user_inputs :
  keeps (of_all user_inputs) create_order_in_all_node_ids.
Proof.
  unfold create_order_in_all_node_ids. repeat keeps_with sort_keeps_user_inputs.
Qed.

Lemma execute_collision_detection_keeps_user_inputs (collision_detection_security : Z) :
  keeps (of_all user_inputs) (execute_collision_detection collision_detection_security).
Proof.
  unfold execute_collision_detection, set_inputs_for_round_a,
    set_veto_input_for_round_b, send_collision_detection_finished.
  repeat first [apply execute_veto_keeps_user_inputs
               | keeps_with sort_keeps_user_inputs].
Qed.

Lemma execute_notification_keeps_user_inputs (notification_security : Z) :
  keeps (of_all user_inputs) (execute_notification notification_security).
Proof.
  unfold execute_notification, execute_notification_parity, rounds_of_all_node_ids,
    notification_parity_round, set_notification_parity_by_notification_input,
    set_notification_result_by_parity_result, distribute_key_bits,
    distribute_key_bits_send, distribute_key_bits_wait, create_bitstring,
    calculate_parity_xor_key_result, calculate_parity_result,
    append_parity_received_broadcast_value, send_parity_finished_send,
    send_parity_finished_wait, send_notification_finished.
  repeat keeps_with sort_keeps_user_inputs.
Qed.

Section KeepsTransmission.

Variable irreducible_binary_polynomial_dict : Z -> option string.

Lemma execute_fixed_role_keeps_user_inputs (security bit_count : Z) :
  keeps (of_all user_inputs)
    (execute_fixed_role_message_transmission irreducible_binary_polynomial_dict
       security bit_count).
Proof.
  unfold execute_fixed_role_message_transmission, prepare_roles, create_one_time_pad,
    set_parity_input_by_message_role, add_to_received_message, check_received_message,
    received_message_to_string, send_fixed_message_finished.
  repeat first [apply execute_veto_keeps_user_inputs
               | apply execute_parity_keeps_user_inputs
               | keeps_with sort_keeps_user_inputs].
Qed.

(** X13: however [execute_message_transmission] ends at a group, it has left
    alone what the users have set and what the constructor has fixed: the
    identifier and the connections of every participant, its
    [notification_input] and [message_input], its [message_length] and
    [encoded_message_length]. *)
Theorem execute_message_transmission_keeps_inputs (security : Z) (net : Net) :
  of_all user_inputs
    (state_of (execute_message_transmission irreducible_binary_polynomial_dict
                 security net))
  = of_all user_inputs net.
Proof.
  revert net.
  change (keeps (of_all user_inputs)
            (execute_message_transmission irreducible_binary_polynomial_dict security)).
  unfold execute_message_transmission, send_message_finished.
  repeat first [apply execute_collision_detection_keeps_user_inputs
               | apply execute_notification_keeps_user_inputs
               | apply execute_fixed_role_keeps_user_inputs
               | apply create_order_keeps_user_inputs
               | keeps_with sort_keeps_user_inputs].
Qed.

End KeepsTransmission.

(** ** The order of the identifiers *)

Lemma leb_trans (a b c : string) :
  String.leb a b = true -> String.leb b c = true -> String.leb a c = true.
Proof.
  unfold String.leb. intros Hab Hbc.
  destruct (String.compare a b) eqn:Eab; try discriminate Hab;
    destruct (String.compare b c) eqn:Ebc; try discriminate Hbc.
  - apply String.compare_eq_iff in Eab. subst b. rewrite Ebc. reflexivity.
  - apply String.compare_eq_iff in Eab. subst b. rewrite Ebc. reflexivity.
  - apply String.compare_eq_iff in Ebc. subst c. rewrite Eab. reflexivity.
  - apply OrderedTypeEx.String_as_OT.cmp_lt in Eab, Ebc.
    pose proof (OrderedTypeEx.String_as_OT.lt_trans _ _ _ Eab Ebc) as H.
    apply OrderedTypeEx.String_as_OT.cmp_lt in H.
    unfold OrderedTypeEx.String_as_OT.cmp in H. rewrite H. reflexivity.
Qed.

Lemma leb_false (a b : string) : String.leb a b = false -> String.leb b a = true.
Proof.
  intros H. destruct (String.leb_total a b) as [H'|H']; [congruence | exact H'].
Qed.

Lemma insert_sorted_swap (a b : string) (l : list string) :
  insert_sorted a (insert_sorted b l) = insert_sorted b (insert_sorted a l).
Proof.
  induction l as [|y l IH]; cbn [insert_sorted].
  - destruct (String.leb a b) eqn:Eab, (String.leb b a) eqn:Eba; try reflexivity.
    + rewrite (String.leb_antisym _ _ Eab Eba). reflexivity.
    + apply leb_false in Eab. congruence.
  - destruct (String.leb b y) eqn:Eby, (String.leb a y) eqn:Eay; cbn [insert_sorted].
    + destruct (String.leb a b) eqn:Eab, (String.leb b a) eqn:Eba;
        rewrite ?Eay, ?Eby; try reflexivity.
      * rewrite (String.leb_antisym _ _ Eab Eba). reflexivity.
      * apply leb_false in Eab. congruence.
    + destruct (String.leb a b) eqn:Eab.
      * rewrite (leb_trans _ _ _ Eab Eby) in Eay. discriminate.
      * rewrite Eay, Eby. reflexivity.
    + destruct (String.leb b a) eqn:Eba.
      * rewrite (leb_trans _ _ _ Eba Eay) in Eby. discriminate.
      * rewrite Eay, Eby. reflexivity.
    + rewrite Eay, Eby, IH. reflexivity.
Qed.

Lemma sort_permutation (l l' : list string) : Permutation l l' -> sort l = sort l'.
Proof.
  unfold sort. induction 1; cbn [fold_right].
  - reflexivity.
  - rewrite IHPermutation. reflexivity.
  - apply insert_sorted_swap.
  - congruence.
Qed.

Lemma insert_sorted_permutation (a : string) (l : list string) :
  Permutation (insert_sorted a l) (a :: l).
Proof.
  induction l as [|y l IH]; cbn [insert_sorted]; [reflexivity|].
  destruct (String.leb a y); [reflexivity|].
  rewrite IH. apply perm_swap.
Qed.

Lemma sort_is_permutation (l : list string) : Permutation (sort l) l.
Proof.
  unfold sort. induction l as [|a l IH]; cbn [fold_right]; [reflexivity|].
  rewrite insert_sorted_permutation, IH. reflexivity.
Qed.

Lemma insert_sorted_sorted (a : string) (l : list string) :
  Sorted.Sorted (fun x y => String.leb x y = true) l ->
  Sorted.Sorted (fun x y => String.leb x y = true) (insert_sorted a l).
Proof.
  induction 1 as [|y l Hl IH Hhd]; cbn [insert_sorted].
  - repeat constructor.
  - destruct (String.leb a y) eqn:E.
    + constructor; [constructor; assumption | constructor; exact E].
    + constructor; [exact IH|].
      destruct l as [|z l]; cbn [insert_sorted].
      * constructor. apply leb_false, E.
      * inversion Hhd; subst. destruct (String.leb a z); constructor;
          [apply leb_false, E | assumption].
Qed.

Lemma sort_sorted (l : list string) : Sorted.Sorted (fun x y => String.leb x y = true) (sort l).
Proof.
  unfold sort. induction l as [|a l IH]; cbn [fold_right]; [constructor|].
  apply insert_sorted_sorted, IH.
Qed.

Lemma upd_all_node_ids_same (s : ParticipantNode) :
  upd_all_node_ids (all_node_ids s) s = s.
Proof. destruct s; reflexivity. Qed.

Lemma receive_all_node_ids (id : string) (msgs : list (string * message)) :
  Forall (fun m => exists v, snd m = msg_node_id v) msgs ->
  forall s,
    receive_all id msgs s
    = upd_all_node_ids (all_node_ids s ++ map id_payload (inbox id msgs)) s.
Proof. receive_all_by upd_all_node_ids_same. Qed.

Section Order.

Variable net : Net.
Hypothesis Hconn : connected net.

Lemma other_ids_permutation (p : Process) :
  In p net -> Permutation (other_ids net p ++ [node_id (self p)]) (ids net).
Proof.
  intros Hp. destruct Hconn as [Hnd _]. unfold other_ids, ids in *. clear Hconn.
  induction net as [|r net' IH]; [contradiction|].
  cbn [map] in Hnd. inversion Hnd as [|? ? Hnotin Hnd']; subst.
  cbn [filter map].
  destruct (String.eqb (node_id (self r)) (node_id (self p))) eqn:E; cbn [negb].
  - apply String.eqb_eq in E.
    assert (Hall : filter (fun q => negb (String.eqb (node_id (self q))
                                           (node_id (self p)))) net' = net').
    { apply forallb_filter_id. apply forallb_forall. intros q Hq.
      apply negb_true_iff, String.eqb_neq. intros Eq. apply Hnotin.
      rewrite E, <- Eq. apply in_map_iff. exists q. auto. }
    rewrite Hall, <- E. symmetry. apply Permutation_cons_append.
  - destruct Hp as [->|Hp]; [rewrite String.eqb_refl in E; discriminate|].
    cbn [map app]. apply perm_skip. apply (IH Hp Hnd').
Qed.

Lemma own_id_not_among_others (p : Process) :
  existsb (String.eqb (node_id (self p))) (other_ids net p) = false.
Proof.
  unfold other_ids, ids. clear Hconn.
  induction net as [|r net' IH]; [reflexivity|]. cbn [filter].
  destruct (String.eqb (node_id (self r)) (node_id (self p))) eqn:E; cbn [negb];
    [exact IH|].
  cbn [map existsb]. rewrite String.eqb_sym, E. exact IH.
Qed.

Lemma node_ids_received (p : Process) :
  In p net ->
  map id_payload
    (inbox (node_id (self p))
       (flat_map (fun q => to_all q (msg_node_id (node_id (self q)))) net))
  = other_ids net p.
Proof.
  intros Hp.
  rewrite (inbox_of_broadcasts net Hconn p (fun _ => true)
             (fun q => msg_node_id (node_id (self q))) Hp).
  rewrite map_map. unfold other_ids, ids. cbn [andb id_payload].
  reflexivity.
Qed.

End Order.

Lemma create_order_returns (net : Net) :
  connected net ->
  (forall p, In p net -> all_node_ids (self p) = [] /\ outbox p = []) ->
  exists net',
    create_order_in_all_node_ids net = Done tt net'
    /\ Forall2 (fun p q => looks (upd_all_node_ids (sort (ids net)) (self p))
                             (tape p) [] q)
         net net'.
Proof.
  intros Hconn Hfresh.
  assert (Hlooks : Forall2 (fun p q => looks (self p) (tape p) [] q) net net)
    by (apply looks_itself; intros p Hp; apply (Hfresh p Hp)).
  destruct (each_yields (fun p => self p) (fun p => self p)
              (fun p => tape p) (fun p => tape p)
              (fun q => to_all q (msg_node_id (node_id (self q))))
              net net
              (id <- the node_id ;; send_to_nodes (msg_node_id id))%py Hlooks)
    as (net1 & E1 & H1).
  { apply (broadcasts_known (fun _ => true) (fun q => msg_node_id (node_id (self q)))).
    reflexivity. }
  { intros p q Hp Hq. eapply runs_yields; [|exact Hq].
    eapply runs_bind; [apply runs_the|]. apply runs_broadcast. reflexivity. }
  set (S1 := fun p => upd_all_node_ids (other_ids net p) (self p)).
  apply (Forall2_looks_ext _ S1) in H1.
  2:{ intros p Hp. rewrite receive_all_node_ids.
      - rewrite (proj1 (Hfresh p Hp)), (node_ids_received net Hconn p Hp). reflexivity.
      - apply (broadcasts_kind (fun _ => true)
                 (fun q => msg_node_id (node_id (self q))) net
                 (fun d => exists v, d = msg_node_id v)).
        intros q. eexists. reflexivity. }
  destruct (each_yields S1 (fun p => upd_all_node_ids (sort (ids net)) (self p))
              (fun p => tape p) (fun p => tape p) (fun _ => []) net net1
              (nodes <- the all_nodes ;;
               wait_while_receiving in_all_node_ids (len nodes) ;;
               id <- the node_id ;;
               ids <- the all_node_ids ;;
               if existsb (String.eqb id) ids
               then raise NameError
               else assign (upd_all_node_ids (sort (ids ++ [id]))))%py H1)
    as (net2 & E2 & H2).
  { rewrite flat_map_nil. reflexivity. }
  { intros p q Hp Hq. eapply runs_yields; [|exact Hq].
    eapply runs_bind; [apply runs_the|].
    eapply runs_bind.
    { apply runs_wait. unfold S1. cbn [bucket_len].
      change (all_node_ids (upd_all_node_ids (other_ids net p) (self p)))
        with (other_ids net p).
      change (all_nodes (upd_all_node_ids (other_ids net p) (self p)))
        with (all_nodes (self p)).
      unfold len, other_ids, ids.
      rewrite length_map, (others net Hconn p Hp), (connections net Hconn p Hp).
      reflexivity. }
    eapply runs_bind; [apply runs_the|].
    eapply runs_bind; [apply runs_the|].
    unfold S1.
    change (node_id (upd_all_node_ids (other_ids net p) (self p)))
      with (node_id (self p)).
    change (all_node_ids (upd_all_node_ids (other_ids net p) (self p)))
      with (other_ids net p).
    rewrite own_id_not_among_others.
    apply runs_assign_to.
    rewrite (sort_permutation _ _ (other_ids_permutation net Hconn p Hp)).
    destruct (self p); reflexivity. }
  exists net2. split.
  - unfold create_order_in_all_node_ids. rewrite (bind_done _ E1). exact E2.
  - eapply Forall2_looks_ext; [|exact H2]. intros p Hp.
    rewrite flat_map_nil, receive_all_nil. reflexivity.
Qed.

(** X14: [create_order_in_all_node_ids] in a group whose participants are
    connected to each other, have different identifiers and have not received
    any identifier yet: it returns at every participant, and every participant
    has the same [all_node_ids] then, the identifiers of the whole group in
    ascending order; nothing else has changed. *)
Theorem create_order_agrees (net : Net) :
  connected net ->
  (forall p, In p net -> all_node_ids (self p) = [] /\ outbox p = []) ->
  exists net',
    create_order_in_all_node_ids net = Done tt net'
    /\ Forall2 (fun p q => self q = upd_all_node_ids (sort (ids net)) (self p)
                           /\ tape q = tape p /\ outbox q = [])
         net net'
    /\ Permutation (sort (ids net)) (ids net)
    /\ Sorted.Sorted (fun x y => String.leb x y = true) (sort (ids net)).
Proof.
  intros Hconn Hfresh.
  destruct (create_order_returns net Hconn Hfresh) as (net' & E & H).
  exists net'. split; [exact E|]. split; [|split].
  - eapply Forall2_impl; [|exact H]. intros p q Hl. exact Hl.
  - apply sort_is_permutation.
  - apply sort_sorted.
Qed.

Lemma create_order_agrees_witness :
  exists net',
    create_order_in_all_node_ids silent_example = Done tt net'
    /\ Forall2 (fun p q => self q = upd_all_node_ids (sort (ids silent_example)) (self p)
                           /\ tape q = tape p /\ outbox q = [])
         silent_example net'
    /\ Permutation (sort (ids silent_example)) (ids silent_example)
    /\ Sorted.Sorted (fun x y => String.leb x y = true) (sort (ids silent_example)).
Proof.
  apply (create_order_agrees silent_example).
  - apply connectedb_sound. vm_compute. reflexivity.
  - intros p [<-|[<-|[<-|[]]]]; vm_compute; auto.
Defined.

(** ** A group in which nobody sends *)

Lemma collision_detection_silent_state (ids0 : list string) (security : Z)
    (zero : bool) (cur : Net) :
  1 <= security ->
  ids0 <> [] \/ zero = true ->
  in_state (silent ids0 (List.length ids0 * Z.to_nat security) zero) cur ->
  exists cur',
    execute_collision_detection security cur = Done tt cur'
    /\ in_state (found_silent ids0) cur'.
Proof.
  intros Hsec Hzero Hin. unfold execute_collision_detection.
  destruct (each_state _
              (not_vetoing ids0 (List.length ids0 * Z.to_nat security) None zero)
              (fun s _ => upd_veto_input 0 (upd_collision_detection_input 0 s))
              (fun _ t => t)
              set_inputs_for_round_a cur Hin) as (cur1 & E1 & H1).
  { intros s t (Hq & Hf & Ha & Hl & Hs & Ht & Hz). split; [|split; [|split]].
    - unfold set_inputs_for_round_a.
      eapply runs_bind; [apply runs_the|]. rewrite Hs.
      eapply runs_bind; [apply runs_on_self; reflexivity|].
      eapply runs_bind; [apply runs_the|].
      apply runs_on_self. reflexivity.
    - repeat split; try assumption; try apply Hq.
      + intros H. cbn in H. congruence.
    - reflexivity.
    - reflexivity. }
  rewrite (bind_done _ E1).
  assert (Hsilent1 : forall q, In q cur1 -> is_message_sender (self q) = false).
  { intros q Hq.
    destruct (Forall2_in_r _ _ _ q
                (each_done is_message_sender
                   ltac:(intros d s; destruct d; reflexivity) _ _ _ E1) Hq)
      as (p & Hp & p1 & Hbody & Hv).
    rewrite Hv. destruct (proj2 (proj2 Hin) p Hp) as [(_ & _ & _ & _ & Hs & _) _].
    revert Hbody. unfold set_inputs_for_round_a, bind, the. rewrite Hs. cbn.
    intros Hbody. injection Hbody as <-. exact Hs. }
  destruct (execute_veto_state ids0 security zero cur1 H1) as (cur2 & E2 & H2).
  rewrite (bind_done _ E2).
  assert (Hsilent2 : forall q, In q cur2 -> is_message_sender (self q) = false).
  { intros q Hq.
    pose proof (execute_veto_keeps_beyond_veto security cur1) as Hk.
    rewrite E2 in Hk. cbn [state_of] in Hk.
    destruct (in_of_all beyond_veto _ _ Hk q Hq) as (p & Hp & Hv).
    unfold beyond_veto in Hv. injection Hv as _ _ _ _ _ _ _ _ Hs _ _ _ _ _ _ _ _.
    rewrite Hs. apply Hsilent1, Hp. }
  assert (Hres : forall s t,
             not_vetoing ids0 0 None
               (zero || (nonempty ids0 && nonempty (range 1 (security + 1)))) s t ->
             veto_result s = 0).
  { intros s t (_ & _ & _ & _ & _ & _ & Hz). apply Hz.
    rewrite (range_nonempty _ Hsec). destruct Hzero as [Hne| ->]; [|reflexivity].
    destruct ids0; [congruence|]. apply orb_true_r. }
  rewrite (bind_done _ (agree_state _ Bool.eqb (fun p => veto_result p =? 0) true
                          cur2 H2
                          ltac:(intros s t Hst; cbn beta; rewrite (Hres s t Hst); reflexivity)
                          eq_refl)).
  assert (H2' : in_state (fun s t => not_vetoing ids0 0 None
                                       (zero || (nonempty ids0
                                                 && nonempty (range 1 (security + 1))))
                                       s t
                                     /\ is_message_sender s = false) cur2).
  { destruct H2 as (Hne & Hc & HP). split; [exact Hne|]. split; [exact Hc|].
    intros q Hq. destruct (HP q Hq) as [Hnv Ho]. auto. }
  apply (each_state _ (found_silent ids0)
           (fun s _ => upd_collision_detection_result 0 s) (fun _ t => t)
           (assign (upd_collision_detection_result 0)) cur2 H2').
  intros s t [Hnv Hs]. pose proof (Hres s t Hnv) as Hr.
  destruct Hnv as (Hq & _ & _ & Ha & _).
  split; [apply runs_assign|]. split; [|split; reflexivity].
  repeat split; try assumption; apply Hq.
Qed.

(** X15: when no participant of a group is a message sender,
    [execute_collision_detection] returns at every participant with the
    result 0, for every outcome of the random bits: round A is a veto in
    which nobody vetoes, and round B is not run. The group is connected, its
    mailboxes are empty, [all_node_ids] is the same list at every participant
    and the tapes last for the share vectors of round A. *)
Theorem collision_detection_of_the_silent (security : Z) (ids0 : list string)
    (net : Net) :
  1 <= security ->
  net <> [] ->
  connected net ->
  ids0 <> [] ->
  (forall p, In p net ->
     idle p /\ veto_finished (self p) = []
     /\ parity_broadcasts_last (self p) = false
     /\ all_node_ids (self p) = ids0) ->
  (forall p, In p net -> is_message_sender (self p) = false) ->
  (forall p, In p net ->
     lasts (List.length ids0 * Z.to_nat security)
       (len (all_nodes (self p)) + 1) 0 (tape p) = true) ->
  exists net',
    execute_collision_detection security net = Done tt net'
    /\ forall q, In q net' ->
         collision_detection_result (self q) = 0 /\ veto_result (self q) = 0.
Proof.
  intros Hsec Hne Hconn Hids Hready Hsilent Htape.
  destruct (collision_detection_silent_state ids0 security false net Hsec
              (or_introl Hids))
    as (net' & E & H).
  - split; [exact Hne|]. split; [exact Hconn|]. intros q Hq.
    destruct (Hready q Hq) as ((Hquiet & Hout) & Hf & Hl & Ha).
    split; [|exact Hout].
    repeat split; try assumption; try apply Hquiet; auto.
    discriminate.
  - exists net'. split; [exact E|]. intros q Hq.
    destruct (proj2 (proj2 H) q Hq) as [(_ & _ & Hc & Hv & _) _]. auto.
Qed.

Lemma collision_detection_of_the_silent_witness :
  exists net',
    execute_collision_detection 3 veto_example = Done tt net'
    /\ forall q, In q net' ->
         collision_detection_result (self q) = 0 /\ veto_result (self q) = 0.
Proof.
  apply (collision_detection_of_the_silent 3 ["1"; "2"]%string veto_example).
  - lia.
  - discriminate.
  - apply connectedb_sound. vm_compute. reflexivity.
  - discriminate.
  - intros p [<-|[<-|[]]]; vm_compute; auto.
  - intros p [<-|[<-|[]]]; vm_compute; reflexivity.
  - intros p [<-|[<-|[]]]; vm_compute; reflexivity.
Defined.

Section SilentTransmission.

Variable irreducible_binary_polynomial_dict : Z -> option string.

(** X16: when no user of a group has set a receiver, [execute_message_transmission]
    returns at every participant, for every outcome of the random bits and
    whatever the table of polynomials is: the identifiers are put in order,
    the collision detection finds nobody, and that is all. Every participant
    is left with the ordered identifiers and the result 0. *)
Theorem message_transmission_of_the_silent (security : Z) (net : Net) :
  1 <= security ->
  net <> [] ->
  connected net ->
  (forall p, In p net ->
     idle p /\ all_node_ids (self p) = [] /\ veto_finished (self p) = []
     /\ parity_broadcasts_last (self p) = false
     /\ notification_input (self p) = ""%string
     /\ is_message_sender (self p) = false) ->
  (forall p, In p net ->
     lasts (List.length net * Z.to_nat security)
       (len (all_nodes (self p)) + 1) 0 (tape p) = true) ->
  exists net',
    execute_message_transmission irreducible_binary_polynomial_dict security net
    = Done tt net'
    /\ forall q, In q net' ->
         collision_detection_result (self q) = 0
         /\ all_node_ids (self q) = sort (ids net)
         /\ is_message_sender (self q) = false.
Proof.
  intros Hsec Hne Hconn Hready Htape.
  set (K := (List.length net * Z.to_nat security)%nat).
  assert (Hin : in_state (fresh_and_silent K) net).
  { split; [exact Hne|]. split; [exact Hconn|]. intros q Hq.
    destruct (Hready q Hq) as ((Hquiet & Hout) & Ha & Hf & Hl & Hn & Hs).
    split; [|exact Hout]. repeat split; try assumption; try apply Hquiet.
    apply Htape, Hq. }
  assert (Hlen : List.length (sort (ids net)) = List.length net).
  { rewrite (Permutation_length (sort_is_permutation (ids net))).
    unfold ids. apply length_map. }
  destruct (create_order_returns net Hconn) as (net1 & E1 & H1).
  { intros p Hp. destruct (Hready p Hp) as ((_ & Hout) & Ha & _). auto. }
  assert (Hin1 : in_state (fun s t => silent (sort (ids net)) K false s t
                                      /\ notification_input s = ""%string) net1).
  { apply (step_state (fresh_and_silent K) _
             (fun p => upd_all_node_ids (sort (ids net)) (self p)) (fun p => tape p)
             net net1 Hin H1).
    intros p Hp (Hq & Ha & Hf & Hl & Hn & Hs & Ht).
    split; [|split; reflexivity].
    split; [|exact Hn]. repeat split; try assumption; try apply Hq.
    discriminate. }
  destruct (each_state _ (silent (sort (ids net)) K false)
              (fun s _ => s) (fun _ t => t)
              (input <- the notification_input ;;
               if negb (String.eqb input "")
               then assign (upd_is_message_sender true)
               else ret tt)%py net1 Hin1) as (net2 & E2 & H2).
  { intros s t [Hs Hn]. split; [|split; [exact Hs | split; reflexivity]].
    eapply runs_bind; [apply runs_the|]. rewrite Hn. apply runs_ret. }
  unfold K in H2. rewrite <- Hlen in H2.
  destruct (collision_detection_silent_state (sort (ids net)) security false net2 Hsec)
    as (net3 & E3 & H3); [|exact H2|].
  { left. intros E. rewrite E in Hlen. destruct net; [congruence | discriminate Hlen]. }
  exists net3. split.
  - unfold execute_message_transmission.
    rewrite (bind_done _ E1), (bind_done _ E2), (bind_done _ E3).
    rewrite (bind_done _ (agree_state _ Z.eqb collision_detection_result 0 net3 H3
                            ltac:(intros s t (_ & _ & Hc & _); exact Hc) eq_refl)).
    reflexivity.
  - intros q Hq. destruct (proj2 (proj2 H3) q Hq) as [(_ & Ha & Hc & _ & Hs) _]. auto.
Qed.

End SilentTransmission.

Lemma message_transmission_of_the_silent_witness :
  exists net',
    execute_message_transmission example_polynomial_dict 3 silent_example = Done tt net'
    /\ forall q, In q net' ->
         collision_detection_result (self q) = 0
         /\ all_node_ids (self q) = sort (ids silent_example)
         /\ is_message_sender (self q) = false.
Proof.
  apply (message_transmission_of_the_silent example_polynomial_dict 3 silent_example).
  - lia.
  - discriminate.
  - apply connectedb_sound. vm_compute. reflexivity.
  - intros p [<-|[<-|[<-|[]]]]; vm_compute; auto 10.
  - intros p [<-|[<-|[<-|[]]]]; vm_compute; reflexivity.
Defined.
